(** * alarm_cond.c: the alarm list, its worker thread and the command loop

    A shallow embedding of [alarm_cond.c].  The alarm list is a singly
    linked list of heap-allocated [alarm_t] nodes reached from the global
    [alarm_list]; the embedding keeps the heap, the pointers and the
    pointer-to-pointer cursor [last] of [alarm_insert], and relates them to
    the sequence of nodes the list holds. *)

From Stdlib Require Import ZArith Ascii String Lia Sorted.
From stdpp Require Import base option list gmap.

Local Open Scope Z_scope.

(** ** Data model *)

(** An [alarm_t *] is [NULL] or the address of a node. *)
Definition loc := positive.
Definition ptr := option loc.
Definition NULL : ptr := None.

(** [struct alarm_tag].  The [int] fields and the [time_t] field are only
    compared with one another and added once ([time(NULL) + seconds], in a
    64-bit [time_t]); they are kept as mathematical integers. *)
Record alarm_t := mk_alarm {
  link : ptr;
  type : ascii;
  seconds : Z;
  messageType : Z;
  messageNumber : Z;
  time : Z;
  message : string
}.

Definition set_link (l : ptr) (a : alarm_t) : alarm_t :=
  mk_alarm l (type a) (seconds a) (messageType a) (messageNumber a)
           (time a) (message a).
Definition set_type (c : ascii) (a : alarm_t) : alarm_t :=
  mk_alarm (link a) c (seconds a) (messageType a) (messageNumber a)
           (time a) (message a).
Definition set_seconds (z : Z) (a : alarm_t) : alarm_t :=
  mk_alarm (link a) (type a) z (messageType a) (messageNumber a)
           (time a) (message a).
Definition set_messageType (z : Z) (a : alarm_t) : alarm_t :=
  mk_alarm (link a) (type a) (seconds a) z (messageNumber a)
           (time a) (message a).
Definition set_messageNumber (z : Z) (a : alarm_t) : alarm_t :=
  mk_alarm (link a) (type a) (seconds a) (messageType a) z
           (time a) (message a).
Definition set_time (z : Z) (a : alarm_t) : alarm_t :=
  mk_alarm (link a) (type a) (seconds a) (messageType a) (messageNumber a)
           z (message a).
Definition set_message (s : string) (a : alarm_t) : alarm_t :=
  mk_alarm (link a) (type a) (seconds a) (messageType a) (messageNumber a)
           (time a) s.

(** What the program writes or does to the outside, in order. *)
Inductive event :=
| Print_replacement (number now : Z) (ty : ascii)
    (* "Type A Replacement Alarm Request With Message Number %d Inserted
        Into Alarm List at %lld: %c" *)
| Print_inserted (number now : Z) (ty : ascii)
    (* "Type A Alarm Request With Message Number %d Inserted Into Alarm
        List at %lld: %c" *)
| Cond_signal
    (* pthread_cond_signal(&alarm_cond) *)
| Print_fired (secs : Z) (msg : string)
    (* "(%d) %s" *)
| Prompt
    (* "Alarm> " *)
| Stderr_bad_command
    (* fprintf(stderr, "Bad command\n") *)
| Print_bad_command
    (* "bad command\n" *)
| Print_no_request (kind : ascii) (ident : Z)
    (* "... No Alarm Request With Message Type/Number %d ..." *)
| Print_more_than_one (kind : ascii) (ident : Z)
    (* "Error: More Than One ... %d!" *)
| Print_control_inserted (kind : ascii) (ident now : Z).
    (* "Type C/D/E ... Inserted Into Alarm List at %lld" *)

(** The globals [alarm_list] and [current_alarm], the heap of allocated
    nodes, and the output so far. *)
Record state := mk_state {
  heap : gmap loc alarm_t;
  alarm_list : ptr;
  current_alarm : Z;
  out : list event
}.

Definition init_state : state := mk_state ∅ NULL 0 [].

Definition with_heap (h : gmap loc alarm_t) (st : state) : state :=
  mk_state h (alarm_list st) (current_alarm st) (out st).
Definition with_alarm_list (p : ptr) (st : state) : state :=
  mk_state (heap st) p (current_alarm st) (out st).
Definition with_current_alarm (t : Z) (st : state) : state :=
  mk_state (heap st) (alarm_list st) t (out st).
Definition emit (e : event) (st : state) : state :=
  mk_state (heap st) (alarm_list st) (current_alarm st) (out st ++ [e]).

(** How a run of a piece of code ends. *)
Inductive outcome (A : Type) :=
| Ok (a : A)
| Abort (msg : string)   (* err_abort / errno_abort *)
| Exit (code : Z)        (* exit(code) *)
| Fault                  (* access through NULL or a dangling pointer *)
| OutOfFuel.             (* the loop did not end within the fuel given *)
Arguments Ok {A} a.
Arguments Abort {A} msg.
Arguments Exit {A} code.
Arguments Fault {A}.
Arguments OutOfFuel {A}.

#[global] Instance outcome_bind : MBind outcome := λ A B k m,
  match m with
  | Ok a => k a
  | Abort msg => Abort msg
  | Exit c => Exit c
  | Fault => Fault
  | OutOfFuel => OutOfFuel
  end.

(** [p->field] *)
Definition load (p : loc) (st : state) : outcome alarm_t :=
  match heap st !! p with
  | Some a => Ok a
  | None => Fault
  end.

(** [p->field = v], as an update [f] of the node at [p]. *)
Definition store (p : loc) (f : alarm_t -> alarm_t) (st : state)
  : outcome state :=
  match heap st !! p with
  | Some a => Ok (with_heap (<[p := f a]> (heap st)) st)
  | None => Fault
  end.

(** The cursor [alarm_t **last]: the address of [alarm_list] or of the
    [link] field of a node. *)
Inductive lvalue :=
| Head
| Link (p : loc).

(** [*last] *)
Definition read_last (last : lvalue) (st : state) : outcome ptr :=
  match last with
  | Head => Ok (alarm_list st)
  | Link p => a ← load p st; Ok (link a)
  end.

(** [*last = v] *)
Definition write_last (last : lvalue) (v : ptr) (st : state) : outcome state :=
  match last with
  | Head => Ok (with_alarm_list v st)
  | Link p => store p (set_link v) st
  end.

(** ** alarm_insert *)

Definition is_A (c : ascii) : bool := Ascii.eqb c "A"%char.

(** The [while (next != NULL)] loop of [alarm_insert].  It returns the
    values of [last] and [next] on leaving the loop, with the state. *)
Fixpoint insert_scan (fuel : nat) (now : Z) (alarm : loc)
    (last : lvalue) (next : ptr) (st : state)
  : outcome (lvalue * ptr * state) :=
  match next with
  | None => Ok (last, None, st)
  | Some n =>
    match fuel with
    | O => OutOfFuel
    | S fuel' =>
      nx ← load n st;
      al ← load alarm st;
      if is_A (type nx) && (messageNumber nx =? messageNumber al) then
        let st1 :=
          emit (Print_replacement (messageNumber al) now (type al)) st in
        st2 ← store alarm (set_link (Some n)) st1;    (* alarm->link = next *)
        Ok (last, Some alarm, st2)                    (* next = alarm; break *)
      else if time al <=? time nx then
        st1 ← store alarm (set_link (Some n)) st;     (* alarm->link = next *)
        st2 ← write_last last (Some alarm) st1;       (* *last = alarm *)
        al' ← load alarm st2;
        Ok (last, Some n,
            emit (Print_inserted (messageNumber al') now (type al')) st2)
      else
        (* last = &next->link; next = next->link *)
        insert_scan fuel' now alarm (Link n) (link nx) st
    end
  end.

(** After the loop: [if (next == NULL) { *last = alarm; alarm->link = NULL; }] *)
Definition insert_at_end (alarm : loc) (last : lvalue) (next : ptr)
    (st : state) : outcome state :=
  match next with
  | None =>
    st' ← write_last last (Some alarm) st;           (* *last = alarm *)
    store alarm (set_link NULL) st'                   (* alarm->link = NULL *)
  | Some _ => Ok st
  end.

(** The loop and the [if] after it, from a given cursor. *)
Definition link_in (fuel : nat) (now : Z) (alarm : loc)
    (last : lvalue) (next : ptr) (st : state) : outcome state :=
  '(last', next', st1) ← insert_scan fuel now alarm last next st;
  insert_at_end alarm last' next' st1.

(** The wake decision at the end of [alarm_insert]. *)
Definition wake_needed (al : alarm_t) (st : state) : bool :=
  (current_alarm st =? 0) || (time al <? current_alarm st).

Definition wake (sig_status : Z) (alarm : loc) (st : state) : outcome state :=
  al ← load alarm st;
  if wake_needed al st then
    let st' := emit Cond_signal (with_current_alarm (time al) st) in
    if sig_status =? 0 then Ok st' else Abort "Signal cond"
  else Ok st.

(** [alarm_insert(alarm)]: [last = &alarm_list; next = *last;], the loop,
    the append at the end, the wake decision.  [now] is what [time(NULL)]
    returns for the printed line, [sig_status] what [pthread_cond_signal]
    returns. *)
Definition alarm_insert (fuel : nat) (now sig_status : Z) (alarm : loc)
    (st : state) : outcome state :=
  st' ← link_in fuel now alarm Head (alarm_list st) st;
  wake sig_status alarm st'.

(** ** alarm_thread *)

(** [ETIMEDOUT] of <errno.h>, as Linux defines it. *)
Definition ETIMEDOUT : Z := 110.

(** What a wait on [alarm_cond] hands back to the alarm thread: the status
    of the call, and the shared state as the other thread left it while the
    mutex was released. *)
Definition wakeup : Type := Z * state.

(** [while (alarm_list == NULL) { status = pthread_cond_wait(...);
    if (status != 0) err_abort(...); }]
    The waits that are to come are an input; running out of them is a
    thread that stays blocked. *)
Fixpoint wait_for_work (wakes : list wakeup) (st : state)
  : outcome (list wakeup * state) :=
  match alarm_list st with
  | Some _ => Ok (wakes, st)
  | None =>
    match wakes with
    | [] => OutOfFuel
    | (status, st') :: wakes' =>
      if status =? 0 then wait_for_work wakes' st'
      else Abort "Wait on cond"
    end
  end.

(** [while (current_alarm == alarm->time) { status = pthread_cond_timedwait(...);
      if (status == ETIMEDOUT) { expired = 1; break; }
      if (status != 0) err_abort(...); }]
    It returns [expired]. *)
Fixpoint timed_wait (alarm : loc) (wakes : list wakeup) (st : state)
  : outcome (bool * list wakeup * state) :=
  al ← load alarm st;
  if current_alarm st =? time al then
    match wakes with
    | [] => OutOfFuel
    | (status, st') :: wakes' =>
      if status =? ETIMEDOUT then Ok (true, wakes', st')
      else if status =? 0 then timed_wait alarm wakes' st'
      else Abort "Cond timedwait"
    end
  else Ok (false, wakes, st).

(** [printf("(%d) %s\n", alarm->seconds, alarm->message); free(alarm);] *)
Definition fire (alarm : loc) (st : state) : outcome state :=
  al ← load alarm st;
  Ok (with_heap (delete alarm (heap st))
                (emit (Print_fired (seconds al) (message al)) st)).

(** The body of the thread's loop from [now = time(NULL)] on, for the
    request [alarm] just taken off the list.  It returns [expired]. *)
Definition serve_alarm (now : Z) (fuel : nat) (now_ins sig_status : Z)
    (alarm : loc) (wakes : list wakeup) (st : state)
  : outcome (bool * list wakeup * state) :=
  al ← load alarm st;
  '(expired, wakes1, st1) ←
    (if now <? time al then                              (* alarm->time > now *)
       '(expired, wakes1, st1) ←
         timed_wait alarm wakes (with_current_alarm (time al) st);
       if expired : bool then Ok (true, wakes1, st1)
       else
         st2 ← alarm_insert fuel now_ins sig_status alarm st1;
         Ok (false, wakes1, st2)                         (* if (!expired) *)
     else Ok (true, wakes, st));                         (* expired = 1 *)
  if expired : bool then
    st2 ← fire alarm st1;
    Ok (true, wakes1, st2)
  else Ok (false, wakes1, st1).

(** One turn of [while (1)] in [alarm_thread]. *)
Definition alarm_thread_turn (now : Z) (fuel : nat) (now_ins sig_status : Z)
    (wakes : list wakeup) (st : state)
  : outcome (bool * list wakeup * state) :=
  '(wakes1, st1) ← wait_for_work wakes (with_current_alarm 0 st);
  match alarm_list st1 with
  | None => Fault
  | Some alarm =>                                        (* alarm = alarm_list *)
    al ← load alarm st1;
    serve_alarm now fuel now_ins sig_status alarm wakes1
                (with_alarm_list (link al) st1)          (* alarm_list = alarm->link *)
  end.

(** ** The command loop: reading and scanning a line *)

Definition nl : ascii := "010"%char.
Definition NUL : ascii := "000"%char.

(** A command followed by the newline [fgets] keeps. *)
Definition line_of (s : string) : string := (s ++ String nl "")%string.

(** <ctype.h>, in the C locale *)
Definition isdigit (c : ascii) : bool :=
  (48 <=? nat_of_ascii c)%nat && (nat_of_ascii c <=? 57)%nat.

Definition isspace (c : ascii) : bool :=
  (nat_of_ascii c =? 32)%nat ||
  ((9 <=? nat_of_ascii c)%nat && (nat_of_ascii c <=? 13)%nat).

(** [fgets(line, size, stdin)]: at most [size - 1] characters, up to and
    with the first newline; [None] at the end of the input.  It returns
    the characters stored and the input that is left. *)
Fixpoint fgets_chars (n : nat) (input : string) : string * string :=
  match n with
  | O => (EmptyString, input)
  | S n' =>
    match input with
    | EmptyString => (EmptyString, EmptyString)
    | String c rest =>
      if Ascii.eqb c nl then (String c EmptyString, rest)
      else let '(l, r) := fgets_chars n' rest in (String c l, r)
    end
  end.

Definition fgets (size : nat) (input : string) : option (string * string) :=
  match input with
  | EmptyString => None
  | _ => Some (fgets_chars (size - 1) input)
  end.

(** The buffer as a C string: what precedes the first NUL. *)
Fixpoint c_str (buf : string) : string :=
  match buf with
  | EmptyString => EmptyString
  | String c buf' => if Ascii.eqb c NUL then EmptyString else String c (c_str buf')
  end.

(** [line[i]], the terminating NUL when [i] is the length.  The chains of
    [&&] in [typeFinder] stop at the first character that differs, so they
    never read past the terminator. *)
Definition char_at (line : string) (i : nat) : ascii :=
  match String.get i line with
  | Some c => c
  | None => NUL
  end.

(** [line[i] == p[0] && line[i+1] == p[1] && ...] *)
Fixpoint chars_from (i : nat) (p : string) (line : string) : bool :=
  match p with
  | EmptyString => true
  | String c p' => Ascii.eqb (char_at line i) c && chars_from (S i) p' line
  end.

Definition typeFinder (line : string) : ascii :=
  if isdigit (char_at line 0) then "A"%char
  else if chars_from 0 "Create_Thread" line then "B"%char
  else if chars_from 0 "Cancel" line then "C"%char
  else if chars_from 0 "Pause_Thread" line then "D"%char
  else if chars_from 0 "Resume_Thread" line then "E"%char
  else "F"%char.

(** *** sscanf

    The directives the program's formats use: white space (skips any run
    of white space), an ordinary character (must be next), [%d], and
    [%<width>[^\n]]. *)
Inductive directive :=
| D_space
| D_char (c : ascii)
| D_int
| D_not_newline (width : nat).

Inductive scanned :=
| S_int (z : Z)
| S_str (s : string).

Fixpoint lit (s : string) : list directive :=
  match s with
  | EmptyString => []
  | String c s' => (if isspace c then D_space else D_char c) :: lit s'
  end.

Fixpoint skip_space (s : string) : string :=
  match s with
  | String c s' => if isspace c then skip_space s' else s
  | EmptyString => s
  end.

Definition digit_value (c : ascii) : Z := Z.of_nat (nat_of_ascii c) - 48.

Fixpoint scan_digits (acc : Z) (s : string) : Z * string :=
  match s with
  | String c s' =>
    if isdigit c then scan_digits (10 * acc + digit_value c) s' else (acc, s)
  | EmptyString => (acc, s)
  end.

(** The result of one conversion. *)
Inductive conversion (A : Type) :=
| Converted (a : A) (rest : string)
| Mismatch                           (* matching failure *)
| Input_end.                         (* input failure *)
Arguments Converted {A} a rest.
Arguments Mismatch {A}.
Arguments Input_end {A}.

(** [%d]: white space, an optional sign, decimal digits.  The value is the
    number written; C leaves the result undefined when it does not fit an
    [int], and nothing below depends on it. *)
Definition scan_int (s : string) : conversion Z :=
  match skip_space s with
  | EmptyString => Input_end
  | String c s' =>
    let negative := Ascii.eqb c "-"%char in
    let body := if negative || Ascii.eqb c "+"%char then s' else String c s' in
    match body with
    | EmptyString => Input_end
    | String d _ =>
      if isdigit d then
        let '(v, rest) := scan_digits 0 body in
        Converted (if negative then - v else v) rest
      else Mismatch
    end
  end.

(** [%<width>[^\n]]: a non-empty run of at most [width] characters other
    than newline; no white space is skipped. *)
Fixpoint take_not_newline (width : nat) (s : string) : string * string :=
  match width with
  | O => (EmptyString, s)
  | S w =>
    match s with
    | EmptyString => (EmptyString, s)
    | String c s' =>
      if Ascii.eqb c nl then (EmptyString, s)
      else let '(t, r) := take_not_newline w s' in (String c t, r)
    end
  end.

Definition scan_not_newline (width : nat) (s : string) : conversion string :=
  match s with
  | EmptyString => Input_end
  | String c _ =>
    if Ascii.eqb c nl then Mismatch
    else let '(t, r) := take_not_newline width s in Converted t r
  end.

Definition EOF : Z := -1.

(** The value [sscanf] returns when it stops: the number of items
    assigned, or [EOF] when the input ends before the first of them. *)
Definition stopped (input_ended : bool) (got : list scanned) : Z :=
  match got with
  | [] => if input_ended then EOF else 0
  | _ => Z.of_nat (length got)
  end.

(** [sscanf(s, fmt, ...)]: the return value and the items assigned, in
    the order of the arguments. *)
Fixpoint sscanf (fmt : list directive) (s : string) (got : list scanned)
  : Z * list scanned :=
  match fmt with
  | [] => (Z.of_nat (length got), got)
  | D_space :: fmt' => sscanf fmt' (skip_space s) got
  | D_char c :: fmt' =>
    match s with
    | EmptyString => (stopped true got, got)
    | String c' s' =>
      if Ascii.eqb c c' then sscanf fmt' s' got else (stopped false got, got)
    end
  | D_int :: fmt' =>
    match scan_int s with
    | Converted v rest => sscanf fmt' rest (got ++ [S_int v])
    | Mismatch => (stopped false got, got)
    | Input_end => (stopped true got, got)
    end
  | D_not_newline width :: fmt' =>
    match scan_not_newline width s with
    | Converted t rest => sscanf fmt' rest (got ++ [S_str t])
    | Mismatch => (stopped false got, got)
    | Input_end => (stopped true got, got)
    end
  end.

(** "%d Message(%d, %d) %128[^\n]" *)
Definition format_A : list directive :=
  D_int :: lit " Message(" ++ D_int :: lit ", " ++ D_int :: lit ") "
        ++ [D_not_newline 128].

(** "Create_Thread: MessageType(%d)" *)
Definition format_B : list directive :=
  lit "Create_Thread: MessageType(" ++ D_int :: lit ")".

(** "Cancel: Message(%d)" *)
Definition format_C : list directive :=
  lit "Cancel: Message(" ++ D_int :: lit ")".

(** "Pause_Thread: MessageType(%d)" *)
Definition format_D : list directive :=
  lit "Pause_Thread: MessageType(" ++ D_int :: lit ")".

(** "Resume_Thread: MessageType(%d)" *)
Definition format_E : list directive :=
  lit "Resume_Thread: MessageType(" ++ D_int :: lit ")".

(** ** The command loop: one turn of [while (1)] in [main] *)

(** What the turn takes from outside: the block [malloc] returns and what
    it holds, the successive readings of [time(NULL)], and the statuses of
    the pthread calls. *)
Record env := mk_env {
  malloc_result : ptr;
  malloc_contents : alarm_t;
  time_expiry : Z;      (* time(NULL) in [alarm->time = time(NULL) + ...] *)
  time_insert : Z;      (* time(NULL) in the line alarm_insert prints *)
  time_report : Z;      (* time(NULL) in the line printed after the insert *)
  lock_status : Z;
  signal_status : Z;
  unlock_status : Z
}.

(** [free(alarm)] *)
Definition free (alarm : loc) (st : state) : state :=
  with_heap (delete alarm (heap st)) st.

(** [pthread_mutex_lock; alarm->time = time(NULL) + alarm->seconds;
     alarm_insert(alarm); pthread_mutex_unlock], with the [err_abort]s. *)
Definition submit (e : env) (fuel : nat) (alarm : loc) (st : state)
  : outcome state :=
  if negb (lock_status e =? 0) then Abort "Lock mutex"
  else
    st1 ← store alarm (λ a, set_time (time_expiry e + seconds a) a) st;
    st2 ← alarm_insert fuel (time_insert e) (signal_status e) alarm st1;
    if negb (unlock_status e =? 0) then Abort "Unlock mutex" else Ok st2.

(** The fields the first items of "%d Message(%d, %d) %128[^\n]" are stored
    in: [&alarm->seconds, &alarm->messageType, &alarm->messageNumber,
    alarm->message]. *)
Definition assign_A (got : list scanned) (a : alarm_t) : alarm_t :=
  match got with
  | S_int s :: rest =>
    let a := set_seconds s a in
    match rest with
    | S_int t :: rest =>
      let a := set_messageType t a in
      match rest with
      | S_int n :: rest =>
        let a := set_messageNumber n a in
        match rest with
        | S_str m :: _ => set_message m a
        | _ => a
        end
      | _ => a
      end
    | _ => a
    end
  | _ => a
  end.

(** [case 'A'] *)
Definition case_A (e : env) (fuel : nat) (line : string) (alarm : ptr)
    (st : state) : outcome state :=
  match alarm with
  | None => Abort "Allocate alarm"
  | Some a =>
    let '(n, got) := sscanf format_A line [] in
    st1 ← store a (assign_A got) st;
    if n <? 4 then Ok (free a (emit Stderr_bad_command st1))
    else
      st2 ← store a (set_type "A") st1;
      submit e fuel a st2
  end.

(** The loops [while (next != NULL) { if (test) { printf(...);
    shouldProceed = false; break; } }] of the cases 'B' to 'E'.  The body
    does not move [next].  It returns whether the test held. *)
Fixpoint validation_scan (fuel : nat) (test : alarm_t → alarm_t → bool)
    (complaint : alarm_t → event) (alarm : loc) (next : ptr) (st : state)
  : outcome (bool * state) :=
  match next with
  | None => Ok (false, st)
  | Some n =>
    match fuel with
    | O => OutOfFuel
    | S fuel' =>
      nx ← load n st;
      al ← load alarm st;
      if test nx al then Ok (true, emit (complaint al) st)
      else validation_scan fuel' test complaint alarm next st
    end
  end.

(** What differs between the cases 'B', 'C', 'D' and 'E'. *)
Record control := mk_control {
  kind : ascii;                                 (* alarm->type = ... *)
  format : list directive;                      (* the sscanf format *)
  assign : Z → alarm_t → alarm_t;               (* where %d is stored *)
  test1 : alarm_t → alarm_t → bool;             (* first loop: next, alarm *)
  complaint1 : alarm_t → event;
  test2 : alarm_t → alarm_t → bool;             (* second loop *)
  complaint2 : alarm_t → event;
  report : option (alarm_t → Z → event)         (* printf after the insert *)
}.

Definition type_is (c : ascii) (a : alarm_t) : bool := Ascii.eqb (type a) c.

Definition control_B : control :=
  mk_control "B" format_B set_messageType
    (λ next alarm,
       type_is "A" next && negb (messageType next =? messageType alarm))
    (λ alarm, Print_no_request "B" (messageType alarm))
    (λ next alarm,
       type_is "B" next && (messageType next =? messageType alarm))
    (λ alarm, Print_more_than_one "B" (messageType alarm))
    None.

Definition control_C : control :=
  mk_control "C" format_C set_messageNumber
    (λ next alarm,
       type_is "A" next && negb (messageNumber next =? messageNumber alarm))
    (λ alarm, Print_no_request "C" (messageNumber alarm))
    (λ next alarm,
       type_is "B" next && (messageNumber next =? messageNumber alarm))
    (λ alarm, Print_more_than_one "C" (messageNumber alarm))
    (Some (λ alarm now,
             Print_control_inserted "C" (messageNumber alarm) now)).

Definition control_D : control :=
  mk_control "D" format_D set_messageType
    (λ next alarm,
       type_is "A" next && negb (messageType next =? messageType alarm))
    (λ alarm, Print_no_request "D" (messageType alarm))
    (λ next alarm,
       type_is "B" next && (messageNumber next =? messageNumber alarm))
    (λ alarm, Print_more_than_one "D" (messageType alarm))
    (Some (λ alarm now,
             Print_control_inserted "D" (messageType alarm) now)).

Definition control_E : control :=
  mk_control "E" format_E set_messageType
    (λ next alarm,
       type_is "D" next && negb (messageType next =? messageType alarm))
    (λ alarm, Print_no_request "E" (messageType alarm))
    (λ next alarm,
       type_is "E" next && (messageNumber next =? messageNumber alarm))
    (λ alarm, Print_more_than_one "E" (messageType alarm))
    (Some (λ alarm now,
             Print_control_inserted "E" (messageType alarm) now)).

(** The two loops of a case: [shouldProceed] at the end. *)
Definition validate (k : control) (fuel : nat) (alarm : loc) (st : state)
  : outcome (bool * state) :=
  '(hit1, st1) ←
    validation_scan fuel (test1 k) (complaint1 k) alarm (alarm_list st) st;
  '(hit2, st2) ←
    validation_scan fuel (test2 k) (complaint2 k) alarm (alarm_list st1) st1;
  Ok (negb hit1 && negb hit2, st2).

(** [case 'B'], [case 'C'], [case 'D'], [case 'E'] *)
Definition case_control (k : control) (e : env) (fuel : nat) (line : string)
    (alarm : ptr) (st : state) : outcome state :=
  match alarm with
  | None => Fault
  | Some a =>
    let '(n, got) := sscanf (format k) line [] in
    st0 ← match got with
          | S_int v :: _ => store a (assign k v) st
          | _ => Ok st
          end;
    if n <? 1 then
      st1 ← store a (set_type (kind k)) st0;
      '(shouldProceed, st2) ← validate k fuel a st1;
      if shouldProceed : bool then
        st3 ← submit e fuel a st2;
        match report k with
        | Some line_for =>
          al ← load a st3;
          Ok (emit (line_for al (time_report e)) st3)
        | None => Ok st3
        end
      else Ok (free a st2)
    else Ok st0
  end.

(** One turn of the loop: the prompt, [fgets], [malloc], the [switch].
    It returns the input that is left with the state; [Exit 0] is the end
    of the input. *)
Definition main_turn (e : env) (fuel : nat) (stdin : string) (st : state)
  : outcome (string * state) :=
  let st := emit Prompt st in
  match fgets 128 stdin with
  | None => Exit 0
  | Some (buf, rest) =>
    let line := c_str buf in
    if (String.length line <=? 1)%nat then Ok (rest, st)
    else
      let alarm := malloc_result e in
      let st :=
        match alarm with
        | Some a => with_heap (<[a := malloc_contents e]> (heap st)) st
        | None => st
        end in
      let c := typeFinder line in
      st' ← (if Ascii.eqb c "A" then case_A e fuel line alarm st
             else if Ascii.eqb c "B" then
               case_control control_B e fuel line alarm st
             else if Ascii.eqb c "C" then
               case_control control_C e fuel line alarm st
             else if Ascii.eqb c "D" then
               case_control control_D e fuel line alarm st
             else if Ascii.eqb c "E" then
               case_control control_E e fuel line alarm st
             else Ok (emit Print_bad_command st));
      Ok (rest, st')
  end.

(** ** The list held by the heap *)

(** [is_list h p ls]: following [link] from [p] in [h] visits exactly the
    nodes [ls], in this order, and then reaches [NULL]. *)
Fixpoint is_list (h : gmap loc alarm_t) (p : ptr) (ls : list loc) : Prop :=
  match ls with
  | [] => p = None
  | a :: ls' => p = Some a ∧ ∃ n, h !! a = Some n ∧ is_list h (link n) ls'
  end.

(** The walk of the DEBUG loop
    [for (next = alarm_list; next != NULL; next = next->link)]. *)
Fixpoint walk (fuel : nat) (h : gmap loc alarm_t) (p : ptr)
  : option (list loc) :=
  match p with
  | None => Some []
  | Some a =>
    match fuel with
    | O => None
    | S fuel' =>
      match h !! a with
      | Some n => cons a <$> walk fuel' h (link n)
      | None => None
      end
    end
  end.

(** The [time] fields along the list. *)
Definition time_of (h : gmap loc alarm_t) (a : loc) : Z :=
  from_option time 0 (h !! a).

Definition times (h : gmap loc alarm_t) (ls : list loc) : list Z :=
  time_of h <$> ls.

(** The sequence [alarm_insert] leaves, read off the source's loop: the
    list as it was when a type 'A' entry with the incoming message number
    is met first; otherwise the new node before the first entry that is
    not earlier, or at the end. *)
Fixpoint insert_list (h : gmap loc alarm_t) (alarm : loc) (ls : list loc)
  : list loc :=
  match ls with
  | [] => [alarm]
  | n :: ls' =>
    match h !! n, h !! alarm with
    | Some nx, Some al =>
      if is_A (type nx) && (messageNumber nx =? messageNumber al) then
        n :: ls'
      else if time al <=? time nx then alarm :: n :: ls'
      else n :: insert_list h alarm ls'
    | _, _ => n :: ls'
    end
  end.

(** The line [alarm_insert] prints on the way, if any. *)
Fixpoint insert_print (h : gmap loc alarm_t) (now : Z) (alarm : loc)
    (ls : list loc) : list event :=
  match ls with
  | [] => []
  | n :: ls' =>
    match h !! n, h !! alarm with
    | Some nx, Some al =>
      if is_A (type nx) && (messageNumber nx =? messageNumber al) then
        [Print_replacement (messageNumber al) now (type al)]
      else if time al <=? time nx then
        [Print_inserted (messageNumber al) now (type al)]
      else insert_print h now alarm ls'
    | _, _ => []
    end
  end.

(** Two heaps hold the same nodes with the same fields, up to [link]. *)
Definition same_data (h h' : gmap loc alarm_t) : Prop :=
  ∀ q, set_link NULL <$> h' !! q = set_link NULL <$> h !! q.

(** ** Auxiliary notions for the statements *)

(** The cursor [last] stays clear of the node [q]. *)
Definition off_cursor (last : lvalue) (q : loc) : Prop := last ≠ Link q.

(** The fields of the state outside the list links. *)
Definition same_rest (st st' : state) : Prop :=
  same_data (heap st) (heap st') ∧ current_alarm st' = current_alarm st.

(** The lines [alarm_insert] itself prints. *)
Definition is_insert_print (e : event) : bool :=
  match e with
  | Print_replacement _ _ _ | Print_inserted _ _ _ => true
  | _ => false
  end.

(** Number of [pthread_cond_signal] calls in an output. *)
Fixpoint signals (evs : list event) : nat :=
  match evs with
  | [] => 0
  | Cond_signal :: evs' => S (signals evs')
  | _ :: evs' => signals evs'
  end.

(** The list is well formed and non-decreasing in [time]. *)
Definition list_inv (st : state) (ls : list loc) : Prop :=
  is_list (heap st) (alarm_list st) ls ∧
  StronglySorted Z.le (times (heap st) ls).

(** Number of "(%d) %s" lines in an output. *)
Fixpoint fired_lines (evs : list event) : nat :=
  match evs with
  | [] => 0
  | Print_fired _ _ :: evs' => S (fired_lines evs')
  | _ :: evs' => fired_lines evs'
  end.

Definition controls : list control :=
  [control_B; control_C; control_D; control_E].

(** The kinds of item a format assigns, in order. *)
Inductive item_kind := K_int | K_str.

Definition kind_of (x : scanned) : item_kind :=
  match x with
  | S_int _ => K_int
  | S_str _ => K_str
  end.

Fixpoint conversions (fmt : list directive) : list item_kind :=
  match fmt with
  | [] => []
  | D_int :: fmt' => K_int :: conversions fmt'
  | D_not_newline _ :: fmt' => K_str :: conversions fmt'
  | _ :: fmt' => conversions fmt'
  end.

(** A scanned string of at most [L] characters. *)
Definition fits (L : nat) (x : scanned) : Prop :=
  match x with
  | S_str t => (String.length t ≤ L)%nat
  | S_int _ => True
  end.

(** ** The states the program reaches

    The operations the two threads perform on the shared state: the main
    thread allocates a request and calls [alarm_insert]; the alarm thread
    takes the head off the list, calls [alarm_insert] on a request it holds,
    frees a request it holds, and sets [current_alarm]. *)
Inductive reachable : state → Prop :=
| reach_init :
    reachable init_state
| reach_insert st a n fuel now sig st' :
    (* alarm = malloc(sizeof(alarm_t)); ...; alarm_insert(alarm) *)
    reachable st →
    heap st !! a = None →
    alarm_insert fuel now sig a (with_heap (<[a := n]> (heap st)) st) = Ok st' →
    reachable st'
| reach_pop st a n :
    (* alarm = alarm_list; alarm_list = alarm->link *)
    reachable st →
    alarm_list st = Some a →
    heap st !! a = Some n →
    reachable (with_alarm_list (link n) st)
| reach_requeue st a fuel now sig st' :
    (* alarm_insert(alarm), for a request that is off the list *)
    reachable st →
    (∀ ls, is_list (heap st) (alarm_list st) ls → a ∉ ls) →
    alarm_insert fuel now sig a st = Ok st' →
    reachable st'
| reach_free st a :
    (* free(alarm), for a request that is off the list *)
    reachable st →
    (∀ ls, is_list (heap st) (alarm_list st) ls → a ∉ ls) →
    reachable (with_heap (delete a (heap st)) st)
| reach_current_alarm st t :
    (* current_alarm = 0; current_alarm = alarm->time *)
    reachable st →
    reachable (with_current_alarm t st)
| reach_emit st e :
    (* printf *)
    reachable st →
    reachable (emit e st).

(** ** Concrete queues for the examples *)

(** One queued request: type 'A', message number 1, due at 10. *)
Definition queue_old : state :=
  mk_state
    (<[2%positive := mk_alarm NULL "A" 20 1 1 20 "new"]>
       (<[1%positive := mk_alarm NULL "A" 10 1 1 10 "old"]> ∅))
    (Some 1%positive) 10 [].

(** Two queued requests, numbers 1 and 2, due at 10 and 20, and a new
    request with number 2 due at 5, allocated and not yet inserted. *)
Definition queue_two : state :=
  mk_state
    (<[3%positive := mk_alarm NULL "A" 5 1 2 5 "z"]>
       (<[2%positive := mk_alarm NULL "A" 20 1 2 20 "y"]>
          (<[1%positive := mk_alarm (Some 2%positive) "A" 10 1 1 10 "x"]> ∅)))
    (Some 1%positive) 10 [].

(** The state after "20 Message(1, 1) first", and after
    "10 Message(1, 2) second" follows it, with the alarm thread still
    idle. *)
Definition one_inserted : state :=
  mk_state (<[1%positive := mk_alarm NULL "A" 20 1 1 20 "first"]> ∅)
           (Some 1%positive) 20 [Cond_signal].

Definition two_inserted : state :=
  mk_state
    (<[2%positive := mk_alarm (Some 1%positive) "A" 10 1 2 10 "second"]>
       (<[1%positive := mk_alarm NULL "A" 20 1 1 20 "first"]> ∅))
    (Some 2%positive) 10 [Cond_signal; Print_inserted 2 0 "A"; Cond_signal].

(** [one_inserted] with the second request allocated and filled in, before
    [alarm_insert] is called on it. *)
Definition second_allocated : state :=
  with_heap (<[2%positive := mk_alarm NULL "A" 10 1 2 10 "second"]>
               (heap one_inserted)) one_inserted.

(** The alarm thread holds request 1 (due at 20) and the list is empty;
    then the main thread has inserted request 2 (due at 10) meanwhile. *)
Definition holding_first : state :=
  mk_state (<[1%positive := mk_alarm NULL "A" 20 1 1 20 "first"]> ∅)
           NULL 20 [Cond_signal].

Definition earlier_arrived : state :=
  mk_state
    (<[2%positive := mk_alarm NULL "A" 10 1 2 10 "second"]>
       (<[1%positive := mk_alarm NULL "A" 20 1 1 20 "first"]> ∅))
    (Some 2%positive) 10 [Cond_signal; Cond_signal].

(** A queue holding one type 'A' request, message type 2 and number 7. *)
Definition one_schedule : state :=
  mk_state (<[1%positive := mk_alarm NULL "A" 50 2 7 50 "go"]> ∅)
           (Some 1%positive) 0 [].

(** A turn in which [malloc] returns block 5, holding a stale request with
    message type 2 and number 7, and every pthread call succeeds. *)
Definition turn_env : env :=
  mk_env (Some 5%positive) (mk_alarm NULL "Z" 3 2 7 0 "stale")
         100 100 100 0 0 0.

(** A Cancel request for number 7 in block 5, typed and ready for the
    validation loops, on the empty queue and on [one_schedule]. *)
Definition cancel_on_empty : state :=
  mk_state (<[5%positive := mk_alarm NULL "C" 3 2 7 0 "stale"]> ∅) NULL 0 [].

Definition cancel_on_schedule : state :=
  with_heap (<[5%positive := mk_alarm NULL "C" 3 2 7 0 "stale"]>
               (heap one_schedule)) one_schedule.

(** The four control lines as the grammar has them, and cut short. *)
Definition well_formed_controls : list string :=
  ["Create_Thread: MessageType(2)"; "Cancel: Message(7)";
   "Pause_Thread: MessageType(2)"; "Resume_Thread: MessageType(2)"]%string.

Definition cut_short_controls : list string :=
  ["Create_Thread"; "Cancel"; "Pause_Thread"; "Resume_Thread"]%string.

(** The state after the line "5 Message(1, 100) hello" at time 100 on the
    empty queue. *)
Definition hello_request : alarm_t := mk_alarm NULL "A" 5 1 100 105 "hello".

Definition hello_queued : state :=
  mk_state (<[5%positive := hello_request]> ∅) (Some 5%positive) 105
           [Prompt; Cond_signal].

(** The alarm thread holds request 1 (number 1, due at 100) and the list
    is empty; then the main thread has inserted request 2 with the same
    number 1, due at 51. *)
Definition holding_x : state :=
  mk_state (<[1%positive := mk_alarm NULL "A" 100 1 1 100 "x"]> ∅)
           NULL 100 [Cond_signal].

Definition same_number_arrived : state :=
  mk_state
    (<[2%positive := mk_alarm NULL "A" 50 1 1 51 "y"]>
       (<[1%positive := mk_alarm NULL "A" 100 1 1 100 "x"]> ∅))
    (Some 2%positive) 51 [Cond_signal; Cond_signal].

(** [one_schedule] with block 5 allocated for the line being read. *)
Definition block_allocated : state :=
  with_heap (<[5%positive := malloc_contents turn_env]> (heap one_schedule))
            one_schedule.

(** The alarm thread has taken that request off the list and waits. *)
Definition hello_waiting : state :=
  mk_state (<[5%positive := hello_request]> ∅) NULL 105
           [Prompt; Cond_signal].

(** A Schedule line of 217 characters: "5 Message(1, 2) ", 200 times 'x'
    and the newline.  [fgets] stores its first 127 characters; the request
    holds the 111 'x' among them, and the rest of the line stays in the
    input. *)
Definition xs (n : nat) : string := string_of_list_ascii (replicate n "x"%char).

Definition long_schedule_input : string :=
  ("5 Message(1, 2) " ++ xs 200 ++ String nl EmptyString)%string.

Definition long_schedule_rest : string :=
  (xs 89 ++ String nl EmptyString)%string.

Definition long_schedule_request : alarm_t :=
  mk_alarm NULL "A" 5 1 2 105 (xs 111).

Definition long_schedule_queued : state :=
  mk_state (<[5%positive := long_schedule_request]> ∅) (Some 5%positive) 105
           [Prompt; Cond_signal].

(** ** Notions for the further properties *)

(** No entry among [ls] is a type 'A' entry with the message number of
    [al]: the first test of the loop of [alarm_insert] fails all along. *)
Definition number_not_queued (h : gmap loc alarm_t) (al : alarm_t)
    (ls : list loc) : Prop :=
  ∀ q qx, q ∈ ls → h !! q = Some qx →
          is_A (type qx) && (messageNumber qx =? messageNumber al) = false.

(** The loop of [alarm_insert] passes over the entries [ls]: each fails
    both tests, being no type 'A' entry with the message number of [al]
    and strictly earlier than [al]. *)
Definition passed_over (h : gmap loc alarm_t) (al : alarm_t)
    (ls : list loc) : Prop :=
  ∀ q qx, q ∈ ls → h !! q = Some qx →
          is_A (type qx) && (messageNumber qx =? messageNumber al) = false ∧
          time qx < time al.

(** [queue_two] after [alarm_insert] of request 3. *)
Definition queue_two_after : state :=
  mk_state
    (<[3%positive := mk_alarm (Some 1%positive) "A" 5 1 2 5 "z"]>
       (heap queue_two))
    (Some 3%positive) 5 [Print_inserted 2 0 "A"; Cond_signal].

(** ** The draft of the program

    The second source file is an earlier draft of [alarm_cond.c].  Its
    [alarm_t] has the same fields but for [type], which its functions
    therefore never read or write; its [alarm_insert] has neither the test
    for a queued type 'A' entry nor the printed lines. *)
Module Draft.

(** The [while (next != NULL)] loop of the draft's [alarm_insert]. *)
Fixpoint insert_scan (fuel : nat) (alarm : loc)
    (last : lvalue) (next : ptr) (st : state)
  : outcome (lvalue * ptr * state) :=
  match next with
  | None => Ok (last, None, st)
  | Some n =>
    match fuel with
    | O => OutOfFuel
    | S fuel' =>
      nx ← load n st;
      al ← load alarm st;
      if time al <=? time nx then
        st1 ← store alarm (set_link (Some n)) st;     (* alarm->link = next *)
        st2 ← write_last last (Some alarm) st1;       (* *last = alarm *)
        Ok (last, Some n, st2)                        (* break *)
      else
        (* last = &next->link; next = next->link *)
        insert_scan fuel' alarm (Link n) (link nx) st
    end
  end.

Definition link_in (fuel : nat) (alarm : loc)
    (last : lvalue) (next : ptr) (st : state) : outcome state :=
  '(last', next', st1) ← insert_scan fuel alarm last next st;
  insert_at_end alarm last' next' st1.

(** The draft's [alarm_insert(alarm)]. *)
Definition alarm_insert (fuel : nat) (sig_status : Z) (alarm : loc)
    (st : state) : outcome state :=
  st' ← link_in fuel alarm Head (alarm_list st) st;
  wake sig_status alarm st'.

(** The draft's [alarm_thread] has the text of the later one; the
    [alarm_insert] it calls is the draft's. *)
Definition serve_alarm (now : Z) (fuel : nat) (sig_status : Z)
    (alarm : loc) (wakes : list wakeup) (st : state)
  : outcome (bool * list wakeup * state) :=
  al ← load alarm st;
  '(expired, wakes1, st1) ←
    (if now <? time al then                              (* alarm->time > now *)
       '(expired, wakes1, st1) ←
         timed_wait alarm wakes (with_current_alarm (time al) st);
       if expired : bool then Ok (true, wakes1, st1)
       else
         st2 ← alarm_insert fuel sig_status alarm st1;
         Ok (false, wakes1, st2)                         (* if (!expired) *)
     else Ok (true, wakes, st));                         (* expired = 1 *)
  if expired : bool then
    st2 ← fire alarm st1;
    Ok (true, wakes1, st2)
  else Ok (false, wakes1, st1).

End Draft.

(** The sequence the draft's [alarm_insert] leaves: the new node before
    the first entry that is not earlier, or at the end. *)
Fixpoint insert_in_order (h : gmap loc alarm_t) (alarm : loc)
    (ls : list loc) : list loc :=
  match ls with
  | [] => [alarm]
  | n :: ls' =>
    match h !! n, h !! alarm with
    | Some nx, Some al =>
      if time al <=? time nx then alarm :: n :: ls'
      else n :: insert_in_order h alarm ls'
    | _, _ => n :: ls'
    end
  end.

(** The request of "5 Message(1, 100) hello" allocated and filled in, the
    queue empty and the alarm thread idle. *)
Definition hello_allocated : state :=
  mk_state (<[5%positive := hello_request]> ∅) NULL 0 [Prompt].

(** A string without the character NUL. *)
Fixpoint no_NUL (p : string) : bool :=
  match p with
  | EmptyString => true
  | String c p' => negb (Ascii.eqb c NUL) && no_NUL p'
  end.

(** ** Lines of the grammar *)

(** A string of decimal digits, a numeral (at least one digit), and the
    number a numeral writes. *)
Fixpoint all_digits (d : string) : bool :=
  match d with
  | EmptyString => true
  | String c d' => isdigit c && all_digits d'
  end.

Definition numeral (d : string) : bool :=
  match d with
  | EmptyString => false
  | _ => all_digits d
  end.

Fixpoint decimal (acc : Z) (d : string) : Z :=
  match d with
  | EmptyString => acc
  | String c d' => decimal (10 * acc + digit_value c) d'
  end.

Definition INT_MAX : Z := 2147483647.

(** A string without newline and without NUL: part of one line. *)
Fixpoint plain (s : string) : bool :=
  match s with
  | EmptyString => true
  | String c s' =>
    negb (Ascii.eqb c NUL) && negb (Ascii.eqb c nl) && plain s'
  end.

(** A message text: part of one line, not empty, not starting with white
    space. *)
Definition text (msg : string) : bool :=
  match msg with
  | EmptyString => false
  | String c _ => negb (isspace c) && plain msg
  end.

(** "<d1> Message(<d2>, <d3>) <msg>" *)
Definition schedule_line (d1 d2 d3 msg : string) : string :=
  (d1 ++ " Message(" ++ d2 ++ ", " ++ d3 ++ ") " ++ msg)%string.

(** The request [case 'A'] builds from such a line in the block [malloc]
    returned. *)
Definition schedule_request (e : env) (d1 d2 d3 msg : string) : alarm_t :=
  mk_alarm (link (malloc_contents e)) "A" (decimal 0 d1) (decimal 0 d2)
           (decimal 0 d3) (time_expiry e + decimal 0 d1) msg.

(** The text each of the cases 'B' to 'E' expects before the number. *)
Definition control_texts : list (control * string) :=
  [(control_B, "Create_Thread: MessageType(");
   (control_C, "Cancel: Message(");
   (control_D, "Pause_Thread: MessageType(");
   (control_E, "Resume_Thread: MessageType(")]%string.

(** [one_schedule] after the line "5 Message(1, 100) hello" at time 100. *)
Definition hello_behind : state :=
  mk_state
    (<[5%positive := hello_request]>
       (<[1%positive := mk_alarm (Some 5%positive) "A" 50 2 7 50 "go"]> ∅))
    (Some 1%positive) 105 [Prompt; Cond_signal].

(** The request a case 'B' to 'E' submits when its format scans no number:
    the block as [malloc] returned it, typed, with [time] the reading of
    the clock plus the [seconds] the block held, and at the end of the
    list. *)
Definition control_request (e : env) (k : control) : alarm_t :=
  let c := malloc_contents e in
  mk_alarm NULL (kind k) (seconds c) (messageType c) (messageNumber c)
           (time_expiry e + seconds c) (message c).

(** The state such a request leaves when the queue was empty. *)
Definition queued_alone (e : env) (k : control) (a : loc) (st : state)
  : state :=
  let r := control_request e k in
  let st1 := mk_state (<[a := r]> (heap st)) (Some a) (current_alarm st)
                      (out st ++ [Prompt]) in
  let st2 := if wake_needed r st
             then emit Cond_signal (with_current_alarm (time r) st1)
             else st1 in
  match report k with
  | Some line_for => emit (line_for r (time_report e)) st2
  | None => st2
  end.

(** A turn in which [malloc] returns NULL. *)
Definition out_of_memory : env :=
  mk_env NULL hello_request 100 100 100 0 0 0.

(** ** seperateBySpace (the draft)

    The draft's [main] calls [seperateBySpace(line)] on every line it
    reads.  The function prints, at each space of the line, the number
    that the digits since the space before it write.  Its argument is the
    buffer; the line is what precedes the first NUL. *)

Definition INT_MIN : Z := -2147483648.

Definition in_int (z : Z) : bool := (INT_MIN <=? z) && (z <=? INT_MAX).

(** [res = (res * 10) + (int)string[j] - (int)'0'] in [int] arithmetic:
    the product, the sum and the difference in turn.  [None] when one of
    them does not fit an [int], which C leaves undefined. *)
Definition add_digit (res : Z) (c : ascii) : option Z :=
  let product := res * 10 in
  if in_int product then
    let sum := product + Z.of_nat (nat_of_ascii c) in
    if in_int sum then
      let difference := sum - Z.of_nat (nat_of_ascii "0") in
      if in_int difference then Some difference else None
    else None
  else None.

(** [for (int j = lastWhiteSpaceIndex; j < i; j++)
       if (isdigit(string[j])) res = ...;]
    with [count] the number of turns left, [i - j]. *)
Fixpoint digits_loop (count j : nat) (string : string) (res : Z)
  : option Z :=
  match count with
  | O => Some res
  | S count' =>
    let c := char_at string j in
    if isdigit c then
      res' ← add_digit res c;
      digits_loop count' (S j) string res'
    else digits_loop count' (S j) string res
  end.

(** [for (int i = 0; i < strlen(string); i++)
       if (string[i] == ' ') { int res = 0; ...; printf("int is %d\n", res);
                               lastWhiteSpaceIndex = i; }]
    with [count] the number of turns left, [strlen(string) - i].  It
    returns the numbers printed. *)
Fixpoint space_loop (count i lastWhiteSpaceIndex : nat) (string : string)
    (printed : list Z) : option (list Z) :=
  match count with
  | O => Some printed
  | S count' =>
    if Ascii.eqb (char_at string i) " " then
      res ← digits_loop (i - lastWhiteSpaceIndex) lastWhiteSpaceIndex
                        string 0;
      space_loop count' (S i) i string (printed ++ [res])
    else space_loop count' (S i) lastWhiteSpaceIndex string printed
  end.

(** [strlen(string)]: the number of characters before the first NUL. *)
Definition strlen (string : string) : nat := String.length (c_str string).

Definition seperateBySpace (string : string) : option (list Z) :=
  space_loop (strlen string) 0 0 string [].

(** The number the digits of a field write, the other characters
    skipped. *)
Fixpoint field_value (res : Z) (field : string) : option Z :=
  match field with
  | EmptyString => Some res
  | String c field' =>
    if isdigit c then res' ← add_digit res c; field_value res' field'
    else field_value res field'
  end.

(** The fields of a line that a space ends, [cur] being the part of the
    current field already passed.  What follows the last space is no such
    field. *)
Fixpoint ended_fields (cur : string) (s : string) : list string :=
  match s with
  | EmptyString => []
  | String c s' =>
    if Ascii.eqb c " " then cur :: ended_fields EmptyString s'
    else ended_fields (cur ++ String c EmptyString) s'
  end.

(** A string without a newline. *)
Fixpoint no_newline (s : string) : bool :=
  match s with
  | EmptyString => true
  | String c s' => negb (Ascii.eqb c nl) && no_newline s'
  end.

(** A string without a space. *)
Fixpoint no_space (s : string) : bool :=
  match s with
  | EmptyString => true
  | String c s' => negb (Ascii.eqb c " ") && no_space s'
  end.

(** ** Facts about the list representation *)

Implicit Types (h : gmap loc alarm_t) (ls : list loc).

Lemma is_list_frame h h' p ls :
  (∀ q, q ∈ ls → h' !! q = h !! q) → is_list h p ls → is_list h' p ls.
Proof.
  revert p. induction ls as [|a ls IH]; intros p Hfr; simpl; [done|].
  intros [-> (n & Hn & Hl)]. split; [done|]. exists n. split.
  - rewrite Hfr; [done|]. apply elem_of_cons; by left.
  - apply IH; [|done]. intros q Hq. apply Hfr, elem_of_cons. by right.
Qed.

Lemma is_list_inj h p l1 l2 : is_list h p l1 → is_list h p l2 → l1 = l2.
Proof.
  revert p l2. induction l1 as [|a l1 IH]; intros p [|b l2]; simpl.
  - done.
  - intros -> [? _]. done.
  - intros [-> _] ?. done.
  - intros [-> (n & Hn & H1)] [[= <-] (m & Hm & H2)].
    rewrite Hn in Hm. injection Hm as <-. f_equal. eauto.
Qed.

Lemma is_list_suffix h p l1 l2 :
  is_list h p (l1 ++ l2) → ∃ q, is_list h q l2.
Proof.
  revert p. induction l1 as [|a l1 IH]; intros p; simpl.
  - eauto.
  - intros [_ (n & _ & H)]. eauto.
Qed.

Lemma is_list_NoDup h p ls : is_list h p ls → NoDup ls.
Proof.
  revert p. induction ls as [|a ls IH]; intros p; simpl.
  - intros _. constructor.
  - intros [-> (n & Hn & Hl)]. apply NoDup_cons. split; [|eauto].
    intros Hin. apply list_elem_of_split in Hin as (l1 & l2 & ->).
    destruct (is_list_suffix _ _ _ _ Hl) as [q Hq].
    simpl in Hq. destruct Hq as [-> (m & Hm & Hq)].
    rewrite Hn in Hm. injection Hm as <-.
    pose proof (is_list_inj _ _ _ _ Hl Hq) as Heq.
    apply (f_equal length) in Heq. rewrite length_app in Heq.
    simpl in Heq. lia.
Qed.

Lemma is_list_allocated h p ls a :
  is_list h p ls → a ∈ ls → is_Some (h !! a).
Proof.
  revert p. induction ls as [|b ls IH]; intros p; simpl.
  - intros _ Hin. by apply elem_of_nil in Hin.
  - intros [-> (n & Hn & Hl)] [->|Hin]%elem_of_cons; eauto.
Qed.

Lemma walk_is_list fuel h p ls : walk fuel h p = Some ls → is_list h p ls.
Proof.
  revert p ls. induction fuel as [|fuel IH]; intros [a|] ls; simpl;
    try discriminate; try (by intros [= <-]).
  destruct (h !! a) as [n|] eqn:Hn; [|discriminate].
  destruct (walk fuel h (link n)) as [ls'|] eqn:Hw; [|discriminate].
  intros [= <-]. simpl. eauto.
Qed.

Lemma is_list_walk h p ls : is_list h p ls → walk (length ls) h p = Some ls.
Proof.
  revert p. induction ls as [|a ls IH]; intros p; simpl.
  - by intros ->.
  - intros [-> (n & Hn & Hl)]. rewrite Hn, (IH _ Hl). done.
Qed.


(** ** alarm_insert on the list it is given *)

Lemma same_data_refl h : same_data h h.
Proof. by intros q. Qed.

Lemma same_data_trans h1 h2 h3 :
  same_data h1 h2 → same_data h2 h3 → same_data h1 h3.
Proof. intros H12 H23 q. by rewrite H23, H12. Qed.

Lemma same_data_set_link (h : gmap loc alarm_t) a n l :
  h !! a = Some n → same_data h (<[a := set_link l n]> h).
Proof.
  intros Hn q. destruct (decide (a = q)) as [<-|Hne].
  - rewrite lookup_insert_eq, Hn. done.
  - by rewrite lookup_insert_ne.
Qed.

Lemma load_Some p a st : heap st !! p = Some a → load p st = Ok a.
Proof. unfold load. by intros ->. Qed.

Lemma store_Some p f a st :
  heap st !! p = Some a →
  store p f st = Ok (with_heap (<[p := f a]> (heap st)) st).
Proof. unfold store. by intros ->. Qed.

Lemma read_last_Link p a st :
  heap st !! p = Some a → read_last (Link p) st = Ok (link a).
Proof. intros H. simpl. by rewrite (load_Some _ _ _ H). Qed.

Lemma read_last_inv last st next :
  read_last last st = Ok next →
  match last with
  | Head => alarm_list st = next
  | Link p => ∃ a, heap st !! p = Some a ∧ link a = next
  end.
Proof.
  destruct last as [|p]; simpl.
  - by intros [= ->].
  - unfold load. destruct (heap st !! p) as [a|]; simpl; [|done].
    intros [= <-]. eauto.
Qed.

Lemma read_last_frame last st st' :
  alarm_list st' = alarm_list st →
  (∀ p, last = Link p → heap st' !! p = heap st !! p) →
  read_last last st' = read_last last st.
Proof.
  intros Hl Hh. destruct last as [|p]; simpl.
  - by rewrite Hl.
  - unfold load. by rewrite (Hh p eq_refl).
Qed.

(** Reduce the state projections and the monad, leaving the heap alone. *)
Ltac st_simpl :=
  cbn [heap alarm_list current_alarm out with_heap with_alarm_list
       with_current_alarm emit mbind outcome_bind write_last read_last
       insert_at_end link type seconds messageType messageNumber time
       message set_link fst snd] in *.

Section InsertFromCursor.
Variables (now : Z) (alarm : loc) (al : alarm_t) (st : state).
Hypothesis Hal : heap st !! alarm = Some al.

(** The loop from any cursor [last] holding [next], [next] heading the
    well-formed list [ls]: the cell [last] ends up heading
    [insert_list ... ls], and nothing but [alarm], the cell and the links
    of [ls] is touched. *)
Lemma link_in_spec :
  ∀ ls fuel last next,
    is_list (heap st) next ls → NoDup ls → alarm ∉ ls →
    read_last last st = Ok next →
    off_cursor last alarm → (∀ q, q ∈ ls → off_cursor last q) →
    (length ls ≤ fuel)%nat →
    ∃ st' p',
      link_in fuel now alarm last next st = Ok st' ∧
      read_last last st' = Ok p' ∧
      is_list (heap st') p' (insert_list (heap st) alarm ls) ∧
      (∀ q, q ≠ alarm → off_cursor last q → q ∉ ls →
            heap st' !! q = heap st !! q) ∧
      (last ≠ Head → alarm_list st' = alarm_list st) ∧
      same_data (heap st) (heap st') ∧
      current_alarm st' = current_alarm st ∧
      out st' = out st ++ insert_print (heap st) now alarm ls.
Proof.
  intros ls. induction ls as [|n ls IH];
    intros fuel last next Hls Hnd Hfresh Hlast Hoff Hoffs Hfuel.
  - (* the end of the list: [*last = alarm; alarm->link = NULL] *)
    simpl in Hls. subst next.
    assert (Hscan : insert_scan fuel now alarm last None st = Ok (last, None, st))
      by (by destruct fuel).
    unfold link_in. rewrite Hscan. simpl.
    apply read_last_inv in Hlast. destruct last as [|p].
    + simpl. erewrite store_Some by (simpl; exact Hal). simpl.
      eexists _, _. split; [reflexivity|]. simpl.
      rewrite lookup_insert_eq. rewrite app_nil_r.
      repeat split; eauto using same_data_set_link.
      * intros q Hq _ _. by rewrite lookup_insert_ne.
      * done.
    + destruct Hlast as (pn & Hpn & Hlk).
      assert (p ≠ alarm) as Hpa by (intros ->; by apply Hoff).
      simpl. rewrite (store_Some _ _ _ _ Hpn). simpl.
      erewrite store_Some by (simpl; rewrite lookup_insert_ne by done; exact Hal).
      simpl. eexists _, _. split; [reflexivity|]. simpl.
      unfold load; simpl. rewrite lookup_insert_ne by done.
      rewrite lookup_insert_eq. simpl.
      split; [reflexivity|]. rewrite lookup_insert_eq, app_nil_r.
      repeat split; eauto.
      * intros q Hq Hoq _. rewrite !lookup_insert_ne; [done| |done].
        intros ->. by apply Hoq.
      * eapply same_data_trans; [by apply same_data_set_link|].
        apply same_data_set_link. by rewrite lookup_insert_ne.
  - simpl in Hls. destruct Hls as [-> (nx & Hnx & Hls)].
    apply NoDup_cons in Hnd as [Hn_ls Hnd].
    apply not_elem_of_cons in Hfresh as [Han Hfresh].
    destruct fuel as [|fuel]; [simpl in Hfuel; lia|].
    simpl in Hfuel. apply le_S_n in Hfuel.
    assert (Hkeep : is_list (heap st) (Some n) (n :: ls)) by (simpl; eauto).
    unfold link_in. simpl insert_scan.
    rewrite (load_Some _ _ _ Hnx), (load_Some _ _ _ Hal). simpl.
    rewrite Hnx, Hal.
    destruct (is_A (type nx) && (messageNumber nx =? messageNumber al)).
    + (* a type 'A' entry with this number: [alarm->link = next; next = alarm] *)
      erewrite store_Some by (st_simpl; exact Hal). st_simpl.
      eexists _, _. split; [reflexivity|]. st_simpl. split.
      { erewrite read_last_frame; [exact Hlast|done|].
        st_simpl. intros p ->. rewrite lookup_insert_ne; [done|].
        intros ->. by apply Hoff. }
      split.
      { apply (is_list_frame (heap st) _ (Some n) (n :: ls)); [|exact Hkeep].
        st_simpl. intros q Hq.
        rewrite lookup_insert_ne; [done|]. intros ->.
        apply elem_of_cons in Hq as [?|?]; done. }
      repeat split; eauto using same_data_set_link.
      intros q Hq _ _. by rewrite lookup_insert_ne.
    + destruct (time al <=? time nx).
      * (* not earlier: [alarm->link = next; *last = alarm] *)
        erewrite store_Some by (st_simpl; exact Hal). st_simpl.
        apply read_last_inv in Hlast. destruct last as [|p]; st_simpl.
        -- unfold load; st_simpl. rewrite lookup_insert_eq. st_simpl.
           eexists _, _. split; [reflexivity|]. st_simpl.
           split; [reflexivity|]. split.
           { split; [done|]. eexists. rewrite lookup_insert_eq.
             split; [reflexivity|]. st_simpl.
             apply (is_list_frame (heap st) _ (Some n) (n :: ls));
               [|exact Hkeep].
             intros q Hq.
             rewrite lookup_insert_ne; [done|]. intros ->.
             apply elem_of_cons in Hq as [?|?]; done. }
           repeat split; eauto using same_data_set_link.
           ++ intros q Hq _ _. by rewrite lookup_insert_ne.
           ++ done.
        -- destruct Hlast as (pn & Hpn & Hlk).
           assert (p ≠ alarm) as Hpa by (intros ->; by apply Hoff).
           assert (p ∉ n :: ls) as Hpl
             by (intros Hin; by apply (Hoffs _ Hin)).
           erewrite store_Some
             by (st_simpl; rewrite lookup_insert_ne by done; exact Hpn).
           st_simpl. unfold load; st_simpl.
           rewrite lookup_insert_ne by done. rewrite lookup_insert_eq. st_simpl.
           eexists _, _. split; [reflexivity|]. st_simpl.
           rewrite lookup_insert_eq. st_simpl.
           split; [reflexivity|]. split.
           { split; [done|]. eexists.
             rewrite lookup_insert_ne by done. rewrite lookup_insert_eq.
             split; [reflexivity|]. st_simpl.
             apply (is_list_frame (heap st) _ (Some n) (n :: ls));
               [|exact Hkeep].
             intros q Hq.
             rewrite !lookup_insert_ne; [done| |].
             - intros ->. apply elem_of_cons in Hq as [?|?]; done.
             - intros ->. done. }
           repeat split; eauto.
           ++ intros q Hq Hoq _. rewrite !lookup_insert_ne; [done|done|].
              intros ->. by apply Hoq.
           ++ eapply same_data_trans;
                [exact (same_data_set_link _ _ _ (Some n) Hal)|].
              apply same_data_set_link. by rewrite lookup_insert_ne.
      * (* earlier entry: [last = &next->link; next = next->link] *)
        destruct (IH fuel (Link n) (link nx)) as
          (st' & p' & Hrun & Hread & Hlist & Hframe & Hhead & Hdata & Hcur & Hout);
          try done.
        { by apply read_last_Link. }
        { intros [= ->]. done. }
        { intros q Hq [= ->]. done. }
        exists st', (Some n). unfold link_in in Hrun. split; [exact Hrun|].
        split.
        { rewrite <- Hlast. apply read_last_frame; [by apply Hhead|].
          intros p ->. apply Hframe.
          - intros ->. by apply Hoff.
          - intros [= ->]. apply (Hoffs p); [|done]. apply elem_of_cons; by left.
          - intros Hin. apply (Hoffs p); [|done]. apply elem_of_cons; by right. }
        split.
        { apply read_last_inv in Hread as (a & Ha & Hlk).
          st_simpl. split; [done|]. exists a. by rewrite Hlk. }
        repeat split; eauto.
        intros q Hq Hoq [Hqn Hql]%not_elem_of_cons. apply Hframe; try done.
        intros [= ->]. done.
Qed.

End InsertFromCursor.

Lemma same_data_lookup h h' q a :
  same_data h h' → h !! q = Some a →
  ∃ a', h' !! q = Some a' ∧ type a' = type a ∧ seconds a' = seconds a ∧
        messageType a' = messageType a ∧
        messageNumber a' = messageNumber a ∧ time a' = time a ∧
        message a' = message a.
Proof.
  intros Hd Ha. specialize (Hd q). rewrite Ha in Hd.
  destruct (h' !! q) as [a'|]; [|done]. exists a'.
  injection Hd as ? ? ? ? ? ?. done.
Qed.

(** [alarm_insert] on a well-formed list and a node outside it: enough
    fuel gives a result, and the list it leaves is [insert_list]. *)
Lemma alarm_insert_spec fuel now alarm al st ls :
  is_list (heap st) (alarm_list st) ls →
  heap st !! alarm = Some al →
  alarm ∉ ls →
  (length ls ≤ fuel)%nat →
  ∃ st1,
    link_in fuel now alarm Head (alarm_list st) st = Ok st1 ∧
    alarm_insert fuel now 0 alarm st =
      Ok (if wake_needed al st
          then emit Cond_signal (with_current_alarm (time al) st1)
          else st1) ∧
    is_list (heap st1) (alarm_list st1) (insert_list (heap st) alarm ls) ∧
    (∀ q, q ≠ alarm → q ∉ ls → heap st1 !! q = heap st !! q) ∧
    same_data (heap st) (heap st1) ∧
    current_alarm st1 = current_alarm st ∧
    out st1 = out st ++ insert_print (heap st) now alarm ls.
Proof.
  intros Hls Hal Hfresh Hfuel.
  destruct (link_in_spec now alarm al st Hal ls fuel Head (alarm_list st))
    as (st1 & p' & Hrun & Hread & Hlist & Hframe & _ & Hdata & Hcur & Hout);
    try done.
  { eauto using is_list_NoDup. }
  exists st1. injection Hread as <-.
  repeat split; try done.
  - unfold alarm_insert. rewrite Hrun. st_simpl. unfold wake.
    destruct (same_data_lookup _ _ _ _ Hdata Hal)
      as (al1 & Hal1 & _ & _ & _ & _ & Hd & _).
    rewrite (load_Some _ _ _ Hal1). st_simpl.
    unfold wake_needed. rewrite Hcur, Hd. 
    destruct ((current_alarm st =? 0) || (time al <? current_alarm st)); done.
  - intros q Hq Hql. by apply Hframe.
Qed.

(** ** What [alarm_insert] can change, on any heap *)

Lemma bind_Ok_inv {A B} (m : outcome A) (k : A → outcome B) b :
  m ≫= k = Ok b → ∃ a, m = Ok a ∧ k a = Ok b.
Proof. destruct m; try discriminate. simpl. eauto. Qed.

Lemma load_inv p st a : load p st = Ok a → heap st !! p = Some a.
Proof. unfold load. destruct (heap st !! p); [|done]. by intros [= ->]. Qed.

Lemma store_inv p f st st' :
  store p f st = Ok st' →
  ∃ a, heap st !! p = Some a ∧ st' = with_heap (<[p := f a]> (heap st)) st.
Proof.
  unfold store. destruct (heap st !! p) as [a|]; [|done].
  intros [= <-]. eauto.
Qed.

Lemma store_link_rest p l st st' :
  store p (set_link l) st = Ok st' → same_rest st st' ∧ out st' = out st.
Proof.
  intros (a & Ha & ->)%store_inv. repeat split; st_simpl; try done.
  by apply same_data_set_link.
Qed.

Lemma write_last_rest last v st st' :
  write_last last v st = Ok st' → same_rest st st' ∧ out st' = out st.
Proof.
  destruct last as [|p]; simpl.
  - intros [= <-]. repeat split; st_simpl; done.
  - apply store_link_rest.
Qed.

Lemma same_rest_trans st1 st2 st3 :
  same_rest st1 st2 → same_rest st2 st3 → same_rest st1 st3.
Proof.
  intros [H1 H1'] [H2 H2']. split; [by eapply same_data_trans|congruence].
Qed.

Lemma insert_scan_effects fuel now alarm :
  ∀ last next st last' next' st1,
    insert_scan fuel now alarm last next st = Ok (last', next', st1) →
    same_rest st st1 ∧
    ∃ evs, out st1 = out st ++ evs ∧ forallb is_insert_print evs = true.
Proof.
  induction fuel as [|fuel IH]; intros last [n|] st last' next' st1; simpl;
    try discriminate.
  1,3: intros [= <- <- <-]; (split; [split; [apply same_data_refl|done]|]);
       exists []; by rewrite app_nil_r.
  intros (nx & Hnx & H)%bind_Ok_inv. apply bind_Ok_inv in H as (al & Hal & H).
  destruct (is_A (type nx) && (messageNumber nx =? messageNumber al)).
  - apply bind_Ok_inv in H as (st2 & Hst & [= <- <- <-]).
    apply store_link_rest in Hst as [Hr Ho]. split; [exact Hr|].
    eexists. split; [exact Ho|done].
  - destruct (time al <=? time nx); [|by eapply IH].
    apply bind_Ok_inv in H as (s1 & Hs1 & H).
    apply bind_Ok_inv in H as (s2 & Hs2 & H).
    apply bind_Ok_inv in H as (al' & _ & [= <- <- <-]).
    apply store_link_rest in Hs1 as [Hr1 Ho1].
    apply write_last_rest in Hs2 as [Hr2 Ho2].
    split; [by eapply same_rest_trans|].
    eexists. st_simpl. rewrite Ho2, Ho1. done.
Qed.

Lemma link_in_effects fuel now alarm last next st st1 :
  link_in fuel now alarm last next st = Ok st1 →
  same_rest st st1 ∧
  ∃ evs, out st1 = out st ++ evs ∧ forallb is_insert_print evs = true.
Proof.
  unfold link_in. intros ([[last' next'] s1] & Hscan & H)%bind_Ok_inv.
  apply insert_scan_effects in Hscan as (Hr & evs & Ho & Hevs).
  destruct next' as [n|]; simpl in H.
  - injection H as <-. eauto.
  - apply bind_Ok_inv in H as (s2 & Hs2 & Hs3).
    apply write_last_rest in Hs2 as [Hr2 Ho2].
    apply store_link_rest in Hs3 as [Hr3 Ho3].
    split; [eauto using same_rest_trans|].
    exists evs. by rewrite Ho3, Ho2.
Qed.

Lemma signals_app evs1 evs2 :
  signals (evs1 ++ evs2) = (signals evs1 + signals evs2)%nat.
Proof.
  induction evs1 as [|e evs1 IH]; [done|]. destruct e; simpl; lia.
Qed.

Lemma insert_prints_no_signal evs :
  forallb is_insert_print evs = true → signals evs = 0%nat.
Proof.
  induction evs as [|e evs IH]; [done|]. destruct e; simpl; try done.
Qed.


(** ** Fuel *)

Lemma insert_scan_fuel_mono fuel fuel' now alarm :
  (fuel ≤ fuel')%nat →
  ∀ last next st r,
    insert_scan fuel now alarm last next st = Ok r →
    insert_scan fuel' now alarm last next st = Ok r.
Proof.
  revert fuel'. induction fuel as [|fuel IH]; intros fuel' Hle last [n|] st r;
    simpl; try discriminate.
  - destruct fuel'; done.
  - destruct fuel' as [|fuel']; [lia|]. simpl.
    destruct (load n st) as [nx| | | |]; try done. st_simpl.
    destruct (load alarm st) as [al| | | |]; try done. st_simpl.
    destruct (is_A (type nx) && (messageNumber nx =? messageNumber al)); [done|].
    destruct (time al <=? time nx); [done|].
    apply IH. lia.
  - destruct fuel'; done.
Qed.

Lemma link_in_fuel_mono fuel fuel' now alarm last next st st' :
  (fuel ≤ fuel')%nat →
  link_in fuel now alarm last next st = Ok st' →
  link_in fuel' now alarm last next st = Ok st'.
Proof.
  intros Hle. unfold link_in. intros (r & Hscan & H)%bind_Ok_inv.
  by rewrite (insert_scan_fuel_mono _ _ _ _ Hle _ _ _ _ Hscan).
Qed.

(** ** The shape of a call that returns *)

Lemma alarm_insert_inv fuel now sig alarm st st' :
  alarm_insert fuel now sig alarm st = Ok st' →
  ∃ st1 al1,
    link_in fuel now alarm Head (alarm_list st) st = Ok st1 ∧
    heap st1 !! alarm = Some al1 ∧
    st' = (if wake_needed al1 st1
           then emit Cond_signal (with_current_alarm (time al1) st1)
           else st1) ∧
    (wake_needed al1 st1 = true → sig = 0).
Proof.
  unfold alarm_insert. intros (st1 & Hrun & H)%bind_Ok_inv.
  unfold wake in H. apply bind_Ok_inv in H as (al1 & Hal1%load_inv & H).
  exists st1, al1. repeat split; try done.
  - destruct (wake_needed al1 st1); [|congruence].
    destruct (sig =? 0); congruence.
  - intros Hw. rewrite Hw in H. destruct (sig =? 0) eqn:E; [lia|done].
Qed.

Lemma same_data_lookup_rev h h' q a' :
  same_data h h' → h' !! q = Some a' → ∃ a, h !! q = Some a ∧ time a = time a'.
Proof.
  intros Hd Ha. specialize (Hd q). rewrite Ha in Hd.
  destruct (h !! q) as [a|]; [|done]. exists a.
  injection Hd as ? ? ? ? ? ?. done.
Qed.

(** A call that returns on a well-formed list leaves [insert_list]. *)
Lemma alarm_insert_list fuel now sig alarm st st' ls :
  is_list (heap st) (alarm_list st) ls →
  alarm ∉ ls →
  alarm_insert fuel now sig alarm st = Ok st' →
  is_list (heap st') (alarm_list st') (insert_list (heap st) alarm ls) ∧
  same_data (heap st) (heap st') ∧
  (∀ q, q ≠ alarm → q ∉ ls → heap st' !! q = heap st !! q).
Proof.
  intros Hls Hfresh (st1 & al1 & Hrun & Hal1 & -> & _)%alarm_insert_inv.
  pose proof (link_in_effects _ _ _ _ _ _ _ Hrun) as [[Hdata _] _].
  destruct (same_data_lookup_rev _ _ _ _ Hdata Hal1) as (al & Hal & _).
  destruct (alarm_insert_spec (Nat.max fuel (length ls)) now alarm al st ls)
    as (st1' & Hrun' & _ & Hlist & Hframe & Hdata' & _); try done; [lia|].
  rewrite (link_in_fuel_mono fuel _ _ _ _ _ _ st1) in Hrun'; [|lia|done].
  injection Hrun' as <-.
  destruct (wake_needed al1 st1); st_simpl; done.
Qed.

(** ** The sequence [insert_list] *)

Lemma insert_list_elem h alarm ls q :
  q ∈ insert_list h alarm ls → q = alarm ∨ q ∈ ls.
Proof.
  induction ls as [|n ls IH]; simpl.
  - intros ->%list_elem_of_singleton. by left.
  - destruct (h !! n) as [nx|]; [|by right].
    destruct (h !! alarm) as [al|]; [|by right].
    destruct (is_A (type nx) && (messageNumber nx =? messageNumber al));
      [by right|].
    destruct (time al <=? time nx).
    + intros [->|Hq]%elem_of_cons; [by left|by right].
    + intros [->|Hq]%elem_of_cons.
      * right. apply elem_of_cons. by left.
      * destruct (IH Hq) as [->|?]; [by left|].
        right. apply elem_of_cons. by right.
Qed.

Lemma insert_list_sublist h alarm ls : ls `sublist_of` insert_list h alarm ls.
Proof.
  induction ls as [|n ls IH]; simpl.
  - apply sublist_nil_l.
  - destruct (h !! n) as [nx|]; [|done].
    destruct (h !! alarm) as [al|]; [|done].
    destruct (is_A (type nx) && (messageNumber nx =? messageNumber al)); [done|].
    destruct (time al <=? time nx).
    + by apply sublist_cons.
    + by apply sublist_skip.
Qed.

Lemma time_of_lookup h a n : h !! a = Some n → time_of h a = time n.
Proof. unfold time_of. by intros ->. Qed.

Lemma insert_list_sorted h alarm al ls :
  h !! alarm = Some al →
  (∀ q, q ∈ ls → is_Some (h !! q)) →
  StronglySorted Z.le (times h ls) →
  StronglySorted Z.le (times h (insert_list h alarm ls)).
Proof.
  intros Hal. induction ls as [|n ls IH]; intros Hall Hs; simpl.
  - repeat constructor.
  - destruct (Hall n) as [nx Hnx]; [apply elem_of_cons; by left|].
    rewrite Hnx, Hal.
    destruct (is_A (type nx) && (messageNumber nx =? messageNumber al)); [done|].
    unfold times in *. simpl in Hs. apply StronglySorted_inv in Hs as [Hs Hn].
    destruct (time al <=? time nx) eqn:Hcmp.
    + apply Z.leb_le in Hcmp. simpl. constructor.
      * constructor; done.
      * rewrite (time_of_lookup _ _ _ Hal). constructor.
        -- by rewrite (time_of_lookup _ _ _ Hnx).
        -- eapply Forall_impl; [exact Hn|]. simpl. intros t Ht.
           rewrite (time_of_lookup _ _ _ Hnx) in Ht. lia.
    + apply Z.leb_gt in Hcmp. simpl. constructor.
      * apply IH; [|done]. intros q Hq. apply Hall, elem_of_cons. by right.
      * apply Forall_fmap, Forall_forall. intros q Hq. simpl.
        destruct (insert_list_elem _ _ _ _ Hq) as [->|Hq'].
        -- rewrite (time_of_lookup _ _ _ Hal), (time_of_lookup _ _ _ Hnx). lia.
        -- rewrite Forall_fmap, Forall_forall in Hn. by apply Hn.
Qed.

Lemma times_same_data h h' ls : same_data h h' → times h' ls = times h ls.
Proof.
  intros Hd. unfold times. apply list_fmap_ext. intros _ q _.
  unfold time_of. specialize (Hd q).
  destruct (h' !! q) as [a'|], (h !! q) as [a|]; simpl in *; try done.
  injection Hd as ? ? ? ? ? ?. done.
Qed.

Lemma times_frame h h' ls :
  (∀ q, q ∈ ls → h' !! q = h !! q) → times h' ls = times h ls.
Proof.
  intros Hf. unfold times. apply list_fmap_ext. intros i q Hq.
  unfold time_of. rewrite Hf; [done|]. by eapply list_elem_of_lookup_2.
Qed.

(** ** The list invariant *)

Lemma alarm_insert_inv_sorted fuel now sig alarm st st' ls :
  list_inv st ls → alarm ∉ ls →
  alarm_insert fuel now sig alarm st = Ok st' →
  list_inv st' (insert_list (heap st) alarm ls).
Proof.
  intros [Hls Hs] Hfresh Hrun.
  pose proof Hrun as (st1 & al1 & Hlink & Hal1 & _)%alarm_insert_inv.
  pose proof (link_in_effects _ _ _ _ _ _ _ Hlink) as [[Hd1 _] _].
  destruct (same_data_lookup_rev _ _ _ _ Hd1 Hal1) as (al & Hal & _).
  destruct (alarm_insert_list _ _ _ _ _ _ _ Hls Hfresh Hrun) as (Hl & Hd & _).
  split; [done|]. rewrite (times_same_data _ _ _ Hd).
  eapply insert_list_sorted; eauto using is_list_allocated.
Qed.

Lemma reachable_list_inv st : reachable st → ∃ ls, list_inv st ls.
Proof.
  induction 1 as [|st a n fuel now sig st' _ [ls [Hls Hs]] Hnew Hrun
                  |st a n _ [ls [Hls Hs]] Hhd Hn
                  |st a fuel now sig st' _ [ls [Hls Hs]] Hoff Hrun
                  |st a _ [ls [Hls Hs]] Hoff
                  |st t _ [ls Hinv]
                  |st e _ [ls Hinv]].
  - exists []. split; [done|constructor].
  - assert (a ∉ ls) as Hfresh.
    { intros Hin. destruct (is_list_allocated _ _ _ _ Hls Hin) as [? ?].
      congruence. }
    assert (list_inv (with_heap (<[a:=n]> (heap st)) st) ls) as Hinv.
    { split; st_simpl.
      - eapply is_list_frame; [|exact Hls]. intros q Hq.
        rewrite lookup_insert_ne; [done|]. by intros ->.
      - rewrite (times_frame (heap st)); [done|]. intros q Hq.
        rewrite lookup_insert_ne; [done|]. by intros ->. }
    eexists. exact (alarm_insert_inv_sorted _ _ _ _ _ _ _ Hinv Hfresh Hrun).
  - destruct ls as [|b ls]; simpl in Hls; [congruence|].
    destruct Hls as [Hb (m & Hm & Hls)]. rewrite Hhd in Hb.
    injection Hb as <-. rewrite Hn in Hm. injection Hm as <-.
    exists ls. split; st_simpl; [done|].
    unfold times in Hs. simpl in Hs. by apply StronglySorted_inv in Hs as [Hs _].
  - eexists.
    exact (alarm_insert_inv_sorted _ _ _ _ _ _ _ (conj Hls Hs) (Hoff _ Hls) Hrun).
  - specialize (Hoff _ Hls). exists ls. split; st_simpl.
    + eapply is_list_frame; [|exact Hls]. intros q Hq.
      rewrite lookup_delete_ne; [done|]. by intros ->.
    + rewrite (times_frame (heap st)); [done|]. intros q Hq.
      rewrite lookup_delete_ne; [done|]. by intros ->.
  - by exists ls.
  - by exists ls.
Qed.

(** ** The sort invariant *)

(** C2: in every state reached from the empty list by calls to
    [alarm_insert] (on newly allocated requests or on requests the alarm
    thread took off the list), interleaved with the alarm thread's removals
    of the head, the list is non-decreasing in [time], and its head is an
    entry with the earliest [time].  The list is sorted after a
    same-number call too, which leaves the list as it was. *)
Theorem reachable_sorted st :
  reachable st →
  ∃ ls, is_list (heap st) (alarm_list st) ls ∧
        Sorted Z.le (times (heap st) ls) ∧
        (∀ a q, head ls = Some a → q ∈ ls →
                time_of (heap st) a ≤ time_of (heap st) q).
Proof.
  intros (ls & Hls & Hs)%reachable_list_inv. exists ls.
  split; [done|]. split; [by apply StronglySorted_Sorted|].
  intros a q Hhd Hq. destruct ls as [|b ls]; simplify_eq/=.
  apply elem_of_cons in Hq as [->|Hq]; [lia|].
  unfold times in Hs. simpl in Hs. apply StronglySorted_inv in Hs as [_ Hall].
  rewrite Forall_fmap, Forall_forall in Hall. by apply Hall.
Qed.

Lemma reachable_sorted_witness :
  ∃ ls, is_list (heap two_inserted) (alarm_list two_inserted) ls ∧
        Sorted Z.le (times (heap two_inserted) ls) ∧
        (∀ a q, head ls = Some a → q ∈ ls →
                time_of (heap two_inserted) a ≤ time_of (heap two_inserted) q).
Proof.
  apply (reachable_sorted two_inserted).
  apply (reach_insert one_inserted 2%positive
           (mk_alarm NULL "A" 10 1 2 10 "second") 1 0 0);
    [|vm_compute; reflexivity|vm_compute; reflexivity].
  apply (reach_insert init_state 1%positive
           (mk_alarm NULL "A" 20 1 1 20 "first") 0 0 0);
    [|vm_compute; reflexivity|vm_compute; reflexivity].
  apply reach_init.
Defined.

(** ** The wake decision *)

(** C6: a call of [alarm_insert] that returns has set [current_alarm] to
    the request's [time] and signalled the condition once exactly when
    [current_alarm] was 0 or the request's [time] is strictly earlier than
    [current_alarm]; otherwise [current_alarm] is unchanged and no signal
    is sent.  At most one signal is sent per call. *)
Theorem alarm_insert_wake fuel now sig alarm al st st' :
  heap st !! alarm = Some al →
  alarm_insert fuel now sig alarm st = Ok st' →
  (current_alarm st = 0 ∨ time al < current_alarm st →
     current_alarm st' = time al ∧
     signals (out st') = S (signals (out st))) ∧
  (¬ (current_alarm st = 0 ∨ time al < current_alarm st) →
     current_alarm st' = current_alarm st ∧
     signals (out st') = signals (out st)) ∧
  (signals (out st') = S (signals (out st)) ↔
     current_alarm st = 0 ∨ time al < current_alarm st) ∧
  (signals (out st') ≤ S (signals (out st)))%nat.
Proof.
  intros Hal (st1 & al1 & Hlink & Hal1 & -> & _)%alarm_insert_inv.
  destruct (link_in_effects _ _ _ _ _ _ _ Hlink)
    as ([Hdata Hcur] & evs & Hout & Hevs).
  destruct (same_data_lookup _ _ _ _ Hdata Hal)
    as (al1' & Hal1' & _ & _ & _ & _ & Htime & _).
  rewrite Hal1 in Hal1'. injection Hal1' as <-.
  assert (signals (out st1) = signals (out st)) as Hsig.
  { rewrite Hout, signals_app, (insert_prints_no_signal _ Hevs). lia. }
  unfold wake_needed. rewrite Hcur, Htime.
  destruct ((current_alarm st =? 0) || (time al <? current_alarm st)) eqn:Hw.
  - apply orb_true_iff in Hw. rewrite Z.eqb_eq, Z.ltb_lt in Hw.
    st_simpl. rewrite signals_app, Hsig. simpl.
    repeat split; intros; try done; try lia.
  - apply orb_false_iff in Hw. rewrite Z.eqb_neq, Z.ltb_ge in Hw.
    rewrite Hcur, Hsig.
    repeat split; intros; try done; try lia.
Qed.

Lemma alarm_insert_wake_witness :
  alarm_insert 1 0 0 2%positive second_allocated = Ok two_inserted ∧
  (current_alarm second_allocated = 0 ∨ 10 < current_alarm second_allocated →
     current_alarm two_inserted = 10 ∧
     signals (out two_inserted) = S (signals (out second_allocated))) ∧
  (¬ (current_alarm second_allocated = 0 ∨ 10 < current_alarm second_allocated) →
     current_alarm two_inserted = current_alarm second_allocated ∧
     signals (out two_inserted) = signals (out second_allocated)) ∧
  (signals (out two_inserted) = S (signals (out second_allocated)) ↔
     current_alarm second_allocated = 0 ∨ 10 < current_alarm second_allocated) ∧
  (signals (out two_inserted) ≤ S (signals (out second_allocated)))%nat.
Proof.
  split; [vm_compute; reflexivity|].
  apply (alarm_insert_wake 1 0 0 2%positive
           (mk_alarm NULL "A" 10 1 2 10 "second")
           second_allocated two_inserted);
    vm_compute; reflexivity.
Defined.

(** ** A request whose message number is already queued *)

Lemma insert_list_same_number h now alarm al l1 n nx l2 :
  h !! alarm = Some al →
  h !! n = Some nx →
  type nx = "A"%char →
  messageNumber nx = messageNumber al →
  (∀ q, q ∈ l1 → ∃ qx, h !! q = Some qx ∧ time qx < time al) →
  insert_list h alarm (l1 ++ n :: l2) = l1 ++ n :: l2 ∧
  insert_print h now alarm (l1 ++ n :: l2) =
    [Print_replacement (messageNumber al) now (type al)].
Proof.
  intros Hal Hnx Hty Hnum. induction l1 as [|q l1 IH]; intros Hbefore; simpl.
  - rewrite Hnx, Hal, Hty, Hnum, Z.eqb_refl. done.
  - destruct (Hbefore q) as (qx & Hqx & Hlt); [apply elem_of_cons; by left|].
    rewrite Hqx, Hal.
    destruct (is_A (type qx) && (messageNumber qx =? messageNumber al)); [done|].
    destruct (time al <=? time qx) eqn:Hcmp; [apply Z.leb_le in Hcmp; lia|].
    destruct IH as [-> ->]; [|done].
    intros q' Hq'. apply Hbefore, elem_of_cons. by right.
Qed.

Lemma is_list_same h h' p ls :
  is_list h p ls → is_list h' p ls → same_data h h' →
  ∀ q, q ∈ ls → h' !! q = h !! q.
Proof.
  revert p. induction ls as [|a ls IH]; intros p; simpl.
  - intros _ _ _ q Hq. by apply elem_of_nil in Hq.
  - intros [-> (n & Hn & Hl)] [_ (n' & Hn' & Hl')] Hd.
    assert (link n' = link n) as Hlk.
    { destruct ls as [|b ls]; simpl in Hl, Hl'; [congruence|].
      destruct Hl as [-> _], Hl' as [-> _]. done. }
    assert (n' = n) as ->.
    { specialize (Hd a). rewrite Hn, Hn' in Hd. injection Hd as ? ? ? ? ? ?.
      destruct n, n'; simpl in *. congruence. }
    intros q [->|Hq]%elem_of_cons; [congruence|]. eauto.
Qed.

(** C10, as the code has it: [alarm_insert] unlinks nothing, every entry
    of the list is in the list it leaves, in the same order.  When a queued
    type 'A' entry has the message number of the incoming request and every
    entry before it is strictly earlier than the incoming request, the list
    and its nodes are left as they were, the incoming node is not linked
    in, the replacement line is printed and the wake decision runs on the
    incoming request's [time]. *)
Theorem alarm_insert_keeps_entries fuel now alarm al st ls :
  is_list (heap st) (alarm_list st) ls →
  heap st !! alarm = Some al →
  alarm ∉ ls →
  (length ls ≤ fuel)%nat →
  ∃ st' ls',
    alarm_insert fuel now 0 alarm st = Ok st' ∧
    is_list (heap st') (alarm_list st') ls' ∧
    ls `sublist_of` ls' ∧
    (∀ l1 n nx l2,
       ls = l1 ++ n :: l2 →
       heap st !! n = Some nx →
       type nx = "A"%char →
       messageNumber nx = messageNumber al →
       (∀ q qx, q ∈ l1 → heap st !! q = Some qx → time qx < time al) →
       ls' = ls ∧
       alarm_list st' = alarm_list st ∧
       (∀ q, q ≠ alarm → heap st' !! q = heap st !! q) ∧
       out st' =
         out st ++ Print_replacement (messageNumber al) now (type al)
                :: (if wake_needed al st then [Cond_signal] else []) ∧
       current_alarm st' =
         (if wake_needed al st then time al else current_alarm st)).
Proof.
  intros Hls Hal Hfresh Hfuel.
  destruct (alarm_insert_spec fuel now alarm al st ls)
    as (st1 & _ & Hrun & Hlist & Hframe & Hdata & Hcur & Hout); try done.
  eexists _, (insert_list (heap st) alarm ls). split; [exact Hrun|].
  split; [by destruct (wake_needed al st)|].
  split; [apply insert_list_sublist|].
  intros l1 n nx l2 -> Hnx Hty Hnum Hbefore.
  destruct (insert_list_same_number (heap st) now alarm al l1 n nx l2)
    as [Hsame Hprint]; try done.
  { intros q Hq.
    destruct (is_list_allocated _ _ _ q Hls) as [qx Hqx].
    - apply elem_of_app. by left.
    - eauto. }
  rewrite Hsame in Hlist |- *. rewrite Hprint in Hout.
  assert (alarm_list st1 = alarm_list st) as Hhd.
  { destruct l1; simpl in Hls, Hlist;
      destruct Hls as [-> _], Hlist as [-> _]; done. }
  assert (∀ q, q ≠ alarm → heap st1 !! q = heap st !! q) as Hheap.
  { intros q Hq. destruct (decide (q ∈ l1 ++ n :: l2)) as [Hin|Hnin].
    - rewrite Hhd in Hlist. by apply (is_list_same _ _ _ _ Hls Hlist).
    - by apply Hframe. }
  destruct (wake_needed al st); st_simpl; rewrite ?Hout, <- ?app_assoc; done.
Qed.

Lemma alarm_insert_keeps_entries_witness :
  ∃ st' ls',
    alarm_insert 1 0 0 2%positive queue_old = Ok st' ∧
    is_list (heap st') (alarm_list st') ls' ∧
    [1%positive] `sublist_of` ls' ∧
    (∀ l1 n nx l2,
       [1%positive] = l1 ++ n :: l2 →
       heap queue_old !! n = Some nx →
       type nx = "A"%char →
       messageNumber nx = 1 →
       (∀ q qx, q ∈ l1 → heap queue_old !! q = Some qx → time qx < 20) →
       ls' = [1%positive] ∧
       alarm_list st' = alarm_list queue_old ∧
       (∀ q, q ≠ 2%positive → heap st' !! q = heap queue_old !! q) ∧
       out st' = out queue_old ++ [Print_replacement 1 0 "A"] ∧
       current_alarm st' = current_alarm queue_old).
Proof.
  apply (alarm_insert_keeps_entries 1 0 2%positive
           (mk_alarm NULL "A" 20 1 1 20 "new") queue_old [1%positive]).
  - apply (walk_is_list 1). vm_compute. reflexivity.
  - vm_compute. reflexivity.
  - apply not_elem_of_cons. split; [discriminate|]. apply not_elem_of_nil.
  - simpl. lia.
Defined.

(** C10 as worded fails when the entry with the same number sits
    behind an entry that is not earlier than the incoming request: the new
    node is linked in at the head, [queue_two] being the list 1, 2 and the
    incoming request 3 having the number of entry 2. *)
Lemma alarm_insert_same_number_behind_later :
  is_list (heap queue_two) (alarm_list queue_two) [1%positive; 2%positive] ∧
  (type <$> heap queue_two !! 2%positive) = Some "A"%char ∧
  (type <$> heap queue_two !! 3%positive) = Some "A"%char ∧
  (messageNumber <$> heap queue_two !! 2%positive) =
    (messageNumber <$> heap queue_two !! 3%positive) ∧
  ∃ st',
    alarm_insert 2 0 0 3%positive queue_two = Ok st' ∧
    is_list (heap st') (alarm_list st')
            [3%positive; 1%positive; 2%positive] ∧
    out st' = [Print_inserted 2 0 "A"; Cond_signal].
Proof.
  split; [apply (walk_is_list 2); vm_compute; reflexivity|].
  repeat (split; [vm_compute; reflexivity|]).
  eexists. split; [vm_compute; reflexivity|].
  split; [apply (walk_is_list 3); vm_compute; reflexivity|].
  reflexivity.
Qed.

(** C1 at a failing input: the queue holds one type 'A' request with
    message number 1 and text "old"; [alarm_insert] of a type 'A' request
    with number 1 and text "new" leaves the list holding the old node with
    the old text and time, and the new node outside the list. *)
Example alarm_insert_same_number_keeps_old :
  ∃ st',
    alarm_insert 1 0 0 2%positive queue_old = Ok st' ∧
    walk 2 (heap st') (alarm_list st') = Some [1%positive] ∧
    heap st' !! 1%positive = Some (mk_alarm NULL "A" 10 1 1 10 "old") ∧
    heap st' !! 2%positive =
      Some (mk_alarm (Some 1%positive) "A" 20 1 1 20 "new") ∧
    out st' = [Print_replacement 1 0 "A"].
Proof.
  eexists. split; [vm_compute; reflexivity|].
  repeat split; vm_compute; reflexivity.
Qed.

(** ** The alarm thread *)

Lemma timed_wait_inv alarm wakes :
  ∀ st expired wakes' st_w,
    timed_wait alarm wakes st = Ok (expired, wakes', st_w) →
    ∃ pre,
      Forall (λ w : wakeup, w.1 = 0) pre ∧
      if expired
      then wakes = pre ++ (ETIMEDOUT, st_w) :: wakes'
      else wakes = pre ++ wakes' ∧
           ∃ al_w, heap st_w !! alarm = Some al_w ∧
                   current_alarm st_w ≠ time al_w.
Proof.
  induction wakes as [|[status st1] wakes IH]; intros st expired wakes' st_w;
    simpl; intros (al & Hal%load_inv & H)%bind_Ok_inv.
  - destruct (current_alarm st =? time al) eqn:Hc; [done|].
    injection H as <- <- <-. exists []. split; [constructor|].
    split; [done|]. exists al. split; [done|]. by apply Z.eqb_neq.
  - destruct (current_alarm st =? time al) eqn:Hc.
    + destruct (status =? ETIMEDOUT) eqn:Ht.
      * injection H as <- <- <-. apply Z.eqb_eq in Ht as ->.
        exists []. split; [constructor|done].
      * destruct (status =? 0) eqn:H0; [|done]. apply Z.eqb_eq in H0 as ->.
        destruct (IH _ _ _ _ H) as (pre & Hpre & Hw).
        exists ((0, st1) :: pre). split; [by constructor|].
        destruct expired.
        -- by rewrite Hw.
        -- destruct Hw as [-> Hw]. done.
    + injection H as <- <- <-. exists []. split; [constructor|].
      split; [done|]. exists al. split; [done|]. by apply Z.eqb_neq.
Qed.

Lemma fired_lines_app evs1 evs2 :
  fired_lines (evs1 ++ evs2) = (fired_lines evs1 + fired_lines evs2)%nat.
Proof.
  induction evs1 as [|e evs1 IH]; [done|]. destruct e; simpl; lia.
Qed.

Lemma insert_prints_no_fire evs :
  forallb is_insert_print evs = true → fired_lines evs = 0%nat.
Proof.
  induction evs as [|e evs IH]; [done|]. destruct e; simpl; try done.
Qed.

(** [alarm_insert] neither prints the "(%d) %s" line nor frees the request. *)
Lemma alarm_insert_no_fire fuel now sig alarm st st' :
  alarm_insert fuel now sig alarm st = Ok st' →
  is_Some (heap st' !! alarm) ∧
  fired_lines (out st') = fired_lines (out st).
Proof.
  intros (st1 & al1 & Hlink & Hal1 & -> & _)%alarm_insert_inv.
  destruct (link_in_effects _ _ _ _ _ _ _ Hlink) as (_ & evs & Hout & Hevs).
  assert (fired_lines (out st1) = fired_lines (out st)) as Hf.
  { rewrite Hout, fired_lines_app, (insert_prints_no_fire _ Hevs). lia. }
  destruct (wake_needed al1 st1); st_simpl.
  - rewrite fired_lines_app, Hf. simpl. split; [eauto|lia].
  - eauto.
Qed.

(** The alarm thread's choice for the request [alarm] it has taken off the
    list.  When the request is not yet due and the timed wait ends without
    a timeout, [current_alarm] being no longer the request's [time], the
    thread calls [alarm_insert] on the request and neither prints nor frees
    it.  It prints and frees the request only when the request was due when
    taken off the list or a timed wait returned [ETIMEDOUT]. *)
Theorem alarm_thread_early_wake now fuel now_ins sig alarm al wakes st :
  heap st !! alarm = Some al →
  (∀ wakes1 st_w,
     now < time al →
     timed_wait alarm wakes (with_current_alarm (time al) st)
       = Ok (false, wakes1, st_w) →
     serve_alarm now fuel now_ins sig alarm wakes st =
       (st2 ← alarm_insert fuel now_ins sig alarm st_w;
        Ok (false, wakes1, st2))) ∧
  (∀ expired wakes' st',
     serve_alarm now fuel now_ins sig alarm wakes st
       = Ok (expired, wakes', st') →
     if expired
     then
       (time al ≤ now ∨
        ∃ pre st_t, wakes = pre ++ (ETIMEDOUT, st_t) :: wakes' ∧
                    Forall (λ w : wakeup, w.1 = 0) pre) ∧
       heap st' !! alarm = None ∧
       (∃ st_w al_w,
          heap st_w !! alarm = Some al_w ∧
          out st' = out st_w ++ [Print_fired (seconds al_w) (message al_w)])
     else
       now < time al ∧
       ∃ st_w al_w,
         timed_wait alarm wakes (with_current_alarm (time al) st)
           = Ok (false, wakes', st_w) ∧
         heap st_w !! alarm = Some al_w ∧
         current_alarm st_w ≠ time al_w ∧
         alarm_insert fuel now_ins sig alarm st_w = Ok st' ∧
         is_Some (heap st' !! alarm) ∧
         fired_lines (out st') = fired_lines (out st_w)).
Proof.
  intros Hal. split.
  - intros wakes1 st_w Hnow Hwait. unfold serve_alarm.
    rewrite (load_Some _ _ _ Hal). st_simpl.
    apply Z.ltb_lt in Hnow. rewrite Hnow, Hwait. st_simpl.
    destruct (alarm_insert fuel now_ins sig alarm st_w); done.
  - intros expired wakes' st'. unfold serve_alarm.
    rewrite (load_Some _ _ _ Hal). st_simpl.
    destruct (now <? time al) eqn:Hnow.
    + apply Z.ltb_lt in Hnow.
      destruct (timed_wait alarm wakes (with_current_alarm (time al) st))
        as [[[exp1 wakes1] st1]| | | |] eqn:Hwait; try done.
      st_simpl. destruct (timed_wait_inv _ _ _ _ _ _ Hwait) as (pre & Hpre & Hw).
      destruct exp1; st_simpl.
      * intros (st2 & Hfire & [= <- <- <-])%bind_Ok_inv.
        unfold fire in Hfire.
        apply bind_Ok_inv in Hfire as (al_w & Hal_w%load_inv & [= <-]).
        st_simpl. split; [right; eauto|].
        split; [apply lookup_delete_eq|eauto].
      * destruct (alarm_insert fuel now_ins sig alarm st1)
          as [st2| | | |] eqn:Hins; try done.
        st_simpl. intros [= <- <- <-]. split; [done|].
        destruct Hw as [_ (al_w & Hal_w & Hmark)].
        destruct (alarm_insert_no_fire _ _ _ _ _ _ Hins) as [Hkept Hfired].
        exists st1, al_w. done.
    + apply Z.ltb_ge in Hnow. st_simpl.
      intros (st2 & Hfire & [= <- <- <-])%bind_Ok_inv.
      unfold fire in Hfire.
      apply bind_Ok_inv in Hfire as (al_w & Hal_w%load_inv & [= <-]).
      st_simpl. split; [by left|].
      split; [apply lookup_delete_eq|eauto].
Qed.

Lemma alarm_thread_early_wake_witness :
  heap holding_first !! 1%positive
    = Some (mk_alarm NULL "A" 20 1 1 20 "first") ∧
  (∀ wakes1 st_w,
     0 < 20 →
     timed_wait 1%positive [(0, earlier_arrived)]
                (with_current_alarm 20 holding_first)
       = Ok (false, wakes1, st_w) →
     serve_alarm 0 1 0 0 1%positive [(0, earlier_arrived)] holding_first =
       (st2 ← alarm_insert 1 0 0 1%positive st_w;
        Ok (false, wakes1, st2))) ∧
  (∀ expired wakes' st',
     serve_alarm 0 1 0 0 1%positive [(0, earlier_arrived)] holding_first
       = Ok (expired, wakes', st') →
     if expired
     then
       (20 ≤ 0 ∨
        ∃ pre st_t, [(0, earlier_arrived)] = pre ++ (ETIMEDOUT, st_t) :: wakes' ∧
                    Forall (λ w : wakeup, w.1 = 0) pre) ∧
       heap st' !! 1%positive = None ∧
       (∃ st_w al_w,
          heap st_w !! 1%positive = Some al_w ∧
          out st' = out st_w ++ [Print_fired (seconds al_w) (message al_w)])
     else
       0 < 20 ∧
       ∃ st_w al_w,
         timed_wait 1%positive [(0, earlier_arrived)]
                    (with_current_alarm 20 holding_first)
           = Ok (false, wakes', st_w) ∧
         heap st_w !! 1%positive = Some al_w ∧
         current_alarm st_w ≠ time al_w ∧
         alarm_insert 1 0 0 1%positive st_w = Ok st' ∧
         is_Some (heap st' !! 1%positive) ∧
         fired_lines (out st') = fired_lines (out st_w)).
Proof.
  split; [vm_compute; reflexivity|].
  apply (alarm_thread_early_wake 0 1 0 0 1%positive
           (mk_alarm NULL "A" 20 1 1 20 "first")
           [(0, earlier_arrived)] holding_first).
  vm_compute. reflexivity.
Defined.

(** The early wake on a concrete run: request 1 goes back behind
    request 2 and nothing is printed for it. *)
Example serve_alarm_requeues :
  ∃ st',
    serve_alarm 0 1 0 0 1%positive [(0, earlier_arrived)] holding_first
      = Ok (false, [], st') ∧
    walk 2 (heap st') (alarm_list st') = Some [2%positive; 1%positive] ∧
    out st' = out earlier_arrived.
Proof.
  eexists. split; [vm_compute; reflexivity|].
  split; vm_compute; reflexivity.
Qed.

(** C7 at a failing input: the thread waits on request 1 (number 1, due at
    100) when "50 Message(1, 1) y" is entered at time 1.  The main thread's
    [alarm_insert] queues request 2 and signals; the thread wakes with no
    timeout, [current_alarm] being 51, and calls [alarm_insert] on
    request 1, which meets request 2, a type 'A' entry with the same
    number: the replacement line is printed and request 1 is left out of
    the list.  The list holds request 2 alone; after the thread's next
    turn, which fires request 2, the list is empty and request 1, still
    allocated, has not been printed. *)
Example requeue_drops_same_number :
  alarm_insert 0 1 0 2%positive
    (with_heap (<[2%positive := mk_alarm NULL "A" 50 1 1 51 "y"]>
                  (heap holding_x)) holding_x)
    = Ok same_number_arrived ∧
  ∃ st' st'',
    serve_alarm 0 1 1 0 1%positive [(0, same_number_arrived)] holding_x
      = Ok (false, [], st') ∧
    walk 2 (heap st') (alarm_list st') = Some [2%positive] ∧
    heap st' !! 1%positive
      = Some (mk_alarm (Some 2%positive) "A" 100 1 1 100 "x") ∧
    out st' = out same_number_arrived ++ [Print_replacement 1 1 "A"] ∧
    (* the thread's next turn: request 2 is waited for and fired *)
    alarm_thread_turn 1 0 1 0
      [(ETIMEDOUT, with_current_alarm 51 (with_alarm_list NULL st'))] st'
      = Ok (true, [], st'') ∧
    alarm_list st'' = NULL ∧
    is_Some (heap st'' !! 1%positive) ∧
    out st'' = out st' ++ [Print_fired 50 "y"].
Proof.
  split; [vm_compute; reflexivity|].
  eexists _, _. split; [vm_compute; reflexivity|].
  do 3 (split; [vm_compute; reflexivity|]).
  split; [vm_compute; reflexivity|].
  split; [reflexivity|]. split; [|vm_compute; reflexivity].
  eexists. vm_compute. reflexivity.
Qed.

(** ** The validation loops *)

Lemma validation_scan_end fuel test complaint alarm st :
  validation_scan fuel test complaint alarm None st = Ok (false, st).
Proof. by destruct fuel. Qed.

(** A loop whose test fails at the head never ends: [next] stays put. *)
Lemma validation_scan_stuck test complaint alarm al n nx st :
  heap st !! n = Some nx →
  heap st !! alarm = Some al →
  test nx al = false →
  ∀ fuel, validation_scan fuel test complaint alarm (Some n) st = OutOfFuel.
Proof.
  intros Hnx Hal Htest fuel. induction fuel as [|fuel IH]; simpl; [done|].
  rewrite (load_Some _ _ _ Hnx), (load_Some _ _ _ Hal). st_simpl.
  by rewrite Htest.
Qed.

Lemma validation_scan_hit fuel test complaint alarm al n nx st :
  heap st !! n = Some nx →
  heap st !! alarm = Some al →
  test nx al = true →
  validation_scan (S fuel) test complaint alarm (Some n) st
    = Ok (true, emit (complaint al) st).
Proof.
  intros Hnx Hal Htest. simpl.
  rewrite (load_Some _ _ _ Hnx), (load_Some _ _ _ Hal). st_simpl.
  by rewrite Htest.
Qed.

(** On the empty queue both loops are skipped and the request goes on. *)
Lemma validate_empty k fuel alarm st :
  alarm_list st = None → validate k fuel alarm st = Ok (true, st).
Proof.
  intros Hnil. unfold validate. rewrite Hnil, validation_scan_end. st_simpl.
  rewrite Hnil, validation_scan_end. done.
Qed.

(** The two tests of a case ask for different types of the head entry. *)
Lemma tests_exclusive k nx al :
  k ∈ controls → test1 k nx al = true → test2 k nx al = false.
Proof.
  unfold controls. rewrite !elem_of_cons, elem_of_nil.
  intros [->|[->|[->|[->|[]]]]]; simpl; unfold type_is;
    intros [Hty _]%andb_true_iff; apply Ascii.eqb_eq in Hty; by rewrite Hty.
Qed.

(** On a queue that is not empty the two loops never both end. *)
Lemma validate_nonempty k alarm al n nx st :
  k ∈ controls →
  alarm_list st = Some n →
  heap st !! n = Some nx →
  heap st !! alarm = Some al →
  ∀ fuel, validate k fuel alarm st = OutOfFuel.
Proof.
  intros Hk Hhd Hnx Hal fuel. unfold validate. rewrite Hhd.
  destruct (test1 k nx al) eqn:Ht1.
  - destruct fuel as [|fuel]; [done|].
    rewrite (validation_scan_hit _ _ _ _ al n nx); try done. st_simpl.
    rewrite Hhd, (validation_scan_stuck _ _ _ al n nx); try done.
    by apply tests_exclusive.
  - by rewrite (validation_scan_stuck _ _ _ al n nx).
Qed.

(** ** The cases 'B' to 'E' of the command loop *)

(** A line the format scans is dropped: the [if (sscanf(...) < 1)] body is
    skipped, so the request is neither typed, validated nor inserted. *)
Lemma case_control_scanned k e fuel line a st n v got :
  sscanf (format k) line [] = (n, S_int v :: got) →
  1 ≤ n →
  case_control k e fuel line (Some a) st = store a (assign k v) st.
Proof.
  intros Hscan Hn. unfold case_control. rewrite Hscan.
  destruct (store a (assign k v) st); try done. st_simpl.
  destruct (n <? 1) eqn:E; [apply Z.ltb_lt in E; lia|done].
Qed.

(** A line the format does not scan, with a queue that is not empty. *)
Lemma case_control_stuck k e line a al n nx st z :
  k ∈ controls →
  sscanf (format k) line [] = (z, []) →
  z < 1 →
  alarm_list st = Some n →
  heap st !! n = Some nx →
  heap st !! a = Some al →
  ∀ fuel, case_control k e fuel line (Some a) st = OutOfFuel.
Proof.
  intros Hk Hscan Hz Hhd Hnx Hal fuel. unfold case_control.
  rewrite Hscan. st_simpl. apply Z.ltb_lt in Hz. rewrite Hz.
  rewrite (store_Some _ _ _ _ Hal). st_simpl.
  destruct (decide (a = n)) as [->|Hne].
  - erewrite validate_nonempty; try done; st_simpl; try done;
      apply lookup_insert_eq.
  - erewrite validate_nonempty; try done; st_simpl; try done.
    + by rewrite lookup_insert_ne.
    + apply lookup_insert_eq.
Qed.

(** C3 at failing inputs: with a type 'A' request of message type 2 and
    number 7 queued, each of the four control lines, written as the grammar
    has it, leaves the queue and the output as they were (the prompt
    apart): the request is not typed (the block keeps the type it held),
    not inserted, and no line is printed for it. *)
Example well_formed_control_lines_are_dropped :
  Forall
    (λ cmd,
       ∃ st',
         main_turn turn_env 10 (line_of cmd) one_schedule
           = Ok (EmptyString, st') ∧
         alarm_list st' = alarm_list one_schedule ∧
         heap st' !! 1%positive = heap one_schedule !! 1%positive ∧
         (type <$> heap st' !! 5%positive) = Some "Z"%char ∧
         out st' = [Prompt])
    well_formed_controls.
Proof.
  unfold well_formed_controls. rewrite !Forall_cons, Forall_nil.
  repeat split;
    (eexists; split; [vm_compute; reflexivity|]);
    repeat split; vm_compute; reflexivity.
Qed.

(** C4 at failing inputs: on the empty queue the loops of [case 'C']
    accept a Cancel for number 7 although no type 'A' request with number 7
    is queued; with exactly one such request queued and no Cancel, they
    never return, whatever the fuel. *)
Example cancel_validation_fails :
  validate control_C 10 5%positive cancel_on_empty
    = Ok (true, cancel_on_empty) ∧
  (∀ fuel, validate control_C fuel 5%positive cancel_on_schedule = OutOfFuel).
Proof.
  split; [vm_compute; reflexivity|].
  apply (validate_nonempty control_C 5%positive
           (mk_alarm NULL "C" 3 2 7 0 "stale") 1%positive
           (mk_alarm NULL "A" 50 2 7 50 "go")).
  - unfold controls. rewrite !elem_of_cons. auto.
  - reflexivity.
  - vm_compute. reflexivity.
  - vm_compute. reflexivity.
Qed.

(** A turn that reaches the loops of a case with a queue that is not
    empty. *)
Lemma main_turn_stuck k e stdin buf rest a n nx st z :
  k ∈ controls →
  fgets 128 stdin = Some (buf, rest) →
  (1 < String.length (c_str buf))%nat →
  typeFinder (c_str buf) = kind k →
  sscanf (format k) (c_str buf) [] = (z, []) →
  z < 1 →
  malloc_result e = Some a →
  alarm_list st = Some n →
  heap st !! n = Some nx →
  a ≠ n →
  ∀ fuel, main_turn e fuel stdin st = OutOfFuel.
Proof.
  intros Hk Hget Hlen Hty Hscan Hz Hmalloc Hhd Hnx Hne fuel.
  unfold main_turn. rewrite Hget, Hty, Hmalloc.
  destruct (String.length (c_str buf) <=? 1)%nat eqn:E;
    [apply Nat.leb_le in E; lia|].
  pose proof (case_control_stuck k e (c_str buf) a (malloc_contents e) n nx
                (with_heap (<[a:=malloc_contents e]> (heap (emit Prompt st)))
                           (emit Prompt st)) z Hk Hscan Hz) as Hstuck.
  unfold controls in Hk. rewrite !elem_of_cons, elem_of_nil in Hk.
  destruct Hk as [->|[->|[->|[->|[]]]]]; simpl Ascii.eqb; cbv iota;
    rewrite Hstuck; st_simpl; try done;
    by rewrite ?lookup_insert_eq, ?lookup_insert_ne.
Qed.

(** C5 at failing inputs: with one request queued, a turn of the command
    loop that reaches the validation loops of any of the four cases does
    not end within any fuel. *)
Example validation_never_returns :
  Forall
    (λ cmd, ∀ fuel,
       main_turn turn_env fuel (line_of cmd) one_schedule = OutOfFuel)
    cut_short_controls.
Proof.
  assert (∀ k cmd,
            k ∈ controls →
            typeFinder (line_of cmd) = kind k →
            fgets 128 (line_of cmd) = Some (line_of cmd, EmptyString) →
            c_str (line_of cmd) = line_of cmd →
            (1 <? String.length (line_of cmd))%nat = true →
            sscanf (format k) (line_of cmd) [] = (0, []) →
            ∀ fuel,
              main_turn turn_env fuel (line_of cmd) one_schedule = OutOfFuel)
    as Hturn.
  { intros k cmd Hk Hty Hget Hstr Hlen Hscan.
    eapply (main_turn_stuck k) with (a := 5%positive) (n := 1%positive) (z := 0);
      try done; rewrite ?Hstr; try done.
    by apply Nat.ltb_lt. }
  unfold cut_short_controls. rewrite !Forall_cons, Forall_nil.
  repeat split.
  - apply (Hturn control_B); try (vm_compute; reflexivity).
    unfold controls. rewrite !elem_of_cons. auto.
  - apply (Hturn control_C); try (vm_compute; reflexivity).
    unfold controls. rewrite !elem_of_cons. auto.
  - apply (Hturn control_D); try (vm_compute; reflexivity).
    unfold controls. rewrite !elem_of_cons. auto.
  - apply (Hturn control_E); try (vm_compute; reflexivity).
    unfold controls. rewrite !elem_of_cons. auto.
Qed.

(** C9 at a failing input: the line "Cancel" matches none of the five
    grammars, yet on the empty queue the turn types the block as a Cancel
    request, inserts it into the queue and reports the insertion. *)
Example cut_short_cancel_is_inserted :
  ∃ st',
    main_turn turn_env 10 (line_of "Cancel") init_state
      = Ok (EmptyString, st') ∧
    walk 1 (heap st') (alarm_list st') = Some [5%positive] ∧
    (type <$> heap st' !! 5%positive) = Some "C"%char ∧
    out st' = [Prompt; Cond_signal; Print_control_inserted "C" 7 100].
Proof.
  eexists. split; [vm_compute; reflexivity|].
  repeat split; vm_compute; reflexivity.
Qed.

(** ** Lengths: what [fgets] stores and what [sscanf] hands out *)

Lemma fgets_chars_length n input :
  (String.length (fgets_chars n input).1 ≤ n)%nat.
Proof.
  revert input. induction n as [|n IH]; intros input; simpl; [lia|].
  destruct input as [|c rest]; simpl; [lia|].
  destruct (Ascii.eqb c nl); simpl; [lia|].
  specialize (IH rest). destruct (fgets_chars n rest) as [l r]. simpl in *. lia.
Qed.

Lemma fgets_length size input buf rest :
  fgets size input = Some (buf, rest) →
  (String.length buf ≤ size - 1)%nat.
Proof.
  unfold fgets. destruct input as [|c input]; [done|].
  intros [= H]. pose proof (fgets_chars_length (size - 1) (String c input)) as Hl.
  by rewrite H in Hl.
Qed.

Lemma c_str_length buf : (String.length (c_str buf) ≤ String.length buf)%nat.
Proof.
  induction buf as [|c buf IH]; simpl; [lia|].
  destruct (Ascii.eqb c NUL); simpl; lia.
Qed.

Lemma skip_space_length s : (String.length (skip_space s) ≤ String.length s)%nat.
Proof.
  induction s as [|c s IH]; simpl; [lia|].
  destruct (isspace c); simpl; lia.
Qed.

Lemma scan_digits_length s :
  ∀ acc, (String.length (scan_digits acc s).2 ≤ String.length s)%nat.
Proof.
  induction s as [|c s IH]; intros acc; simpl; [lia|].
  destruct (isdigit c); simpl; [|lia].
  specialize (IH (10 * acc + digit_value c)). lia.
Qed.

Lemma scan_int_length s v rest :
  scan_int s = Converted v rest →
  (String.length rest < String.length s)%nat.
Proof.
  unfold scan_int. pose proof (skip_space_length s) as Hs.
  destruct (skip_space s) as [|c s']; [done|]. simpl in Hs.
  destruct (Ascii.eqb c "-" || Ascii.eqb c "+").
  - destruct s' as [|d s'']; [done|].
    destruct (isdigit d) eqn:Hd; [|done].
    pose proof (scan_digits_length (String d s'') 0) as Hl.
    destruct (scan_digits 0 (String d s'')) as [z r].
    intros [= _ <-]. simpl in *. lia.
  - destruct (isdigit c) eqn:Hc; [|done].
    pose proof (scan_digits_length s' (10 * 0 + digit_value c)) as Hl.
    simpl. rewrite Hc.
    destruct (scan_digits (10 * 0 + digit_value c) s') as [z r].
    intros [= _ <-]. simpl in *. lia.
Qed.

Lemma take_not_newline_length width s :
  (String.length (take_not_newline width s).1 ≤ String.length s)%nat ∧
  (String.length (take_not_newline width s).2 ≤ String.length s)%nat.
Proof.
  revert s. induction width as [|w IH]; intros s; simpl; [lia|].
  destruct s as [|c s]; simpl; [lia|].
  destruct (Ascii.eqb c nl); simpl; [lia|].
  specialize (IH s). destruct (take_not_newline w s) as [t r]. simpl in *. lia.
Qed.

Lemma scan_not_newline_length width s t rest :
  scan_not_newline width s = Converted t rest →
  (String.length t ≤ String.length s)%nat ∧
  (String.length rest ≤ String.length s)%nat.
Proof.
  unfold scan_not_newline. destruct s as [|c s]; [done|].
  destruct (Ascii.eqb c nl); [done|].
  pose proof (take_not_newline_length width (String c s)) as Hl.
  destruct (take_not_newline width (String c s)) as [t' r'].
  by intros [= <- <-].
Qed.

Lemma fits_mono L L' x : (L ≤ L')%nat → fits L x → fits L' x.
Proof. destruct x; simpl; [done|lia]. Qed.

(** The items [sscanf] assigns follow the conversions of the format, the
    strings among them are pieces of the input, and the value returned
    counts them. *)
Lemma sscanf_items fmt :
  ∀ s got n got',
    sscanf fmt s got = (n, got') →
    ∃ items,
      got' = got ++ items ∧
      (kind_of <$> items) `prefix_of` conversions fmt ∧
      Forall (fits (String.length s)) items ∧
      (got' ≠ [] → n = Z.of_nat (length got')) ∧
      (got' = [] → n ≤ 0).
Proof.
  assert (∀ b (got : list scanned),
            (got ≠ [] → stopped b got = Z.of_nat (length got)) ∧
            (got = [] → stopped b got ≤ 0)) as Hstop.
  { intros b [|x got]; simpl; split; try done. intros _. by destruct b. }
  assert (∀ (s : string) (got : list scanned) n (l : list item_kind),
            (got ≠ [] → n = Z.of_nat (length got)) →
            (got = [] → n ≤ 0) →
            ∃ items : list scanned,
              got = got ++ items ∧
              (kind_of <$> items) `prefix_of` l ∧
              Forall (fits (String.length s)) items ∧
              (got ≠ [] → n = Z.of_nat (length got)) ∧
              (got = [] → n ≤ 0)) as Hhalt.
  { intros s got n l H1 H2. exists []. rewrite app_nil_r.
    repeat split; try done. apply prefix_nil. }
  induction fmt as [|d fmt IH]; intros s got n got'; simpl.
  - intros [= <- <-]. apply Hhalt; intros; [done|subst; simpl; lia].
  - destruct d as [|c| |width].
    + intros H. destruct (IH _ _ _ _ H) as (items & -> & Hk & Hf & Hn).
      exists items. repeat split; try done; try apply Hn.
      eapply Forall_impl; [exact Hf|]. intros x.
      apply fits_mono, skip_space_length.
    + destruct s as [|c' s'].
      * intros [= <- <-]. apply Hhalt; apply Hstop.
      * destruct (Ascii.eqb c c').
        -- intros H. destruct (IH _ _ _ _ H) as (items & -> & Hk & Hf & Hn).
           exists items. repeat split; try done; try apply Hn.
           eapply Forall_impl; [exact Hf|]. intros x.
           apply fits_mono. simpl. lia.
        -- intros [= <- <-]. apply Hhalt; apply Hstop.
    + destruct (scan_int s) as [v rest| |] eqn:Hscan.
      * intros H. destruct (IH _ _ _ _ H) as (items & -> & Hk & Hf & Hn).
        exists (S_int v :: items). split; [by rewrite <- app_assoc|].
        simpl. repeat split; try done; try apply Hn.
        -- by apply prefix_cons.
        -- constructor; [done|]. eapply Forall_impl; [exact Hf|]. intros x.
           apply fits_mono. apply scan_int_length in Hscan. lia.

      * intros [= <- <-]. apply Hhalt; apply Hstop.
      * intros [= <- <-]. apply Hhalt; apply Hstop.
    + destruct (scan_not_newline width s) as [t rest| |] eqn:Hscan.
      * intros H. destruct (IH _ _ _ _ H) as (items & -> & Hk & Hf & Hn).
        apply scan_not_newline_length in Hscan as [Ht Hr].
        exists (S_str t :: items). split; [by rewrite <- app_assoc|].
        simpl. repeat split; try done; try apply Hn.
        -- by apply prefix_cons.
        -- constructor; [done|]. eapply Forall_impl; [exact Hf|]. intros x.
           by apply fits_mono.
      * intros [= <- <-]. apply Hhalt; apply Hstop.
      * intros [= <- <-]. apply Hhalt; apply Hstop.
Qed.

Lemma alarm_insert_same_data fuel now sig alarm st st' :
  alarm_insert fuel now sig alarm st = Ok st' →
  same_data (heap st) (heap st').
Proof.
  intros (st1 & al1 & Hlink & _ & -> & _)%alarm_insert_inv.
  destruct (link_in_effects _ _ _ _ _ _ _ Hlink) as ([Hdata _] & _).
  by destruct (wake_needed al1 st1).
Qed.

(** A line [case 'A'] accepts: four items, the last the text. *)
Lemma sscanf_A_accepted line n got :
  sscanf format_A line [] = (n, got) →
  ¬ n < 4 →
  ∃ s t m msg,
    got = [S_int s; S_int t; S_int m; S_str msg] ∧
    n = 4 ∧
    (String.length msg ≤ String.length line)%nat.
Proof.
  intros Hscan Hn.
  destruct (sscanf_items _ _ _ _ _ Hscan) as (items & -> & Hk & Hf & Hlen & Hnil).
  simpl in *.
  assert (items ≠ []) as Hne by (intros ->; specialize (Hnil eq_refl); lia).
  specialize (Hlen Hne). subst n.
  change (conversions format_A) with [K_int; K_int; K_int; K_str] in Hk.
  destruct Hk as [tail Hk].
  destruct items as [|[s|?] [|[t|?] [|[m|?] [|[?|msg] [|? ?]]]]];
    simpl in *; try lia; try discriminate.
  exists s, t, m, msg. repeat split.
  by apply Forall_cons in Hf as [_ [_ [_ [Hmsg _]%Forall_cons]%Forall_cons]%Forall_cons].
Qed.

Lemma isdigit_not_NUL c : isdigit c = true → Ascii.eqb c NUL = false.
Proof.
  destruct (Ascii.eqb c NUL) eqn:E; [|done]. by apply Ascii.eqb_eq in E as ->.
Qed.

(** What [fgets] stores starts with the first character of the input. *)
Lemma fgets_chars_first n c s :
  ∃ b r, fgets_chars (S n) (String c s) = (String c b, r).
Proof.
  simpl. destruct (Ascii.eqb c nl); [eauto|].
  destruct (fgets_chars n s) as [l r]. eauto.
Qed.

Lemma fgets_first c s buf rest :
  fgets 128 (String c s) = Some (buf, rest) → ∃ b, buf = String c b.
Proof.
  unfold fgets. change (128 - 1)%nat with (S 126).
  destruct (fgets_chars_first 126 c s) as (b & r & ->).
  intros [= <- _]. eauto.
Qed.

(** C8: a turn of the command loop on an input that starts with a digit,
    however long its first line is, that returns with the newly allocated
    request kept (it is freed when the line is rejected) leaves the request
    typed 'A' with a message of at most 127 characters: the text the format
    scanned in the at most 127 characters [fgets] stored.  With the
    terminator it fits the 128 bytes of [message]. *)
Theorem schedule_message_fits e fuel stdin st rest st' a n :
  isdigit (char_at stdin 0) = true →
  malloc_result e = Some a →
  heap st !! a = None →
  main_turn e fuel stdin st = Ok (rest, st') →
  heap st' !! a = Some n →
  type n = "A"%char ∧
  (String.length (message n) ≤ 127)%nat ∧
  ∃ buf s t m,
    fgets 128 stdin = Some (buf, rest) ∧
    sscanf format_A (c_str buf) []
      = (4, [S_int s; S_int t; S_int m; S_str (message n)]).
Proof.
  intros Hdig Hmalloc Hfresh Hturn Hn.
  destruct stdin as [|c stdin]; [done|].
  unfold char_at in Hdig. simpl in Hdig.
  unfold main_turn in Hturn.
  destruct (fgets 128 (String c stdin)) as [[buf rest0]|] eqn:Hget; [|done].
  destruct (fgets_first _ _ _ _ Hget) as [b ->].
  assert (typeFinder (c_str (String c b)) = "A"%char) as Hty.
  { unfold typeFinder. simpl c_str. rewrite (isdigit_not_NUL _ Hdig).
    unfold char_at. simpl. by rewrite Hdig. }
  rewrite Hty, Hmalloc in Hturn.
  destruct (String.length (c_str (String c b)) <=? 1)%nat.
  { injection Hturn as <- <-. st_simpl. congruence. }
  simpl Ascii.eqb in Hturn. cbv iota in Hturn.
  apply bind_Ok_inv in Hturn as (st2 & Hcase & [= <- <-]).
  unfold case_A in Hcase.
  destruct (sscanf format_A (c_str (String c b)) []) as [z got] eqn:Hscan.
  erewrite store_Some in Hcase by (st_simpl; apply lookup_insert_eq).
  st_simpl.
  destruct (z <? 4) eqn:Hz.
  { injection Hcase as <-. unfold free in Hn. st_simpl.
    rewrite lookup_delete_eq in Hn. done. }
  apply Z.ltb_ge in Hz.
  destruct (sscanf_A_accepted _ _ _ Hscan) as (s & t & m & msg & -> & -> & Hlen);
    [lia|].
  erewrite store_Some in Hcase by (st_simpl; apply lookup_insert_eq).
  st_simpl. unfold submit in Hcase.
  destruct (negb (lock_status e =? 0)); [done|].
  erewrite store_Some in Hcase by (st_simpl; apply lookup_insert_eq).
  st_simpl.
  apply bind_Ok_inv in Hcase as (st3 & Hins & Hunlock).
  destruct (negb (unlock_status e =? 0)); [done|]. injection Hunlock as ->.
  apply alarm_insert_same_data in Hins.
  eapply same_data_lookup in Hins as (n' & Hn' & Htype & _ & _ & _ & _ & Hmsg);
    [|st_simpl; apply lookup_insert_eq].
  rewrite Hn in Hn'. injection Hn' as <-. simpl in Htype, Hmsg.
  split; [done|]. rewrite Hmsg. split; [|eauto 6].
  pose proof (fgets_length _ _ _ _ Hget) as Hbuf.
  pose proof (c_str_length (String c b)) as Hstr. lia.
Qed.

Lemma schedule_message_fits_witness :
  (127 < String.length long_schedule_input)%nat ∧
  main_turn turn_env 10 long_schedule_input init_state
    = Ok (long_schedule_rest, long_schedule_queued) ∧
  heap long_schedule_queued !! 5%positive = Some long_schedule_request ∧
  String.length (message long_schedule_request) = 111%nat ∧
  type long_schedule_request = "A"%char ∧
  (String.length (message long_schedule_request) ≤ 127)%nat ∧
  ∃ buf s t m,
    fgets 128 long_schedule_input = Some (buf, long_schedule_rest) ∧
    sscanf format_A (c_str buf) []
      = (4, [S_int s; S_int t; S_int m;
             S_str (message long_schedule_request)]).
Proof.
  split; [apply Nat.ltb_lt; vm_compute; reflexivity|].
  split; [vm_compute; reflexivity|].
  split; [vm_compute; reflexivity|]. split; [vm_compute; reflexivity|].
  apply (schedule_message_fits turn_env 10 long_schedule_input init_state
           long_schedule_rest long_schedule_queued 5%positive
           long_schedule_request);
    vm_compute; reflexivity.
Defined.

(** ** Further properties of the program *)

(** [alarm_insert] ends on every well-formed list, for a node outside it:
    with fuel for the length of the list it returns, and the list it leaves
    is [insert_list]: the list as it was when a type 'A' entry with the
    incoming message number is met first, and otherwise the new node before
    the first entry whose [time] is not earlier than its own, or at the end.
    No field other than [link] changes, and no node outside the list other
    than [alarm] changes at all. *)
Theorem alarm_insert_refines fuel now alarm al st ls :
  is_list (heap st) (alarm_list st) ls →
  heap st !! alarm = Some al →
  alarm ∉ ls →
  (length ls ≤ fuel)%nat →
  ∃ st',
    alarm_insert fuel now 0 alarm st = Ok st' ∧
    is_list (heap st') (alarm_list st') (insert_list (heap st) alarm ls) ∧
    same_data (heap st) (heap st') ∧
    (∀ q, q ≠ alarm → q ∉ ls → heap st' !! q = heap st !! q).
Proof.
  intros Hls Hal Hfresh Hfuel.
  destruct (alarm_insert_spec fuel now alarm al st ls)
    as (st1 & _ & Hrun & Hlist & Hframe & Hdata & _); try done.
  eexists. split; [exact Hrun|].
  destruct (wake_needed al st); st_simpl; done.
Qed.

Lemma alarm_insert_refines_witness :
  ∃ st',
    alarm_insert 2 0 0 3%positive queue_two = Ok st' ∧
    is_list (heap st') (alarm_list st')
            (insert_list (heap queue_two) 3%positive
                         [1%positive; 2%positive]) ∧
    same_data (heap queue_two) (heap st') ∧
    (∀ q, q ≠ 3%positive → q ∉ [1%positive; 2%positive] →
          heap st' !! q = heap queue_two !! q).
Proof.
  apply (alarm_insert_refines 2 0 3%positive
           (mk_alarm NULL "A" 5 1 2 5 "z") queue_two
           [1%positive; 2%positive]).
  - apply (walk_is_list 2). vm_compute. reflexivity.
  - vm_compute. reflexivity.
  - rewrite !not_elem_of_cons. repeat split; try discriminate.
    apply not_elem_of_nil.
  - simpl. lia.
Defined.

(** On a queue that is not empty, the two loops of each of the cases 'B',
    'C', 'D' and 'E' never both end, whatever the request and the queue
    hold; on the empty queue they are skipped and the request goes on. *)
Theorem validation_only_ends_on_empty_queue k alarm al st :
  k ∈ controls →
  heap st !! alarm = Some al →
  (alarm_list st = None → ∀ fuel, validate k fuel alarm st = Ok (true, st)) ∧
  (∀ n nx, alarm_list st = Some n → heap st !! n = Some nx →
           ∀ fuel, validate k fuel alarm st = OutOfFuel).
Proof.
  intros Hk Hal. split.
  - intros Hnil fuel. by apply validate_empty.
  - intros n nx Hhd Hnx fuel. by eapply validate_nonempty.
Qed.

Lemma validation_only_ends_on_empty_queue_witness :
  (alarm_list cancel_on_schedule = None →
   ∀ fuel, validate control_C fuel 5%positive cancel_on_schedule
             = Ok (true, cancel_on_schedule)) ∧
  (∀ n nx, alarm_list cancel_on_schedule = Some n →
           heap cancel_on_schedule !! n = Some nx →
           ∀ fuel, validate control_C fuel 5%positive cancel_on_schedule
                     = OutOfFuel).
Proof.
  apply (validation_only_ends_on_empty_queue control_C 5%positive
           (mk_alarm NULL "C" 3 2 7 0 "stale") cancel_on_schedule).
  - unfold controls. rewrite !elem_of_cons. auto.
  - vm_compute. reflexivity.
Defined.

(** A line of more than one character that starts with neither a digit nor
    one of the four keywords gets "bad command": the queue is as it was,
    and the block allocated for the line stays allocated. *)
Theorem unrecognised_line_is_rejected e fuel stdin buf rest st :
  fgets 128 stdin = Some (buf, rest) →
  (1 < String.length (c_str buf))%nat →
  typeFinder (c_str buf) = "F"%char →
  ∃ st',
    main_turn e fuel stdin st = Ok (rest, st') ∧
    alarm_list st' = alarm_list st ∧
    current_alarm st' = current_alarm st ∧
    out st' = out st ++ [Prompt; Print_bad_command] ∧
    (∀ q, malloc_result e ≠ Some q → heap st' !! q = heap st !! q).
Proof.
  intros Hget Hlen Hty. unfold main_turn. rewrite Hget, Hty.
  destruct (String.length (c_str buf) <=? 1)%nat eqn:E;
    [apply Nat.leb_le in E; lia|].
  simpl Ascii.eqb. cbv iota. st_simpl. eexists. split; [reflexivity|].
  destruct (malloc_result e) as [a|]; st_simpl;
    rewrite <- app_assoc; repeat split; try done.
  intros q Hq. rewrite lookup_insert_ne; [done|]. congruence.
Qed.

Lemma unrecognised_line_is_rejected_witness :
  ∃ st',
    main_turn turn_env 10 (line_of "hello") one_schedule
      = Ok (EmptyString, st') ∧
    alarm_list st' = alarm_list one_schedule ∧
    current_alarm st' = current_alarm one_schedule ∧
    out st' = out one_schedule ++ [Prompt; Print_bad_command] ∧
    (∀ q, malloc_result turn_env ≠ Some q →
          heap st' !! q = heap one_schedule !! q).
Proof.
  apply (unrecognised_line_is_rejected turn_env 10 (line_of "hello")
           (line_of "hello") EmptyString one_schedule).
  - vm_compute. reflexivity.
  - vm_compute. lia.
  - vm_compute. reflexivity.
Defined.

(** A line that starts with a digit and does not scan as
    "%d Message(%d, %d) %128[^\n]" gets "Bad command" on stderr and its
    block is freed: the queue is as it was. *)
Theorem bad_schedule_line_is_rejected e fuel stdin buf rest st a n got :
  fgets 128 stdin = Some (buf, rest) →
  (1 < String.length (c_str buf))%nat →
  typeFinder (c_str buf) = "A"%char →
  malloc_result e = Some a →
  sscanf format_A (c_str buf) [] = (n, got) →
  n < 4 →
  main_turn e fuel stdin st
    = Ok (rest, free a (emit Stderr_bad_command
                          (with_heap (<[a := assign_A got (malloc_contents e)]>
                                        (heap st)) (emit Prompt st)))).
Proof.
  intros Hget Hlen Hty Hmalloc Hscan Hn. unfold main_turn.
  rewrite Hget, Hty, Hmalloc.
  destruct (String.length (c_str buf) <=? 1)%nat eqn:E;
    [apply Nat.leb_le in E; lia|].
  simpl Ascii.eqb. cbv iota. unfold case_A. rewrite Hscan.
  erewrite store_Some by (st_simpl; apply lookup_insert_eq).
  st_simpl. apply Z.ltb_lt in Hn. rewrite Hn. st_simpl.
  rewrite insert_insert_eq. done.
Qed.

Lemma bad_schedule_line_is_rejected_witness :
  sscanf format_A (c_str (line_of "5 hello")) [] = (1, [S_int 5]) ∧
  main_turn turn_env 10 (line_of "5 hello") one_schedule
    = Ok (EmptyString,
          free 5%positive
            (emit Stderr_bad_command
               (with_heap
                  (<[5%positive :=
                       assign_A [S_int 5] (malloc_contents turn_env)]>
                     (heap one_schedule)) (emit Prompt one_schedule)))).
Proof.
  split; [vm_compute; reflexivity|].
  apply (bad_schedule_line_is_rejected turn_env 10 (line_of "5 hello")
           (line_of "5 hello") EmptyString one_schedule 5%positive 1
           [S_int 5]).
  - vm_compute. reflexivity.
  - vm_compute. lia.
  - vm_compute. reflexivity.
  - reflexivity.
  - vm_compute. reflexivity.
  - lia.
Defined.

(** ** A run from the prompt to the printed message *)

(** "5 Message(1, 100) hello" entered at time 100 on the empty queue, and
    the alarm thread's turn that follows: the request is queued with
    [time] 105, taken off the list, waited for until the timeout, printed
    as "(5) hello" and freed; the list is empty again. *)
Example hello_is_queued_and_fired :
  main_turn turn_env 10 (line_of "5 Message(1, 100) hello") init_state
    = Ok (EmptyString, hello_queued) ∧
  alarm_thread_turn 100 0 0 0 [(ETIMEDOUT, hello_waiting)] hello_queued
    = Ok (true, [],
          mk_state ∅ NULL 105 [Prompt; Cond_signal; Print_fired 5 "hello"]).
Proof. split; vm_compute; reflexivity. Qed.


(** ** Where [alarm_insert] puts a request whose number is not queued *)

Lemma insert_list_in_time_order h alarm al ls :
  h !! alarm = Some al →
  (∀ q, q ∈ ls → is_Some (h !! q)) →
  number_not_queued h al ls →
  ∃ l1 l2,
    ls = l1 ++ l2 ∧
    insert_list h alarm ls = l1 ++ alarm :: l2 ∧
    (∀ q, q ∈ l1 → time_of h q < time al) ∧
    (∀ q, head l2 = Some q → time al ≤ time_of h q) ∧
    insert_print h 0 alarm ls =
      (if l2 is [] then [] else [Print_inserted (messageNumber al) 0 (type al)]).
Proof.
  intros Hal. induction ls as [|n ls IH]; intros Hall Hno; simpl.
  - exists [], []. repeat split; try done.
    intros q Hq. by apply elem_of_nil in Hq.
  - destruct (Hall n) as [nx Hnx]; [apply elem_of_cons; by left|].
    rewrite Hnx, Hal. rewrite (Hno n nx); [|apply elem_of_cons; by left|done].
    destruct (time al <=? time nx) eqn:Hcmp.
    + apply Z.leb_le in Hcmp. exists [], (n :: ls). repeat split; try done.
      * intros q Hq. by apply elem_of_nil in Hq.
      * intros q [= <-]. by rewrite (time_of_lookup _ _ _ Hnx).
    + apply Z.leb_gt in Hcmp.
      destruct IH as (l1 & l2 & -> & -> & Hl1 & Hl2 & Hpr).
      { intros q Hq. apply Hall, elem_of_cons. by right. }
      { intros q qx Hq. apply Hno, elem_of_cons. by right. }
      exists (n :: l1), l2. repeat split; try done.
      intros q [->|Hq]%elem_of_cons; [|by apply Hl1].
      by rewrite (time_of_lookup _ _ _ Hnx).
Qed.

(** A request whose message number is not that of any queued type 'A'
    entry is always linked in, in time order: the list [l1 ++ l2] becomes
    [l1 ++ alarm :: l2], every entry of [l1] being strictly earlier than
    the request and the head of [l2] not earlier.  Among entries of equal
    [time] the new request comes first. *)
Theorem alarm_insert_in_time_order fuel now alarm al st ls :
  is_list (heap st) (alarm_list st) ls →
  heap st !! alarm = Some al →
  alarm ∉ ls →
  (length ls ≤ fuel)%nat →
  number_not_queued (heap st) al ls →
  ∃ st' l1 l2,
    alarm_insert fuel now 0 alarm st = Ok st' ∧
    ls = l1 ++ l2 ∧
    is_list (heap st') (alarm_list st') (l1 ++ alarm :: l2) ∧
    (∀ q, q ∈ l1 → time_of (heap st) q < time al) ∧
    (∀ q, head l2 = Some q → time al ≤ time_of (heap st) q) ∧
    same_data (heap st) (heap st').
Proof.
  intros Hls Hal Hfresh Hfuel Hno.
  destruct (alarm_insert_spec fuel now alarm al st ls)
    as (st1 & _ & Hrun & Hlist & _ & Hdata & _); try done.
  destruct (insert_list_in_time_order (heap st) alarm al ls)
    as (l1 & l2 & Hsplit & Hins & Hl1 & Hl2 & _);
    eauto using is_list_allocated.
  rewrite Hins in Hlist. eexists _, l1, l2. split; [exact Hrun|].
  destruct (wake_needed al st); st_simpl; done.
Qed.

Lemma alarm_insert_in_time_order_witness :
  ∃ st' l1 l2,
    alarm_insert 1 0 0 2%positive second_allocated = Ok st' ∧
    [1%positive] = l1 ++ l2 ∧
    is_list (heap st') (alarm_list st') (l1 ++ 2%positive :: l2) ∧
    (∀ q, q ∈ l1 → time_of (heap second_allocated) q < 10) ∧
    (∀ q, head l2 = Some q → 10 ≤ time_of (heap second_allocated) q) ∧
    same_data (heap second_allocated) (heap st').
Proof.
  apply (alarm_insert_in_time_order 1 0 2%positive
           (mk_alarm NULL "A" 10 1 2 10 "second") second_allocated
           [1%positive]).
  - apply (walk_is_list 1). vm_compute. reflexivity.
  - vm_compute. reflexivity.
  - apply not_elem_of_cons. split; [discriminate|]. apply not_elem_of_nil.
  - simpl. lia.
  - intros q qx Hq Hl. apply list_elem_of_singleton in Hq as ->.
    vm_compute in Hl. injection Hl as <-. reflexivity.
Defined.

(** ** What a call of [alarm_insert] leaves alone *)

Lemma insert_scan_prints_once fuel now alarm :
  ∀ last next st last' next' st1,
    insert_scan fuel now alarm last next st = Ok (last', next', st1) →
    ∃ evs, out st1 = out st ++ evs ∧ (length evs ≤ 1)%nat ∧
           forallb is_insert_print evs = true.
Proof.
  induction fuel as [|fuel IH]; intros last [n|] st last' next' st1; simpl;
    try discriminate.
  1,3: intros [= <- <- <-]; exists []; rewrite app_nil_r;
       repeat split; simpl; lia.
  intros (nx & Hnx & H)%bind_Ok_inv. apply bind_Ok_inv in H as (al & Hal & H).
  destruct (is_A (type nx) && (messageNumber nx =? messageNumber al)).
  - apply bind_Ok_inv in H as (st2 & Hst & [= <- <- <-]).
    apply store_link_rest in Hst as [_ Ho]. eexists. split; [exact Ho|].
    split; [simpl; lia|done].
  - destruct (time al <=? time nx); [|by eapply IH].
    apply bind_Ok_inv in H as (s1 & Hs1 & H).
    apply bind_Ok_inv in H as (s2 & Hs2 & H).
    apply bind_Ok_inv in H as (al' & _ & [= <- <- <-]).
    apply store_link_rest in Hs1 as [_ Ho1].
    apply write_last_rest in Hs2 as [_ Ho2].
    eexists. st_simpl. rewrite Ho2, Ho1. split; [done|].
    split; [simpl; lia|done].
Qed.

Lemma same_data_allocated h h' q :
  same_data h h' → is_Some (h' !! q) ↔ is_Some (h !! q).
Proof.
  intros Hd. specialize (Hd q).
  destruct (h' !! q), (h !! q); simpl in Hd; done.
Qed.

(** A call of [alarm_insert] that returns, on any heap and any list: it
    allocates and frees nothing and writes no field but [link]; it prints
    at most one line and signals at most once; and it moves
    [current_alarm] only from 0 or to a strictly earlier time. *)
Theorem alarm_insert_footprint fuel now sig alarm st st' :
  alarm_insert fuel now sig alarm st = Ok st' →
  same_data (heap st) (heap st') ∧
  (∀ q, is_Some (heap st' !! q) ↔ is_Some (heap st !! q)) ∧
  (∃ prints wakes,
     out st' = out st ++ prints ++ wakes ∧
     (length prints ≤ 1)%nat ∧
     forallb is_insert_print prints = true ∧
     (wakes = [] ∨ wakes = [Cond_signal])) ∧
  (current_alarm st' = current_alarm st ∨
   current_alarm st = 0 ∨
   current_alarm st' < current_alarm st).
Proof.
  intros Hrun. pose proof (alarm_insert_same_data _ _ _ _ _ _ Hrun) as Hdata.
  split; [done|]. split; [intros q; by apply same_data_allocated|].
  apply alarm_insert_inv in Hrun as (st1 & al1 & Hlink & Hal1 & -> & _).
  destruct (link_in_effects _ _ _ _ _ _ _ Hlink) as ([_ Hcur] & _).
  unfold link_in in Hlink.
  apply bind_Ok_inv in Hlink as ([[last' next'] s1] & Hscan & Hend).
  destruct (insert_scan_prints_once _ _ _ _ _ _ _ _ _ Hscan)
    as (evs & Hout & Hlen & Hevs).
  assert (out st1 = out s1) as Hout1.
  { destruct next' as [n|]; simpl in Hend; [by injection Hend as <-|].
    apply bind_Ok_inv in Hend as (s2 & Hs2 & Hs3).
    apply write_last_rest in Hs2 as [_ Ho2].
    apply store_link_rest in Hs3 as [_ Ho3]. congruence. }
  unfold wake_needed.
  destruct ((current_alarm st1 =? 0) || (time al1 <? current_alarm st1))
    eqn:Hw; st_simpl.
  - split.
    + exists evs, [Cond_signal]. rewrite Hout1, Hout, <- app_assoc. auto.
    + apply orb_true_iff in Hw. rewrite Z.eqb_eq, Z.ltb_lt, Hcur in Hw.
      destruct Hw; auto.
  - split; [|by left].
    exists evs, []. rewrite Hout1, Hout, app_nil_r. auto.
Qed.

Lemma alarm_insert_footprint_witness :
  alarm_insert 2 0 0 3%positive queue_two = Ok queue_two_after ∧
  same_data (heap queue_two) (heap queue_two_after) ∧
  (∀ q, is_Some (heap queue_two_after !! q) ↔ is_Some (heap queue_two !! q)) ∧
  (∃ prints wakes,
     out queue_two_after = out queue_two ++ prints ++ wakes ∧
     (length prints ≤ 1)%nat ∧
     forallb is_insert_print prints = true ∧
     (wakes = [] ∨ wakes = [Cond_signal])) ∧
  (current_alarm queue_two_after = current_alarm queue_two ∨
   current_alarm queue_two = 0 ∨
   current_alarm queue_two_after < current_alarm queue_two).
Proof.
  split; [vm_compute; reflexivity|].
  apply (alarm_insert_footprint 2 0 0 3%positive queue_two queue_two_after).
  vm_compute. reflexivity.
Defined.

(** ** The draft's [alarm_insert] *)

Section DraftInsertFromCursor.
Variables (alarm : loc) (al : alarm_t) (st : state).
Hypothesis Hal : heap st !! alarm = Some al.

Lemma draft_link_in_spec :
  ∀ ls fuel last next,
    is_list (heap st) next ls → NoDup ls → alarm ∉ ls →
    read_last last st = Ok next →
    off_cursor last alarm → (∀ q, q ∈ ls → off_cursor last q) →
    (length ls ≤ fuel)%nat →
    ∃ st' p',
      Draft.link_in fuel alarm last next st = Ok st' ∧
      read_last last st' = Ok p' ∧
      is_list (heap st') p' (insert_in_order (heap st) alarm ls) ∧
      (∀ q, q ≠ alarm → off_cursor last q → q ∉ ls →
            heap st' !! q = heap st !! q) ∧
      (last ≠ Head → alarm_list st' = alarm_list st) ∧
      same_data (heap st) (heap st') ∧
      current_alarm st' = current_alarm st ∧
      out st' = out st.
Proof.
  intros ls. induction ls as [|n ls IH];
    intros fuel last next Hls Hnd Hfresh Hlast Hoff Hoffs Hfuel.
  - (* the end of the list: [*last = alarm; alarm->link = NULL] *)
    simpl in Hls. subst next.
    assert (Hscan : Draft.insert_scan fuel alarm last None st = Ok (last, None, st))
      by (by destruct fuel).
    unfold Draft.link_in. rewrite Hscan. simpl.
    apply read_last_inv in Hlast. destruct last as [|p].
    + simpl. erewrite store_Some by (simpl; exact Hal). simpl.
      eexists _, _. split; [reflexivity|]. simpl.
      rewrite lookup_insert_eq.
      repeat split; eauto using same_data_set_link.
      * intros q Hq _ _. by rewrite lookup_insert_ne.
      * done.
    + destruct Hlast as (pn & Hpn & Hlk).
      assert (p ≠ alarm) as Hpa by (intros ->; by apply Hoff).
      simpl. rewrite (store_Some _ _ _ _ Hpn). simpl.
      erewrite store_Some by (simpl; rewrite lookup_insert_ne by done; exact Hal).
      simpl. eexists _, _. split; [reflexivity|]. simpl.
      unfold load; simpl. rewrite lookup_insert_ne by done.
      rewrite lookup_insert_eq. simpl.
      split; [reflexivity|]. rewrite lookup_insert_eq.
      repeat split; eauto.
      * intros q Hq Hoq _. rewrite !lookup_insert_ne; [done| |done].
        intros ->. by apply Hoq.
      * eapply same_data_trans; [by apply same_data_set_link|].
        apply same_data_set_link. by rewrite lookup_insert_ne.
  - simpl in Hls. destruct Hls as [-> (nx & Hnx & Hls)].
    apply NoDup_cons in Hnd as [Hn_ls Hnd].
    apply not_elem_of_cons in Hfresh as [Han Hfresh].
    destruct fuel as [|fuel]; [simpl in Hfuel; lia|].
    simpl in Hfuel. apply le_S_n in Hfuel.
    assert (Hkeep : is_list (heap st) (Some n) (n :: ls)) by (simpl; eauto).
    unfold Draft.link_in. simpl Draft.insert_scan.
    rewrite (load_Some _ _ _ Hnx), (load_Some _ _ _ Hal). simpl.
    rewrite Hnx, Hal.
    destruct (time al <=? time nx).
    + (* not earlier: [alarm->link = next; *last = alarm] *)
      erewrite store_Some by (st_simpl; exact Hal). st_simpl.
      apply read_last_inv in Hlast. destruct last as [|p]; st_simpl.
      * eexists _, _. split; [reflexivity|]. st_simpl.
        split; [reflexivity|]. split.
        { split; [done|]. eexists. rewrite lookup_insert_eq.
          split; [reflexivity|]. st_simpl.
          apply (is_list_frame (heap st) _ (Some n) (n :: ls));
            [|exact Hkeep].
          intros q Hq.
          rewrite lookup_insert_ne; [done|]. intros ->.
          apply elem_of_cons in Hq as [?|?]; done. }
        repeat split; eauto using same_data_set_link.
        -- intros q Hq _ _. by rewrite lookup_insert_ne.
        -- done.
      * destruct Hlast as (pn & Hpn & Hlk).
        assert (p ≠ alarm) as Hpa by (intros ->; by apply Hoff).
        assert (p ∉ n :: ls) as Hpl
          by (intros Hin; by apply (Hoffs _ Hin)).
        erewrite store_Some
          by (st_simpl; rewrite lookup_insert_ne by done; exact Hpn).
        st_simpl.
        eexists _, _. split; [reflexivity|]. st_simpl.
        unfold load; st_simpl. rewrite lookup_insert_eq. st_simpl.
        split; [reflexivity|]. split.
        { split; [done|]. eexists.
          rewrite lookup_insert_ne by done. rewrite lookup_insert_eq.
          split; [reflexivity|]. st_simpl.
          apply (is_list_frame (heap st) _ (Some n) (n :: ls));
            [|exact Hkeep].
          intros q Hq.
          rewrite !lookup_insert_ne; [done| |].
          - intros ->. apply elem_of_cons in Hq as [?|?]; done.
          - intros ->. done. }
        repeat split; eauto.
        -- intros q Hq Hoq _. rewrite !lookup_insert_ne; [done|done|].
           intros ->. by apply Hoq.
        -- eapply same_data_trans;
             [exact (same_data_set_link _ _ _ (Some n) Hal)|].
           apply same_data_set_link. by rewrite lookup_insert_ne.
    + (* earlier entry: [last = &next->link; next = next->link] *)
      destruct (IH fuel (Link n) (link nx)) as
        (st' & p' & Hrun & Hread & Hlist & Hframe & Hhead & Hdata & Hcur & Hout);
        try done.
      { by apply read_last_Link. }
      { intros [= ->]. done. }
      { intros q Hq [= ->]. done. }
      exists st', (Some n). unfold Draft.link_in in Hrun. split; [exact Hrun|].
      split.
      { rewrite <- Hlast. apply read_last_frame; [by apply Hhead|].
        intros p ->. apply Hframe.
        - intros ->. by apply Hoff.
        - intros [= ->]. apply (Hoffs p); [|done]. apply elem_of_cons; by left.
        - intros Hin. apply (Hoffs p); [|done]. apply elem_of_cons; by right. }
      split.
      { apply read_last_inv in Hread as (a & Ha & Hlk).
        st_simpl. split; [done|]. exists a. by rewrite Hlk. }
      repeat split; eauto.
      intros q Hq Hoq [Hqn Hql]%not_elem_of_cons. apply Hframe; try done.
      intros [= ->]. done.
Qed.

End DraftInsertFromCursor.

Lemma draft_alarm_insert_spec fuel alarm al st ls :
  is_list (heap st) (alarm_list st) ls →
  heap st !! alarm = Some al →
  alarm ∉ ls →
  (length ls ≤ fuel)%nat →
  ∃ st1,
    Draft.alarm_insert fuel 0 alarm st =
      Ok (if wake_needed al st
          then emit Cond_signal (with_current_alarm (time al) st1)
          else st1) ∧
    is_list (heap st1) (alarm_list st1) (insert_in_order (heap st) alarm ls) ∧
    (∀ q, q ≠ alarm → q ∉ ls → heap st1 !! q = heap st !! q) ∧
    same_data (heap st) (heap st1) ∧
    current_alarm st1 = current_alarm st ∧
    out st1 = out st.
Proof.
  intros Hls Hal Hfresh Hfuel.
  destruct (draft_link_in_spec alarm al st Hal ls fuel Head (alarm_list st))
    as (st1 & p' & Hrun & Hread & Hlist & Hframe & _ & Hdata & Hcur & Hout);
    try done.
  { eauto using is_list_NoDup. }
  exists st1. injection Hread as <-.
  repeat split; try done.
  - unfold Draft.alarm_insert. rewrite Hrun. st_simpl. unfold wake.
    destruct (same_data_lookup _ _ _ _ Hdata Hal)
      as (al1 & Hal1 & _ & _ & _ & _ & Hd & _).
    rewrite (load_Some _ _ _ Hal1). st_simpl.
    unfold wake_needed. rewrite Hcur, Hd.
    destruct ((current_alarm st =? 0) || (time al <? current_alarm st)); done.
  - intros q Hq Hql. by apply Hframe.
Qed.

Lemma insert_in_order_split h alarm al ls :
  h !! alarm = Some al →
  (∀ q, q ∈ ls → is_Some (h !! q)) →
  ∃ l1 l2,
    ls = l1 ++ l2 ∧
    insert_in_order h alarm ls = l1 ++ alarm :: l2 ∧
    (∀ q, q ∈ l1 → time_of h q < time al) ∧
    (∀ q, head l2 = Some q → time al ≤ time_of h q).
Proof.
  intros Hal. induction ls as [|n ls IH]; intros Hall; simpl.
  - exists [], []. repeat split; try done.
    intros q Hq. by apply elem_of_nil in Hq.
  - destruct (Hall n) as [nx Hnx]; [apply elem_of_cons; by left|].
    rewrite Hnx, Hal.
    destruct (time al <=? time nx) eqn:Hcmp.
    + apply Z.leb_le in Hcmp. exists [], (n :: ls). repeat split; try done.
      * intros q Hq. by apply elem_of_nil in Hq.
      * intros q [= <-]. by rewrite (time_of_lookup _ _ _ Hnx).
    + apply Z.leb_gt in Hcmp.
      destruct IH as (l1 & l2 & -> & -> & Hl1 & Hl2).
      { intros q Hq. apply Hall, elem_of_cons. by right. }
      exists (n :: l1), l2. repeat split; try done.
      intros q [->|Hq]%elem_of_cons; [|by apply Hl1].
      by rewrite (time_of_lookup _ _ _ Hnx).
Qed.

Lemma insert_in_order_elem h alarm ls q :
  q ∈ insert_in_order h alarm ls → q = alarm ∨ q ∈ ls.
Proof.
  induction ls as [|n ls IH]; simpl.
  - intros ->%list_elem_of_singleton. by left.
  - destruct (h !! n) as [nx|]; [|by right].
    destruct (h !! alarm) as [al|]; [|by right].
    destruct (time al <=? time nx).
    + intros [->|Hq]%elem_of_cons; [by left|by right].
    + intros [->|Hq]%elem_of_cons.
      * right. apply elem_of_cons. by left.
      * destruct (IH Hq) as [->|?]; [by left|].
        right. apply elem_of_cons. by right.
Qed.

Lemma insert_in_order_sorted h alarm al ls :
  h !! alarm = Some al →
  (∀ q, q ∈ ls → is_Some (h !! q)) →
  StronglySorted Z.le (times h ls) →
  StronglySorted Z.le (times h (insert_in_order h alarm ls)).
Proof.
  intros Hal. induction ls as [|n ls IH]; intros Hall Hs; simpl.
  - repeat constructor.
  - destruct (Hall n) as [nx Hnx]; [apply elem_of_cons; by left|].
    rewrite Hnx, Hal.
    unfold times in *. simpl in Hs. apply StronglySorted_inv in Hs as [Hs Hn].
    destruct (time al <=? time nx) eqn:Hcmp.
    + apply Z.leb_le in Hcmp. simpl. constructor.
      * constructor; done.
      * rewrite (time_of_lookup _ _ _ Hal). constructor.
        -- by rewrite (time_of_lookup _ _ _ Hnx).
        -- eapply Forall_impl; [exact Hn|]. simpl. intros t Ht.
           rewrite (time_of_lookup _ _ _ Hnx) in Ht. lia.
    + apply Z.leb_gt in Hcmp. simpl. constructor.
      * apply IH; [|done]. intros q Hq. apply Hall, elem_of_cons. by right.
      * apply Forall_fmap, Forall_forall. intros q Hq. simpl.
        destruct (insert_in_order_elem _ _ _ _ Hq) as [->|Hq'].
        -- rewrite (time_of_lookup _ _ _ Hal), (time_of_lookup _ _ _ Hnx). lia.
        -- rewrite Forall_fmap, Forall_forall in Hn. by apply Hn.
Qed.

(** The draft's [alarm_insert] returns on every well-formed list, given a
    node outside it, and always links the node in, in time order: the list
    [l1 ++ l2] becomes [l1 ++ alarm :: l2], every entry of [l1] being
    strictly earlier and the head of [l2] not earlier; a sorted list stays
    sorted.  It prints nothing, and wakes the thread as the later version
    does. *)
Theorem draft_alarm_insert_in_time_order fuel alarm al st ls :
  is_list (heap st) (alarm_list st) ls →
  heap st !! alarm = Some al →
  alarm ∉ ls →
  (length ls ≤ fuel)%nat →
  ∃ st' l1 l2,
    Draft.alarm_insert fuel 0 alarm st = Ok st' ∧
    ls = l1 ++ l2 ∧
    is_list (heap st') (alarm_list st') (l1 ++ alarm :: l2) ∧
    (∀ q, q ∈ l1 → time_of (heap st) q < time al) ∧
    (∀ q, head l2 = Some q → time al ≤ time_of (heap st) q) ∧
    same_data (heap st) (heap st') ∧
    (Sorted Z.le (times (heap st) ls) →
     Sorted Z.le (times (heap st') (l1 ++ alarm :: l2))) ∧
    out st' = out st ++ (if wake_needed al st then [Cond_signal] else []) ∧
    current_alarm st' =
      (if wake_needed al st then time al else current_alarm st).
Proof.
  intros Hls Hal Hfresh Hfuel.
  destruct (draft_alarm_insert_spec fuel alarm al st ls)
    as (st1 & Hrun & Hlist & _ & Hdata & Hcur & Hout); try done.
  assert (∀ q, q ∈ ls → is_Some (heap st !! q)) as Hall
    by eauto using is_list_allocated.
  destruct (insert_in_order_split (heap st) alarm al ls)
    as (l1 & l2 & Hsplit & Hins & Hl1 & Hl2); try done.
  assert (Sorted Z.le (times (heap st) ls) →
          Sorted Z.le (times (heap st1) (l1 ++ alarm :: l2))) as Hsorted.
  { intros Hs. rewrite (times_same_data _ _ _ Hdata), <- Hins.
    apply StronglySorted_Sorted. eapply insert_in_order_sorted; try done.
    apply Sorted_StronglySorted; [|done]. intros x y z. lia. }
  rewrite Hins in Hlist. eexists _, l1, l2. split; [exact Hrun|].
  destruct (wake_needed al st); st_simpl; rewrite ?Hout, ?app_nil_r; done.
Qed.

Lemma draft_alarm_insert_in_time_order_witness :
  ∃ st' l1 l2,
    Draft.alarm_insert 2 0 3%positive queue_two = Ok st' ∧
    [1%positive; 2%positive] = l1 ++ l2 ∧
    is_list (heap st') (alarm_list st') (l1 ++ 3%positive :: l2) ∧
    (∀ q, q ∈ l1 → time_of (heap queue_two) q < 5) ∧
    (∀ q, head l2 = Some q → 5 ≤ time_of (heap queue_two) q) ∧
    same_data (heap queue_two) (heap st') ∧
    (Sorted Z.le (times (heap queue_two) [1%positive; 2%positive]) →
     Sorted Z.le (times (heap st') (l1 ++ 3%positive :: l2))) ∧
    out st' = out queue_two ++ [Cond_signal] ∧
    current_alarm st' = 5.
Proof.
  apply (draft_alarm_insert_in_time_order 2 3%positive
           (mk_alarm NULL "A" 5 1 2 5 "z") queue_two
           [1%positive; 2%positive]).
  - apply (walk_is_list 2). vm_compute. reflexivity.
  - vm_compute. reflexivity.
  - rewrite !not_elem_of_cons. repeat split; try discriminate.
    apply not_elem_of_nil.
  - simpl. lia.
Defined.

Lemma insert_list_not_queued h alarm al ls :
  h !! alarm = Some al →
  number_not_queued h al ls →
  insert_list h alarm ls = insert_in_order h alarm ls ∧
  ∀ now, (length (insert_print h now alarm ls) ≤ 1)%nat ∧
         forallb is_insert_print (insert_print h now alarm ls) = true.
Proof.
  intros Hal. induction ls as [|n ls IH]; intros Hno; simpl.
  - split; [done|]. intros _. simpl. split; [lia|done].
  - destruct (h !! n) as [nx|] eqn:Hnx; [|split; [done|intros _; simpl; split; [lia|done]]].
    rewrite Hal. rewrite (Hno n nx); [|apply elem_of_cons; by left|done].
    destruct (time al <=? time nx).
    + split; [done|]. intros now. simpl. split; [lia|done].
    + destruct IH as [-> Hpr]; [|done].
      intros q qx Hq. apply Hno, elem_of_cons. by right.
Qed.

(** The two versions of [alarm_insert] agree on every request whose
    message number is not that of a queued type 'A' entry: both return,
    with the same heap, the same list and the same [current_alarm]; the
    later version prints at most one line more. *)
Theorem alarm_insert_agrees_with_draft fuel now alarm al st ls :
  is_list (heap st) (alarm_list st) ls →
  heap st !! alarm = Some al →
  alarm ∉ ls →
  (length ls ≤ fuel)%nat →
  number_not_queued (heap st) al ls →
  ∃ st' st0 prints wakes,
    alarm_insert fuel now 0 alarm st = Ok st' ∧
    Draft.alarm_insert fuel 0 alarm st = Ok st0 ∧
    heap st' = heap st0 ∧
    alarm_list st' = alarm_list st0 ∧
    current_alarm st' = current_alarm st0 ∧
    out st' = out st ++ prints ++ wakes ∧
    out st0 = out st ++ wakes ∧
    (length prints ≤ 1)%nat ∧
    forallb is_insert_print prints = true.
Proof.
  intros Hls Hal Hfresh Hfuel Hno.
  destruct (alarm_insert_spec fuel now alarm al st ls)
    as (st1 & _ & Hrun & Hlist & Hframe & Hdata & Hcur & Hout); try done.
  destruct (draft_alarm_insert_spec fuel alarm al st ls)
    as (s1 & Hrun0 & Hlist0 & Hframe0 & Hdata0 & Hcur0 & Hout0); try done.
  destruct (insert_list_not_queued (heap st) alarm al ls Hal Hno)
    as [Heq Hprints].
  rewrite Heq in Hlist.
  destruct (insert_in_order_split (heap st) alarm al ls)
    as (l1 & l2 & Hsplit & Hins & _); eauto using is_list_allocated.
  rewrite Hins in Hlist, Hlist0.
  assert (alarm_list st1 = alarm_list s1) as Hhd.
  { destruct l1; simpl in Hlist, Hlist0;
      destruct Hlist as [-> _], Hlist0 as [-> _]; done. }
  assert (same_data (heap s1) (heap st1)) as Hd01.
  { intros q. by rewrite Hdata, Hdata0. }
  assert (heap st1 = heap s1) as Hheap.
  { apply map_eq. intros q.
    destruct (decide (q ∈ l1 ++ alarm :: l2)) as [Hin|Hnin].
    - rewrite Hhd in Hlist. by apply (is_list_same _ _ _ _ Hlist0 Hlist).
    - rewrite elem_of_app, elem_of_cons in Hnin.
      assert (q ≠ alarm) by (intros ->; apply Hnin; auto).
      assert (q ∉ ls).
      { rewrite Hsplit, elem_of_app. intros [?|?]; apply Hnin; auto. }
      rewrite Hframe, Hframe0; done. }
  exists (if wake_needed al st
          then emit Cond_signal (with_current_alarm (time al) st1) else st1),
         (if wake_needed al st
          then emit Cond_signal (with_current_alarm (time al) s1) else s1),
         (insert_print (heap st) now alarm ls),
         (if wake_needed al st then [Cond_signal] else []).
  split; [done|]. split; [done|].
  destruct (Hprints now) as [Hlen Hall].
  destruct (wake_needed al st); st_simpl;
    rewrite ?Hout, ?Hout0, ?app_nil_r, <- ?app_assoc;
    repeat split; try done; congruence.
Qed.

Lemma alarm_insert_agrees_with_draft_witness :
  ∃ st' st0 prints wakes,
    alarm_insert 1 0 0 2%positive second_allocated = Ok st' ∧
    Draft.alarm_insert 1 0 2%positive second_allocated = Ok st0 ∧
    heap st' = heap st0 ∧
    alarm_list st' = alarm_list st0 ∧
    current_alarm st' = current_alarm st0 ∧
    out st' = out second_allocated ++ prints ++ wakes ∧
    out st0 = out second_allocated ++ wakes ∧
    (length prints ≤ 1)%nat ∧
    forallb is_insert_print prints = true.
Proof.
  apply (alarm_insert_agrees_with_draft 1 0 2%positive
           (mk_alarm NULL "A" 10 1 2 10 "second") second_allocated
           [1%positive]).
  - apply (walk_is_list 1). vm_compute. reflexivity.
  - vm_compute. reflexivity.
  - apply not_elem_of_cons. split; [discriminate|]. apply not_elem_of_nil.
  - simpl. lia.
  - intros q qx Hq Hl. apply list_elem_of_singleton in Hq as ->.
    vm_compute in Hl. injection Hl as <-. reflexivity.
Defined.

(** ** Turns of the alarm thread *)

(** A turn that finds the head of the list due takes it off the list,
    prints its line and frees it at once, without waiting: the rest of the
    list is the list, [current_alarm] is 0, and no wakeup is consumed. *)
Theorem alarm_thread_fires_due_head now fuel now_ins sig wakes st a al ls :
  is_list (heap st) (alarm_list st) (a :: ls) →
  heap st !! a = Some al →
  time al ≤ now →
  alarm_thread_turn now fuel now_ins sig wakes st =
    Ok (true, wakes,
        mk_state (delete a (heap st)) (link al) 0
                 (out st ++ [Print_fired (seconds al) (message al)])) ∧
  is_list (delete a (heap st)) (link al) ls ∧
  times (delete a (heap st)) ls = times (heap st) ls.
Proof.
  intros Hls Hal Hdue. pose proof (is_list_NoDup _ _ _ Hls) as Hnd.
  apply NoDup_cons in Hnd as [Hfresh _].
  simpl in Hls. destruct Hls as [Hhd (al' & Hal' & Hls)].
  rewrite Hal in Hal'. injection Hal' as <-.
  assert (∀ q, q ∈ ls → delete a (heap st) !! q = heap st !! q) as Hframe.
  { intros q Hq. rewrite lookup_delete_ne; [done|]. by intros ->. }
  split; [|split; [by eapply is_list_frame|by apply times_frame]].
  unfold alarm_thread_turn.
  assert (wait_for_work wakes (with_current_alarm 0 st)
          = Ok (wakes, with_current_alarm 0 st)) as ->.
  { destruct wakes; simpl; by rewrite Hhd. }
  st_simpl. rewrite Hhd.
  erewrite load_Some by (st_simpl; exact Hal). st_simpl.
  unfold serve_alarm.
  erewrite load_Some by (st_simpl; exact Hal). st_simpl.
  apply Z.ltb_ge in Hdue. rewrite Hdue. st_simpl.
  unfold fire. erewrite load_Some by (st_simpl; exact Hal). done.
Qed.

Lemma alarm_thread_fires_due_head_witness :
  alarm_thread_turn 200 0 0 0 [] hello_queued =
    Ok (true, [],
        mk_state (delete 5%positive (heap hello_queued)) (link hello_request)
                 0 (out hello_queued ++ [Print_fired 5 "hello"])) ∧
  is_list (delete 5%positive (heap hello_queued)) (link hello_request) [] ∧
  times (delete 5%positive (heap hello_queued)) [] = times (heap hello_queued) [].
Proof.
  apply (alarm_thread_fires_due_head 200 0 0 0 [] hello_queued 5%positive
           hello_request []).
  - apply (walk_is_list 1). vm_compute. reflexivity.
  - vm_compute. reflexivity.
  - vm_compute. discriminate.
Defined.

(** [alarm_insert] and the idle thread.  With the thread idle (the list
    empty, [current_alarm] set to 0 by the thread), [alarm_insert] of a
    request, whatever its [time], always signals, sets [current_alarm] to
    that [time] and leaves the request as the whole list.  A turn of the
    thread that resumes from [pthread_cond_wait] in the state the insert
    left leaves the wait loop and takes the request off the list: when
    the request is due it prints its line and frees it at once; when it
    is not yet due the thread waits for its [time], and when that wait
    times out prints the line and frees it.  The list is empty again.
    The wakeups themselves are inputs here: that the signal ends the wait
    is the part of the pthread library. *)
Theorem idle_thread_serves_insert fuel0 now0 a al st :
  alarm_list st = None →
  heap st !! a = Some al →
  ∃ st_m,
    alarm_insert fuel0 now0 0 a (with_current_alarm 0 st) = Ok st_m ∧
    out st_m = out st ++ [Cond_signal] ∧
    current_alarm st_m = time al ∧
    is_list (heap st_m) (alarm_list st_m) [a] ∧
    (∀ now fuel now_ins sig wakes,
       time al ≤ now →
       alarm_thread_turn now fuel now_ins sig ((0, st_m) :: wakes) st
       = Ok (true, wakes,
             mk_state (delete a (heap st_m)) NULL (time al)
                      (out st_m ++ [Print_fired (seconds al) (message al)]))) ∧
    ∀ now fuel now_ins sig wakes,
      now < time al →
      alarm_thread_turn now fuel now_ins sig
        ((0, st_m)
           :: (ETIMEDOUT, with_current_alarm (time al)
                            (with_alarm_list NULL st_m))
           :: wakes) st
      = Ok (true, wakes,
            mk_state (delete a (heap st_m)) NULL (time al)
                     (out st_m ++ [Print_fired (seconds al) (message al)])).
Proof.
  intros Hnil Hal.
  exists (mk_state (<[a := set_link NULL al]> (heap st)) (Some a) (time al)
                   (out st ++ [Cond_signal])).
  assert (alarm_insert fuel0 now0 0 a (with_current_alarm 0 st)
          = Ok (mk_state (<[a := set_link NULL al]> (heap st)) (Some a)
                         (time al) (out st ++ [Cond_signal]))) as Hrun.
  { unfold alarm_insert, link_in. st_simpl. rewrite Hnil.
    assert (insert_scan fuel0 now0 a Head None (with_current_alarm 0 st)
            = Ok (Head, None, with_current_alarm 0 st)) as ->
      by (by destruct fuel0).
    st_simpl. erewrite store_Some by (st_simpl; exact Hal). st_simpl.
    unfold wake. erewrite load_Some by (st_simpl; apply lookup_insert_eq).
    st_simpl. unfold wake_needed. st_simpl. done. }
  split; [exact Hrun|]. st_simpl. split; [done|]. split; [done|].
  split.
  { simpl. split; [done|]. eexists. rewrite lookup_insert_eq. done. }
  split.
  - intros now fuel now_ins sig wakes Hnow. unfold alarm_thread_turn.
    cbn [wait_for_work]. st_simpl. rewrite Hnil. change (0 =? 0) with true.
    cbv iota.
    assert (∀ st', is_Some (alarm_list st') →
                   wait_for_work wakes st' = Ok (wakes, st')) as Hwork.
    { intros st' [x Hx]. destruct wakes; simpl; by rewrite Hx. }
    rewrite Hwork by (st_simpl; eauto). st_simpl.
    erewrite load_Some by (st_simpl; apply lookup_insert_eq). st_simpl.
    unfold serve_alarm.
    erewrite load_Some by (st_simpl; apply lookup_insert_eq). st_simpl.
    apply Z.ltb_ge in Hnow. rewrite Hnow. st_simpl.
    unfold fire. erewrite load_Some by (st_simpl; apply lookup_insert_eq).
    done.
  - intros now fuel now_ins sig wakes Hnow. unfold alarm_thread_turn.
    simpl wait_for_work. st_simpl. rewrite Hnil. st_simpl.
    erewrite load_Some by (st_simpl; apply lookup_insert_eq). st_simpl.
    unfold serve_alarm.
    erewrite load_Some by (st_simpl; apply lookup_insert_eq). st_simpl.
    apply Z.ltb_lt in Hnow. rewrite Hnow. simpl timed_wait.
    erewrite load_Some by (st_simpl; apply lookup_insert_eq). st_simpl.
    rewrite Z.eqb_refl. st_simpl.
    unfold fire. erewrite load_Some by (st_simpl; apply lookup_insert_eq).
    done.
Qed.

Lemma idle_thread_serves_insert_witness :
  ∃ st_m,
    alarm_insert 0 100 0 5%positive (with_current_alarm 0 hello_allocated)
      = Ok st_m ∧
    out st_m = out hello_allocated ++ [Cond_signal] ∧
    current_alarm st_m = time hello_request ∧
    is_list (heap st_m) (alarm_list st_m) [5%positive] ∧
    (∀ now fuel now_ins sig wakes,
       time hello_request ≤ now →
       alarm_thread_turn now fuel now_ins sig ((0, st_m) :: wakes)
                         hello_allocated
       = Ok (true, wakes,
             mk_state (delete 5%positive (heap st_m)) NULL
                      (time hello_request)
                      (out st_m ++ [Print_fired (seconds hello_request)
                                                (message hello_request)]))) ∧
    ∀ now fuel now_ins sig wakes,
      now < time hello_request →
      alarm_thread_turn now fuel now_ins sig
        ((0, st_m)
           :: (ETIMEDOUT, with_current_alarm (time hello_request)
                            (with_alarm_list NULL st_m))
           :: wakes) hello_allocated
      = Ok (true, wakes,
            mk_state (delete 5%positive (heap st_m)) NULL (time hello_request)
                     (out st_m ++ [Print_fired (seconds hello_request)
                                               (message hello_request)])).
Proof.
  apply (idle_thread_serves_insert 0 100 5%positive hello_request
           hello_allocated).
  - reflexivity.
  - vm_compute. reflexivity.
Defined.

(** ** typeFinder *)

Lemma chars_from_shift p :
  ∀ i c line, chars_from (S i) p (String c line) = chars_from i p line.
Proof.
  induction p as [|a p IH]; intros i c line; simpl; [done|].
  by rewrite IH.
Qed.

(** The chain of comparisons from index 0 is the test for a prefix, for a
    keyword without NUL. *)
Lemma chars_from_prefix p :
  no_NUL p = true →
  ∀ line, chars_from 0 p line = true ↔ ∃ rest, line = (p ++ rest)%string.
Proof.
  induction p as [|a p IH]; intros Hnul line.
  - simpl. split; [eauto|done].
  - cbn [no_NUL] in Hnul. apply andb_true_iff in Hnul as [Ha Hnul].
    apply negb_true_iff, Ascii.eqb_neq in Ha.
    cbn [chars_from]. rewrite andb_true_iff, Ascii.eqb_eq.
    destruct line as [|c line].
    + unfold char_at. cbn [String.get]. split.
      * intros [H _]. congruence.
      * intros [rest [=]].
    + unfold char_at at 1. cbn [String.get].
      rewrite chars_from_shift, (IH Hnul line). split.
      * intros [-> [rest ->]]. eauto.
      * intros [rest [= -> ->]]. eauto.
Qed.

(** [typeFinder] looks at the start of the line only: it returns 'A' for
    the lines that start with a digit, 'B', 'C', 'D', 'E' for those that
    start with "Create_Thread", "Cancel", "Pause_Thread", "Resume_Thread",
    whatever follows the keyword, and 'F' for every other line. *)
Theorem typeFinder_reads_prefix line :
  (typeFinder line = "A"%char ↔ isdigit (char_at line 0) = true) ∧
  (typeFinder line = "B"%char ↔
     ∃ rest, line = ("Create_Thread" ++ rest)%string) ∧
  (typeFinder line = "C"%char ↔ ∃ rest, line = ("Cancel" ++ rest)%string) ∧
  (typeFinder line = "D"%char ↔
     ∃ rest, line = ("Pause_Thread" ++ rest)%string) ∧
  (typeFinder line = "E"%char ↔
     ∃ rest, line = ("Resume_Thread" ++ rest)%string) ∧
  (typeFinder line = "F"%char ↔
     isdigit (char_at line 0) = false ∧
     ∀ kw, kw ∈ ["Create_Thread"; "Cancel"; "Pause_Thread";
                 "Resume_Thread"]%string →
           ¬ ∃ rest, line = (kw ++ rest)%string).
Proof.
  pose proof (chars_from_prefix "Create_Thread" eq_refl line) as HB.
  pose proof (chars_from_prefix "Cancel" eq_refl line) as HC.
  pose proof (chars_from_prefix "Pause_Thread" eq_refl line) as HD.
  pose proof (chars_from_prefix "Resume_Thread" eq_refl line) as HE.
  unfold typeFinder.
  assert (∀ kw, kw ∈ ["Create_Thread"; "Cancel"; "Pause_Thread";
                      "Resume_Thread"]%string →
                (∃ rest, line = (kw ++ rest)%string) →
                isdigit (char_at line 0) = false) as Hkw.
  { intros kw Hin [rest ->]. rewrite !elem_of_cons, elem_of_nil in Hin.
    destruct Hin as [->|[->|[->|[->|[]]]]]; reflexivity. }
  assert (∀ kw, kw ∈ ["Create_Thread"; "Cancel"; "Pause_Thread";
                      "Resume_Thread"]%string →
                chars_from 0 kw line = true ↔
                ∃ rest, line = (kw ++ rest)%string) as Hpre.
  { intros kw Hin. rewrite !elem_of_cons, elem_of_nil in Hin.
    destruct Hin as [->|[->|[->|[->|[]]]]]; done. }
  assert (∀ kw kw' r r',
            kw ∈ ["Create_Thread"; "Cancel"; "Pause_Thread";
                  "Resume_Thread"]%string →
            kw' ∈ ["Create_Thread"; "Cancel"; "Pause_Thread";
                   "Resume_Thread"]%string →
            line = (kw ++ r)%string → line = (kw' ++ r')%string →
            kw = kw') as Hone.
  { intros kw kw' r r' Hin Hin' -> Heq.
    rewrite !elem_of_cons, elem_of_nil in Hin, Hin'.
    destruct Hin as [->|[->|[->|[->|[]]]]];
      destruct Hin' as [->|[->|[->|[->|[]]]]];
      try reflexivity; simpl in Heq; discriminate Heq. }
  assert (∀ kw kw', kw ∈ ["Create_Thread"; "Cancel"; "Pause_Thread";
                            "Resume_Thread"]%string →
                     kw' ∈ ["Create_Thread"; "Cancel"; "Pause_Thread";
                            "Resume_Thread"]%string →
                     chars_from 0 kw line = true →
                     (∃ rest, line = (kw' ++ rest)%string) → kw = kw') as Hclash.
  { intros kw kw' Hin Hin' [r Hr]%(Hpre kw Hin) [r' Hr']. eauto. }
  assert (∀ kw, kw ∈ ["Create_Thread"; "Cancel"; "Pause_Thread";
                      "Resume_Thread"]%string →
                chars_from 0 kw line = false →
                ¬ ∃ rest, line = (kw ++ rest)%string) as Hnot.
  { intros kw Hin Hf Hex. apply (Hpre kw Hin) in Hex. congruence. }
  assert ("Create_Thread"%string ∈ ["Create_Thread"; "Cancel"; "Pause_Thread";
                                    "Resume_Thread"]%string) as mB
    by (rewrite !elem_of_cons; auto).
  assert ("Cancel"%string ∈ ["Create_Thread"; "Cancel"; "Pause_Thread";
                             "Resume_Thread"]%string) as mC
    by (rewrite !elem_of_cons; auto).
  assert ("Pause_Thread"%string ∈ ["Create_Thread"; "Cancel"; "Pause_Thread";
                                   "Resume_Thread"]%string) as mD
    by (rewrite !elem_of_cons; auto).
  assert ("Resume_Thread"%string ∈ ["Create_Thread"; "Cancel"; "Pause_Thread";
                                    "Resume_Thread"]%string) as mE
    by (rewrite !elem_of_cons; auto 6).
  clear HB HC HD HE.
  destruct (isdigit (char_at line 0)) eqn:Hdig.
  { repeat split; try done; try discriminate.
    all: try (intros Hex; eapply Hkw in Hex; [congruence|done]).
    intros [? _]. done. }
  destruct (chars_from 0 "Create_Thread" line) eqn:bB;
    [|destruct (chars_from 0 "Cancel" line) eqn:bC;
      [|destruct (chars_from 0 "Pause_Thread" line) eqn:bD;
        [|destruct (chars_from 0 "Resume_Thread" line) eqn:bE]]].
  all: repeat split; try done; try discriminate.
  all: try (by apply (Hpre _ ltac:(eassumption))).
  all: try (intros Hex;
            first [ by eapply (Hnot _ ltac:(eassumption)) in Hex
                  | by (eapply (Hclash "Create_Thread"%string) in Hex; try done)
                  | by (eapply (Hclash "Cancel"%string) in Hex; try done)
                  | by (eapply (Hclash "Pause_Thread"%string) in Hex; try done)
                  | by (eapply (Hclash "Resume_Thread"%string) in Hex; try done) ]).
  all: try (intros _; apply Hpre; done).
  all: try (intros [_ Hno]; exfalso;
            first [ by (apply (Hno _ mB), Hpre)
                  | by (apply (Hno _ mC), Hpre)
                  | by (apply (Hno _ mD), Hpre)
                  | by (apply (Hno _ mE), Hpre) ]).
  1-3: intros Hex; exfalso;
       first [ by apply (Hnot _ mB bB) | by apply (Hnot _ mC bC)
             | by apply (Hnot _ mD bD) ].
  intros kw Hin. apply Hnot; [done|].
  rewrite !elem_of_cons, elem_of_nil in Hin.
  by destruct Hin as [->|[->|[->|[->|[]]]]].
Qed.

(** ** The command loop keeps the queue *)

Lemma list_inv_frame st st' ls :
  list_inv st ls →
  alarm_list st' = alarm_list st →
  (∀ q, q ∈ ls → heap st' !! q = heap st !! q) →
  list_inv st' ls.
Proof.
  intros [Hls Hs] Hhd Hfr. split.
  - rewrite Hhd. by eapply is_list_frame.
  - by rewrite (times_frame (heap st)).
Qed.

Lemma store_off_list a f st st' ls :
  store a f st = Ok st' → a ∉ ls → list_inv st ls → list_inv st' ls.
Proof.
  intros (x & Hx & ->)%store_inv Hoff Hinv.
  eapply list_inv_frame; [exact Hinv|done|]. st_simpl.
  intros q Hq. rewrite lookup_insert_ne; [done|]. by intros ->.
Qed.

Lemma free_off_list a st ls :
  a ∉ ls → list_inv st ls → list_inv (free a st) ls.
Proof.
  intros Hoff Hinv. eapply list_inv_frame; [exact Hinv|done|].
  unfold free. st_simpl.
  intros q Hq. rewrite lookup_delete_ne; [done|]. by intros ->.
Qed.

Lemma queue_kept ls :
  ls `sublist_of` ls ∧ (length ls ≤ S (length ls))%nat.
Proof. split; [reflexivity|lia]. Qed.

Lemma insert_list_length h alarm ls :
  (length (insert_list h alarm ls) ≤ S (length ls))%nat.
Proof.
  induction ls as [|n ls IH]; simpl; [done|].
  destruct (h !! n) as [nx|]; [|simpl; lia].
  destruct (h !! alarm) as [al|]; [|simpl; lia].
  destruct (is_A (type nx) && (messageNumber nx =? messageNumber al));
    [simpl; lia|].
  destruct (time al <=? time nx); simpl; lia.
Qed.

(** [lock; alarm->time = ...; alarm_insert(alarm); unlock] on a request
    that is off the list. *)
Lemma submit_keeps_queue e fuel a st st' ls :
  list_inv st ls → a ∉ ls →
  submit e fuel a st = Ok st' →
  ∃ ls', list_inv st' ls' ∧ ls `sublist_of` ls' ∧
         (length ls' ≤ S (length ls))%nat.
Proof.
  intros Hinv Hoff. unfold submit.
  destruct (negb (lock_status e =? 0)); [done|].
  intros (st1 & Hst & H)%bind_Ok_inv.
  apply bind_Ok_inv in H as (st2 & Hins & H).
  destruct (negb (unlock_status e =? 0)); [done|]. injection H as <-.
  pose proof (store_off_list _ _ _ _ _ Hst Hoff Hinv) as Hinv1.
  exists (insert_list (heap st1) a ls). split; [|split].
  - by eapply alarm_insert_inv_sorted.
  - apply insert_list_sublist.
  - apply insert_list_length.
Qed.

Lemma validation_scan_effects fuel test complaint alarm next :
  ∀ st hit st',
    validation_scan fuel test complaint alarm next st = Ok (hit, st') →
    heap st' = heap st ∧ alarm_list st' = alarm_list st ∧
    current_alarm st' = current_alarm st.
Proof.
  induction fuel as [|fuel IH]; intros st hit st'; destruct next as [n|];
    simpl; try discriminate; try (by intros [= <- <-]).
  intros (nx & _ & H)%bind_Ok_inv.
  apply bind_Ok_inv in H as (al & _ & H).
  destruct (test nx al); [by injection H as <- <-|eauto].
Qed.

Lemma validate_effects k fuel alarm st ok st' :
  validate k fuel alarm st = Ok (ok, st') →
  heap st' = heap st ∧ alarm_list st' = alarm_list st ∧
  current_alarm st' = current_alarm st.
Proof.
  unfold validate. intros ([hit1 st1] & H1 & H)%bind_Ok_inv.
  apply bind_Ok_inv in H as ([hit2 st2] & H2 & H). injection H as <- <-.
  apply validation_scan_effects in H1 as (? & ? & ?).
  apply validation_scan_effects in H2 as (? & ? & ?).
  repeat split; congruence.
Qed.

Lemma case_A_keeps_queue e fuel line a st st' ls :
  list_inv st ls → a ∉ ls →
  case_A e fuel line (Some a) st = Ok st' →
  ∃ ls', list_inv st' ls' ∧ ls `sublist_of` ls' ∧
         (length ls' ≤ S (length ls))%nat.
Proof.
  intros Hinv Hoff. unfold case_A.
  destruct (sscanf format_A line []) as [n got].
  intros (st1 & Hst1 & H)%bind_Ok_inv.
  pose proof (store_off_list _ _ _ _ _ Hst1 Hoff Hinv) as Hinv1.
  destruct (n <? 4).
  - injection H as <-. exists ls. split; [|apply queue_kept].
    apply free_off_list; [done|].
    eapply list_inv_frame; [exact Hinv1|done..].
  - apply bind_Ok_inv in H as (st2 & Hst2 & H).
    pose proof (store_off_list _ _ _ _ _ Hst2 Hoff Hinv1) as Hinv2.
    by eapply submit_keeps_queue.
Qed.

Lemma case_control_keeps_queue k e fuel line a st st' ls :
  list_inv st ls → a ∉ ls →
  case_control k e fuel line (Some a) st = Ok st' →
  ∃ ls', list_inv st' ls' ∧ ls `sublist_of` ls' ∧
         (length ls' ≤ S (length ls))%nat.
Proof.
  intros Hinv Hoff. unfold case_control.
  destruct (sscanf (format k) line []) as [n got].
  intros (st0 & Hst0 & H)%bind_Ok_inv.
  assert (list_inv st0 ls) as Hinv0.
  { destruct got as [|[v|s] got]; try (by injection Hst0 as <-).
    by eapply store_off_list. }
  destruct (n <? 1); [|injection H as <-; exists ls; split; [done|apply queue_kept]].
  apply bind_Ok_inv in H as (st1 & Hst1 & H).
  pose proof (store_off_list _ _ _ _ _ Hst1 Hoff Hinv0) as Hinv1.
  apply bind_Ok_inv in H as ([ok st2] & Hval & H).
  apply validate_effects in Hval as (Hh & Hl & _).
  assert (list_inv st2 ls) as Hinv2.
  { eapply list_inv_frame; [exact Hinv1|done|]. intros q _. by rewrite Hh. }
  destruct ok.
  - apply bind_Ok_inv in H as (st3 & Hsub & H).
    destruct (submit_keeps_queue _ _ _ _ _ _ Hinv2 Hoff Hsub)
      as (ls' & Hinv3 & Hsl & Hlen).
    exists ls'. split; [|done].
    destruct (report k) as [line_for|]; [|by injection H as <-].
    apply bind_Ok_inv in H as (al & _ & H). injection H as <-.
    eapply list_inv_frame; [exact Hinv3|done..].
  - injection H as <-. exists ls. split; [|apply queue_kept]. by apply free_off_list.
Qed.

(** Every turn of the command loop that returns to the prompt leaves the
    queue well formed (a chain of allocated nodes that ends in NULL) and
    non-decreasing in [time], with every entry that was queued still queued
    in the same order, and at most one entry more; [malloc] is taken to
    return NULL or a block that is not in use. *)
Theorem main_turn_keeps_queue e fuel stdin st ls rest st' :
  list_inv st ls →
  (∀ a, malloc_result e = Some a → heap st !! a = None) →
  main_turn e fuel stdin st = Ok (rest, st') →
  ∃ ls', list_inv st' ls' ∧ ls `sublist_of` ls' ∧
         (length ls' ≤ S (length ls))%nat.
Proof.
  intros Hinv Hfresh. unfold main_turn.
  destruct (fgets 128 stdin) as [[buf rest0]|]; [|done].
  assert (list_inv (emit Prompt st) ls) as Hinv0
    by (eapply list_inv_frame; [exact Hinv|done..]).
  destruct (String.length (c_str buf) <=? 1)%nat.
  { intros [= <- <-]. exists ls. split; [done|apply queue_kept]. }
  intros (st1 & H & [= <- <-])%bind_Ok_inv. revert H.
  destruct (malloc_result e) as [a|] eqn:Hm.
  - assert (a ∉ ls) as Hoff.
    { intros Hin. destruct Hinv as [Hls _].
      destruct (is_list_allocated _ _ _ _ Hls Hin) as [x Hx].
      rewrite (Hfresh a eq_refl) in Hx. done. }
    assert (list_inv
              (with_heap (<[a := malloc_contents e]> (heap (emit Prompt st)))
                         (emit Prompt st)) ls) as Hinv1.
    { eapply list_inv_frame; [exact Hinv0|done|]. st_simpl.
      intros q Hq. rewrite lookup_insert_ne; [done|]. by intros ->. }
    repeat case_match; intros Hrun;
      try (by eapply case_A_keeps_queue);
      try (by eapply case_control_keeps_queue).
    injection Hrun as <-. exists ls. split; [|apply queue_kept].
    eapply list_inv_frame; [exact Hinv1|done..].
  - repeat case_match; try done.
    intros [= <-]. exists ls. split; [|apply queue_kept].
    eapply list_inv_frame; [exact Hinv0|done..].
Qed.

Lemma main_turn_keeps_queue_witness :
  list_inv one_schedule [1%positive] ∧
  main_turn turn_env 10 (line_of "5 Message(1, 100) hello") one_schedule
    = Ok (EmptyString, hello_behind) ∧
  ∃ ls', list_inv hello_behind ls' ∧ [1%positive] `sublist_of` ls' ∧
         (length ls' ≤ 2)%nat.
Proof.
  assert (list_inv one_schedule [1%positive]) as Hinv.
  { split; [apply (walk_is_list 1); vm_compute; reflexivity|].
    repeat constructor. }
  split; [exact Hinv|]. split; [vm_compute; reflexivity|].
  apply (main_turn_keeps_queue turn_env 10
           (line_of "5 Message(1, 100) hello") one_schedule [1%positive]
           EmptyString hello_behind Hinv).
  - intros a [= <-]. vm_compute. reflexivity.
  - vm_compute. reflexivity.
Defined.

(** ** Lines the formats scan *)

Lemma string_app_nil (s : string) : (EmptyString ++ s)%string = s.
Proof. reflexivity. Qed.

Lemma string_app_cons c (s1 s2 : string) :
  (String c s1 ++ s2)%string = String c (s1 ++ s2).
Proof. reflexivity. Qed.

Lemma string_app_assoc (s1 s2 s3 : string) :
  ((s1 ++ s2) ++ s3 = s1 ++ (s2 ++ s3))%string.
Proof.
  induction s1 as [|c s1 IH]; [done|]. rewrite !string_app_cons. by f_equal.
Qed.

Lemma string_app_length (s1 s2 : string) :
  String.length (s1 ++ s2) = (String.length s1 + String.length s2)%nat.
Proof.
  induction s1 as [|c s1 IH]; [done|].
  rewrite string_app_cons. cbn [String.length]. by rewrite IH.
Qed.

Lemma plain_app s1 s2 : plain (s1 ++ s2) = plain s1 && plain s2.
Proof.
  induction s1 as [|c s1 IH]; [done|].
  rewrite string_app_cons. cbn [plain]. rewrite IH. by rewrite !andb_assoc.
Qed.

Lemma isdigit_plain c :
  isdigit c = true →
  isspace c = false ∧ Ascii.eqb c "-" = false ∧ Ascii.eqb c "+" = false ∧
  Ascii.eqb c NUL = false ∧ Ascii.eqb c nl = false.
Proof.
  destruct c as [[] [] [] [] [] [] [] []]; vm_compute; intros H;
    repeat split; done.
Qed.

Lemma all_digits_plain d : all_digits d = true → plain d = true.
Proof.
  induction d as [|c d IH]; simpl; [done|].
  intros [Hc Hd]%andb_true_iff.
  destruct (isdigit_plain c Hc) as (_ & _ & _ & -> & ->). simpl. eauto.
Qed.

Lemma numeral_inv d :
  numeral d = true →
  ∃ c d', d = String c d' ∧ isdigit c = true ∧ all_digits d = true.
Proof.
  destruct d as [|c d']; [done|]. intros H. exists c, d'.
  split; [done|]. split; [|done]. simpl in H. by apply andb_true_iff in H as [? _].
Qed.

(** [%d] on a numeral: the number it writes, whatever follows that is not
    a digit. *)
Lemma scan_digits_numeral d rest :
  all_digits d = true → isdigit (char_at rest 0) = false →
  ∀ acc, scan_digits acc (d ++ rest) = (decimal acc d, rest).
Proof.
  intros Hd Hrest. induction d as [|c d IH]; intros acc.
  - rewrite string_app_nil. destruct rest as [|c r]; [done|]. simpl.
    unfold char_at in Hrest. simpl in Hrest. by rewrite Hrest.
  - rewrite string_app_cons. simpl in *.
    apply andb_true_iff in Hd as [-> Hd]. by apply IH.
Qed.

Lemma scan_int_numeral d rest :
  numeral d = true → isdigit (char_at rest 0) = false →
  scan_int (d ++ rest) = Converted (decimal 0 d) rest.
Proof.
  intros (c & d' & -> & Hc & Hd)%numeral_inv Hrest.
  destruct (isdigit_plain c Hc) as (Hsp & Hm & Hp & _).
  unfold scan_int. rewrite string_app_cons. cbn [skip_space].
  rewrite Hsp, Hm, Hp. cbn [orb]. rewrite Hc.
  rewrite <- string_app_cons.
  by rewrite (scan_digits_numeral _ _ Hd Hrest).
Qed.

(** [%128[^\n]] takes a text of at most 128 characters whole when the line
    ends after it. *)
Lemma take_not_newline_plain width msg tail :
  plain msg = true → (String.length msg ≤ width)%nat →
  take_not_newline width (msg ++ String nl tail) = (msg, String nl tail).
Proof.
  revert width. induction msg as [|c msg IH]; intros width Hp Hlen.
  - rewrite string_app_nil. by destruct width.
  - rewrite string_app_cons. simpl in Hp. apply andb_true_iff in Hp as [[_ Hnl]%andb_true_iff Hp].
    apply negb_true_iff in Hnl.
    destruct width as [|w]; simpl in Hlen; [lia|].
    simpl. rewrite Hnl, IH; [done|done|lia].
Qed.

(** Steps of [sscanf]. *)
Lemma sscanf_int fmt s got v rest :
  scan_int s = Converted v rest →
  sscanf (D_int :: fmt) s got = sscanf fmt rest (got ++ [S_int v]).
Proof. intros H. simpl. by rewrite H. Qed.

Lemma sscanf_char fmt c s got :
  sscanf (D_char c :: fmt) (String c s) got = sscanf fmt s got.
Proof. simpl. by rewrite Ascii.eqb_refl. Qed.

Lemma sscanf_space fmt s got :
  isspace (char_at s 0) = false →
  sscanf (D_space :: fmt) (String " " s) got = sscanf fmt s got.
Proof.
  intros H. cbn [sscanf skip_space].
  change (isspace " ") with true. cbv iota.
  destruct s as [|c s]; [done|]. unfold char_at in H. simpl in H.
  cbn [skip_space]. by rewrite H.
Qed.

Lemma numeral_starts d rest :
  numeral d = true →
  isspace (char_at (d ++ rest) 0) = false ∧
  isdigit (char_at (d ++ rest) 0) = true.
Proof.
  intros (c & d' & -> & Hc & _)%numeral_inv. rewrite string_app_cons.
  unfold char_at. simpl. split; [|done]. by apply isdigit_plain.
Qed.

Lemma text_inv msg :
  text msg = true →
  ∃ c msg', msg = String c msg' ∧ isspace c = false ∧
            Ascii.eqb c NUL = false ∧ Ascii.eqb c nl = false ∧
            plain msg = true.
Proof.
  destruct msg as [|c msg']; [done|]. unfold text.
  intros [Hsp Hp]%andb_true_iff. exists c, msg'.
  apply negb_true_iff in Hsp. pose proof Hp as Hp'. simpl in Hp'.
  apply andb_true_iff in Hp' as [[H0 Hn]%andb_true_iff _].
  apply negb_true_iff in H0, Hn. done.
Qed.

(** The format of [case 'A'] scans the four items of a Schedule line. *)
Lemma sscanf_schedule_line d1 d2 d3 msg tail :
  numeral d1 = true → numeral d2 = true → numeral d3 = true →
  text msg = true → (String.length msg ≤ 128)%nat →
  sscanf format_A (schedule_line d1 d2 d3 (msg ++ String nl tail)) []
    = (4, [S_int (decimal 0 d1); S_int (decimal 0 d2); S_int (decimal 0 d3);
           S_str msg]).
Proof.
  intros H1 H2 H3 Hmsg Hlen. unfold schedule_line.
  let f := eval vm_compute in format_A in change format_A with f.
  rewrite !string_app_cons, !string_app_nil.
  erewrite sscanf_int by (by apply scan_int_numeral).
  rewrite sscanf_space by done. rewrite !sscanf_char.
  erewrite sscanf_int by (by apply scan_int_numeral).
  rewrite sscanf_char.
  rewrite sscanf_space by (by apply numeral_starts).
  erewrite sscanf_int by (by apply scan_int_numeral).
  rewrite sscanf_char.
  destruct (text_inv _ Hmsg) as (c & msg' & -> & Hsp & _ & Hnl & Hp).
  rewrite sscanf_space by (by rewrite string_app_cons).
  cbn [sscanf]. unfold scan_not_newline. rewrite string_app_cons at 1.
  rewrite Hnl, take_not_newline_plain by done. done.
Qed.

(** ** A line read whole *)

Lemma fgets_chars_line l rest :
  plain l = true →
  ∀ n, (String.length l < n)%nat →
       fgets_chars n (l ++ String nl rest) = ((l ++ String nl "")%string, rest).
Proof.
  intros Hp. induction l as [|c l IH]; intros n Hn.
  - rewrite !string_app_nil. destruct n; [simpl in Hn; lia|]. reflexivity.
  - rewrite !string_app_cons. simpl in Hp, Hn.
    apply andb_true_iff in Hp as [[_ Hnl]%andb_true_iff Hp].
    apply negb_true_iff in Hnl. destruct n as [|n]; [lia|].
    cbn [fgets_chars]. rewrite Hnl, IH; [done|done|lia].
Qed.

(** [fgets] hands over a line of at most 126 characters with its newline,
    and [strlen] sees all of it. *)
Lemma fgets_line l rest :
  plain l = true → (String.length l ≤ 126)%nat →
  fgets 128 (l ++ String nl rest) = Some (line_of l, rest) ∧
  c_str (line_of l) = line_of l ∧
  String.length (line_of l) = S (String.length l).
Proof.
  intros Hp Hlen. split; [|split].
  - unfold fgets, line_of. rewrite <- (fgets_chars_line l rest Hp 127) by lia.
    by destruct l.
  - unfold line_of. clear Hlen. induction l as [|c l IH]; [done|].
    rewrite string_app_cons. simpl in *.
    apply andb_true_iff in Hp as [[H0 _]%andb_true_iff Hp].
    apply negb_true_iff in H0. rewrite H0. f_equal. by apply IH.
  - unfold line_of. rewrite string_app_length. simpl. lia.
Qed.

Lemma schedule_line_plain d1 d2 d3 msg :
  numeral d1 = true → numeral d2 = true → numeral d3 = true →
  text msg = true →
  plain (schedule_line d1 d2 d3 msg) = true.
Proof.
  intros (? & ? & _ & _ & H1%all_digits_plain)%numeral_inv
         (? & ? & _ & _ & H2%all_digits_plain)%numeral_inv
         (? & ? & _ & _ & H3%all_digits_plain)%numeral_inv
         (? & ? & _ & _ & _ & _ & Hm)%text_inv.
  unfold schedule_line. rewrite !plain_app, H1, H2, H3, Hm. reflexivity.
Qed.

(** A Schedule line as the format has it, read whole, is accepted: the
    turn returns to the prompt with the request filled in from the line
    (type 'A', the three numbers, the text, [time] the reading of the clock
    plus the seconds) and handed to [alarm_insert], which leaves the list
    [insert_list]; no other block changes. *)
Theorem schedule_line_is_accepted e fuel d1 d2 d3 msg rest st a ls :
  numeral d1 = true → numeral d2 = true → numeral d3 = true →
  decimal 0 d1 ≤ INT_MAX → decimal 0 d2 ≤ INT_MAX → decimal 0 d3 ≤ INT_MAX →
  text msg = true →
  (String.length (schedule_line d1 d2 d3 msg) ≤ 126)%nat →
  malloc_result e = Some a → heap st !! a = None →
  lock_status e = 0 → signal_status e = 0 → unlock_status e = 0 →
  is_list (heap st) (alarm_list st) ls → (length ls ≤ fuel)%nat →
  ∃ st' al',
    main_turn e fuel (schedule_line d1 d2 d3 msg ++ String nl rest) st
      = Ok (rest, st') ∧
    heap st' !! a = Some al' ∧
    set_link NULL al' = set_link NULL (schedule_request e d1 d2 d3 msg) ∧
    is_list (heap st') (alarm_list st')
      (insert_list (<[a := schedule_request e d1 d2 d3 msg]> (heap st)) a ls) ∧
    (∀ q, q ≠ a → q ∉ ls → heap st' !! q = heap st !! q).
Proof.
  intros H1 H2 H3 _ _ _ Hmsg Hlen Hm Hfresh Hlock Hsig Hunlock Hls Hfuel.
  pose proof (schedule_line_plain _ _ _ _ H1 H2 H3 Hmsg) as Hp.
  destruct (fgets_line _ rest Hp Hlen) as (Hget & Hstr & Hl).
  assert (sscanf format_A (line_of (schedule_line d1 d2 d3 msg)) []
          = (4, [S_int (decimal 0 d1); S_int (decimal 0 d2);
                 S_int (decimal 0 d3); S_str msg])) as Hscan.
  { unfold line_of, schedule_line. rewrite !string_app_assoc.
    apply (sscanf_schedule_line d1 d2 d3 msg ""); try done.
    unfold schedule_line in Hlen. rewrite !string_app_length in Hlen. lia. }
  assert (typeFinder (line_of (schedule_line d1 d2 d3 msg)) = "A"%char) as Hty.
  { unfold typeFinder, line_of, schedule_line. rewrite !string_app_assoc.
    by destruct (numeral_starts d1
      (" Message(" ++ d2 ++ ", " ++ d3 ++ ") " ++ msg ++ String nl "") H1)
      as [_ ->]. }
  assert (a ∉ ls) as Hoff.
  { intros Hin. destruct (is_list_allocated _ _ _ _ Hls Hin) as [x Hx].
    congruence. }
  set (request := schedule_request e d1 d2 d3 msg).
  set (st2 := with_heap (<[a := request]> (heap st)) (emit Prompt st)).
  assert (is_list (heap st2) (alarm_list st2) ls) as Hls2.
  { subst st2. st_simpl. eapply is_list_frame; [|exact Hls].
    intros q Hq. rewrite lookup_insert_ne; [done|]. by intros ->. }
  destruct (alarm_insert_spec fuel (time_insert e) a request st2 ls)
    as (st3 & _ & Hins & Hlist & Hframe & Hdata & _); try done.
  { subst st2. st_simpl. apply lookup_insert_eq. }
  destruct (same_data_lookup _ _ a request Hdata) as (al' & Hal' & Hfields).
  { subst st2. st_simpl. apply lookup_insert_eq. }
  exists (if wake_needed request st2
          then emit Cond_signal (with_current_alarm (time request) st3)
          else st3), al'.
  assert (∀ b : bool, heap (if b then emit Cond_signal
                                         (with_current_alarm (time request) st3)
                            else st3) = heap st3 ∧
                      alarm_list (if b then emit Cond_signal
                                         (with_current_alarm (time request) st3)
                                  else st3) = alarm_list st3) as Hwake
    by (by intros []).
  destruct (Hwake (wake_needed request st2)) as [-> ->].
  split; [|split; [done|split; [|split]]].
  - unfold main_turn. rewrite Hget, Hstr, Hl, Hm, Hty.
    destruct (String.length (schedule_line d1 d2 d3 msg)) eqn:Hz.
    { exfalso. destruct (numeral_inv _ H1) as (? & ? & -> & _).
      unfold schedule_line in Hz. by rewrite string_app_cons in Hz. }
    change (S (S n) <=? 1)%nat with false. cbv iota.
    change (Ascii.eqb "A" "A") with true. cbv iota.
    unfold case_A. rewrite Hscan.
    erewrite store_Some by (st_simpl; apply lookup_insert_eq). st_simpl.
    change (4 <? 4) with false. cbv iota.
    erewrite store_Some by (st_simpl; apply lookup_insert_eq). st_simpl.
    unfold submit. rewrite Hlock, Hunlock, Hsig.
    change (negb (0 =? 0)) with false. cbv iota.
    erewrite store_Some by (st_simpl; apply lookup_insert_eq). st_simpl.
    rewrite !insert_insert_eq.
    change (with_heap _ _) with st2 in Hins |- *.
    by rewrite Hins.
  - destruct al'. simpl in Hfields.
    destruct Hfields as (-> & -> & -> & -> & -> & ->). reflexivity.
  - exact Hlist.
  - intros q Hq Hql. rewrite (Hframe q Hq Hql). subst st2. st_simpl.
    by rewrite lookup_insert_ne.
Qed.

Lemma schedule_line_is_accepted_witness :
  ∃ st' al',
    main_turn turn_env 10
      (schedule_line "5" "1" "100" "hello" ++ String nl "") one_schedule
      = Ok (EmptyString, st') ∧
    heap st' !! 5%positive = Some al' ∧
    set_link NULL al'
      = set_link NULL (schedule_request turn_env "5" "1" "100" "hello") ∧
    is_list (heap st') (alarm_list st')
      (insert_list
         (<[5%positive := schedule_request turn_env "5" "1" "100" "hello"]>
            (heap one_schedule)) 5%positive [1%positive]) ∧
    (∀ q, q ≠ 5%positive → q ∉ [1%positive] →
          heap st' !! q = heap one_schedule !! q).
Proof.
  apply (schedule_line_is_accepted turn_env 10 "5" "1" "100" "hello" ""
           one_schedule 5%positive [1%positive]);
    try reflexivity; try (by vm_compute).
  - simpl. lia.
  - apply (walk_is_list 1). vm_compute. reflexivity.
  - simpl. lia.
Defined.

(** ** Control lines with their number *)

Lemma sscanf_last_char c s (got : list scanned) :
  got ≠ [] → sscanf [D_char c] s got = (Z.of_nat (length got), got).
Proof.
  intros Hne. destruct got as [|x got]; [done|]. simpl.
  destruct s as [|c' s]; [done|]. by destruct (Ascii.eqb c c').
Qed.

(** The format of each of the cases 'B' to 'E' scans the number of a line
    that has one after the text, whatever follows the number. *)
Lemma sscanf_control_line k kw d tail :
  (k, kw) ∈ control_texts →
  numeral d = true → isdigit (char_at tail 0) = false →
  sscanf (format k) (kw ++ d ++ tail) [] = (1, [S_int (decimal 0 d)]) ∧
  typeFinder (kw ++ d ++ tail) = kind k ∧
  plain kw = true ∧ (2 ≤ String.length kw)%nat.
Proof.
  unfold control_texts. rewrite !elem_of_cons, elem_of_nil.
  intros [[= -> ->]|[[= -> ->]|[[= -> ->]|[[= -> ->]|[]]]]] Hd Htail.
  all: split; [|split; [by vm_compute|split; [reflexivity|simpl; lia]]].
  all: cbn [format control_B control_C control_D control_E].
  - let f := eval vm_compute in format_B in change format_B with f.
    rewrite !string_app_cons, !string_app_nil.
    rewrite !sscanf_char, sscanf_space by reflexivity. rewrite !sscanf_char.
    erewrite sscanf_int by (by apply scan_int_numeral).
    by rewrite sscanf_last_char.
  - let f := eval vm_compute in format_C in change format_C with f.
    rewrite !string_app_cons, !string_app_nil.
    rewrite !sscanf_char, sscanf_space by reflexivity. rewrite !sscanf_char.
    erewrite sscanf_int by (by apply scan_int_numeral).
    by rewrite sscanf_last_char.
  - let f := eval vm_compute in format_D in change format_D with f.
    rewrite !string_app_cons, !string_app_nil.
    rewrite !sscanf_char, sscanf_space by reflexivity. rewrite !sscanf_char.
    erewrite sscanf_int by (by apply scan_int_numeral).
    by rewrite sscanf_last_char.
  - let f := eval vm_compute in format_E in change format_E with f.
    rewrite !string_app_cons, !string_app_nil.
    rewrite !sscanf_char, sscanf_space by reflexivity. rewrite !sscanf_char.
    erewrite sscanf_int by (by apply scan_int_numeral).
    by rewrite sscanf_last_char.
Qed.

Lemma not_digit_line tail :
  isdigit (char_at tail 0) = false →
  isdigit (char_at (tail ++ String nl "") 0) = false.
Proof. by destruct tail. Qed.

(** A control line that has a number after its text is dropped, for each
    of the four kinds, whatever follows the number and whatever is queued:
    the turn stores the number in the block [malloc] returned and returns
    to the prompt.  The block is not typed, validated, inserted or freed,
    and nothing is printed. *)
Theorem control_line_with_number_is_dropped e fuel k kw d tail rest st a :
  (k, kw) ∈ control_texts →
  numeral d = true → decimal 0 d ≤ INT_MAX →
  isdigit (char_at tail 0) = false → plain tail = true →
  (String.length (kw ++ d ++ tail) ≤ 126)%nat →
  malloc_result e = Some a →
  main_turn e fuel ((kw ++ d ++ tail) ++ String nl rest) st
    = Ok (rest,
          with_heap (<[a := assign k (decimal 0 d) (malloc_contents e)]>
                       (heap st))
                    (emit Prompt st)).
Proof.
  intros Hk Hd _ Htail Hptail Hlen Hm.
  destruct (sscanf_control_line k kw d (tail ++ String nl "") Hk Hd
              (not_digit_line _ Htail)) as (Hscan & Hty & Hpkw & Hlkw).
  assert (plain (kw ++ d ++ tail) = true) as Hp.
  { destruct (numeral_inv _ Hd) as (? & ? & _ & _ & Hpd%all_digits_plain).
    by rewrite !plain_app, Hpkw, Hpd, Hptail. }
  destruct (fgets_line _ rest Hp Hlen) as (Hget & Hstr & Hl).
  assert (line_of (kw ++ d ++ tail) = (kw ++ d ++ tail ++ String nl "")%string)
    as Hline by (unfold line_of; by rewrite !string_app_assoc).
  unfold main_turn. rewrite Hget, Hstr, Hl, Hm, Hline, Hty.
  rewrite string_app_length in Hlen |- *.
  destruct (String.length kw + String.length (d ++ tail))%nat as [|n] eqn:Hz;
    [lia|].
  change (S (S n) <=? 1)%nat with false. cbv iota.
  assert (case_control k e fuel (kw ++ d ++ tail ++ String nl "") (Some a)
            (with_heap (<[a := malloc_contents e]> (heap (emit Prompt st)))
                       (emit Prompt st))
          = Ok (with_heap (<[a := assign k (decimal 0 d) (malloc_contents e)]>
                             (heap st)) (emit Prompt st))) as Hcase.
  { erewrite case_control_scanned; [|exact Hscan|lia].
    erewrite store_Some by (st_simpl; apply lookup_insert_eq).
    st_simpl. by rewrite insert_insert_eq. }
  revert Hk Hcase. unfold control_texts. rewrite !elem_of_cons, !elem_of_nil.
  intros [[= -> ->]|[[= -> ->]|[[= -> ->]|[[= -> ->]|[]]]]] Hcase;
    cbn [kind control_B control_C control_D control_E];
    by rewrite Hcase.
Qed.

Lemma control_line_with_number_is_dropped_witness :
  main_turn turn_env 10
    (("Cancel: Message(" ++ "7" ++ ")") ++ String nl "") one_schedule
    = Ok (EmptyString,
          with_heap
            (<[5%positive :=
                 assign control_C (decimal 0 "7") (malloc_contents turn_env)]>
               (heap one_schedule))
            (emit Prompt one_schedule)).
Proof.
  apply (control_line_with_number_is_dropped turn_env 10 control_C
           "Cancel: Message(" "7" ")" "" one_schedule 5%positive);
    try reflexivity; try (by vm_compute).
  - unfold control_texts. rewrite !elem_of_cons. right. by left.
  - simpl. lia.
Defined.

(** ** Control lines without their number *)

(** A line that one of the cases 'B' to 'E' takes and whose format scans
    no number is submitted: on the empty queue the validation loops are
    skipped, and the block becomes the only entry of the queue, typed, with
    the fields [malloc] left in it and a [time] computed from them. *)
Theorem unscanned_control_line_is_queued e fuel k stdin buf rest st a n :
  k ∈ controls →
  fgets 128 stdin = Some (buf, rest) →
  (1 < String.length (c_str buf))%nat →
  typeFinder (c_str buf) = kind k →
  sscanf (format k) (c_str buf) [] = (n, []) →
  alarm_list st = None →
  malloc_result e = Some a →
  lock_status e = 0 → signal_status e = 0 → unlock_status e = 0 →
  main_turn e fuel stdin st = Ok (rest, queued_alone e k a st).
Proof.
  intros Hk Hget Hlen Hty Hscan Hnil Hm Hlock Hsig Hunlock.
  destruct (sscanf_items _ _ _ _ _ Hscan) as (_ & _ & _ & _ & _ & Hn).
  specialize (Hn eq_refl).
  assert (case_control k e fuel (c_str buf) (Some a)
            (with_heap (<[a := malloc_contents e]> (heap (emit Prompt st)))
                       (emit Prompt st))
          = Ok (queued_alone e k a st)) as Hcase.
  { unfold case_control. rewrite Hscan. st_simpl.
    assert ((n <? 1) = true) as -> by (apply Z.ltb_lt; lia).
    erewrite store_Some by (st_simpl; apply lookup_insert_eq). st_simpl.
    rewrite validate_empty by done. st_simpl.
    unfold submit. rewrite Hlock, Hunlock, Hsig.
    change (negb (0 =? 0)) with false. cbv iota.
    erewrite store_Some by (st_simpl; apply lookup_insert_eq). st_simpl.
    rewrite !insert_insert_eq.
    unfold alarm_insert, link_in. st_simpl. rewrite Hnil.
    assert (∀ now alarm last st0,
              insert_scan fuel now alarm last None st0 = Ok (last, None, st0))
      as Hscan0 by (by destruct fuel).
    rewrite Hscan0.
    st_simpl.
    erewrite store_Some by (st_simpl; apply lookup_insert_eq). st_simpl.
    rewrite !insert_insert_eq. unfold wake.
    erewrite load_Some by (st_simpl; apply lookup_insert_eq). st_simpl.
    unfold queued_alone, wake_needed, control_request.
    cbn [time seconds set_time set_type set_link]. st_simpl.
    change (0 =? 0) with true. cbv iota.
    destruct ((current_alarm st =? 0)
              || (time_expiry e + seconds (malloc_contents e)
                  <? current_alarm st));
      st_simpl; destruct (report k) as [line_for|]; try reflexivity.
    all: erewrite load_Some by (st_simpl; apply lookup_insert_eq).
    all: reflexivity. }
  unfold main_turn. rewrite Hget, Hm.
  destruct (String.length (c_str buf) <=? 1)%nat eqn:E;
    [apply Nat.leb_le in E; lia|].
  rewrite Hty. revert Hk Hcase. unfold controls.
  rewrite !elem_of_cons, elem_of_nil.
  intros [->|[->|[->|[->|[]]]]] Hcase;
    cbn [kind control_B control_C control_D control_E];
    by rewrite Hcase.
Qed.

Lemma unscanned_control_line_is_queued_witness :
  main_turn turn_env 10 (line_of "Cancel: Message(x)") init_state
    = Ok (EmptyString, queued_alone turn_env control_C 5%positive init_state).
Proof.
  apply (unscanned_control_line_is_queued turn_env 10 control_C
           (line_of "Cancel: Message(x)") (line_of "Cancel: Message(x)")
           EmptyString init_state 5%positive 0);
    try reflexivity; try (by vm_compute).
  - unfold controls. rewrite !elem_of_cons. auto.
  - vm_compute. lia.
Defined.

(** ** What a turn takes from the input *)

Lemma fgets_chars_cases n :
  ∀ input buf r,
    fgets_chars n input = (buf, r) →
    input = (buf ++ r)%string ∧
    ∃ l, no_newline l = true ∧
         ((buf = line_of l ∧ (String.length l < n)%nat) ∨
          (buf = l ∧ String.length l = n) ∨
          (buf = l ∧ r = EmptyString ∧ (String.length l ≤ n)%nat)).
Proof.
  induction n as [|n IH]; intros input buf r; simpl.
  - intros [= <- <-]. split; [done|]. exists EmptyString. split; [done|].
    right; left. done.
  - destruct input as [|c input].
    + intros [= <- <-]. split; [done|]. exists EmptyString. split; [done|].
      right; right. simpl. repeat split; lia.
    + destruct (Ascii.eqb c nl) eqn:Hc.
      * intros [= <- <-]. apply Ascii.eqb_eq in Hc as ->.
        split; [done|]. exists EmptyString. split; [done|]. left.
        split; [done|simpl; lia].
      * destruct (fgets_chars n input) as [l0 r0] eqn:Hrec.
        intros [= <- <-].
        destruct (IH _ _ _ Hrec) as (-> & l & Hl & Hcases).
        split; [done|]. exists (String c l). split; [simpl; by rewrite Hc|].
        destruct Hcases as [[-> Hlen]|[[-> Hlen]|(-> & -> & Hlen)]].
        -- left. split; [done|simpl; lia].
        -- right; left. split; [done|simpl; lia].
        -- right; right. repeat split; simpl; lia.
Qed.

(** A turn that returns to the prompt has taken one line off the input,
    and no more: the characters up to the first newline and that newline,
    when these are at most 127; or the first 127 characters of a longer
    line, no newline among them (what is left of that line is read as the
    next command); or all that is left of an input that ends with no
    newline. *)
Theorem main_turn_takes_one_line e fuel stdin st rest st' :
  main_turn e fuel stdin st = Ok (rest, st') →
  ∃ l,
    no_newline l = true ∧
    ((stdin = (line_of l ++ rest)%string ∧ (String.length l ≤ 126)%nat) ∨
     (stdin = (l ++ rest)%string ∧ String.length l = 127%nat) ∨
     (stdin = l ∧ rest = EmptyString ∧ (1 ≤ String.length l ≤ 127)%nat)).
Proof.
  unfold main_turn, fgets.
  destruct stdin as [|c stdin]; [done|].
  destruct (fgets_chars (128 - 1) (String c stdin)) as [buf rest0] eqn:Hget.
  destruct (fgets_chars_cases _ _ _ _ Hget) as (Hsplit & l & Hl & Hcases).
  assert (rest0 = rest → ∃ l0,
            no_newline l0 = true ∧
            ((String c stdin = (line_of l0 ++ rest)%string ∧
              (String.length l0 ≤ 126)%nat) ∨
             (String c stdin = (l0 ++ rest)%string ∧
              String.length l0 = 127%nat) ∨
             (String c stdin = l0 ∧ rest = EmptyString ∧
              (1 ≤ String.length l0 ≤ 127)%nat))) as Hgoal.
  { intros <-. exists l. split; [done|]. rewrite Hsplit.
    destruct Hcases as [[-> Hlen]|[[-> Hlen]|(-> & -> & Hlen)]].
    - left. split; [done|]. simpl in Hlen. lia.
    - right; left. done.
    - right; right. rewrite Hsplit in Hget.
      assert ((l ++ "")%string = l) as Hnil.
      { clear. induction l as [|a l IH]; [done|].
        rewrite string_app_cons. by f_equal. }
      rewrite Hnil in *. split; [done|]. split; [done|].
      destruct l; [done|]. simpl in *. lia. }
  destruct (String.length (c_str buf) <=? 1)%nat.
  - intros [= <- _]. by apply Hgoal.
  - intros (st1 & _ & [= <- _])%bind_Ok_inv. by apply Hgoal.
Qed.

Lemma main_turn_takes_one_line_witness :
  ∃ l,
    no_newline l = true ∧
    ((long_schedule_input = (line_of l ++ long_schedule_rest)%string ∧
      (String.length l ≤ 126)%nat) ∨
     (long_schedule_input = (l ++ long_schedule_rest)%string ∧
      String.length l = 127%nat) ∨
     (long_schedule_input = l ∧ long_schedule_rest = EmptyString ∧
      (1 ≤ String.length l ≤ 127)%nat)).
Proof.
  apply (main_turn_takes_one_line turn_env 10 long_schedule_input init_state
           long_schedule_rest long_schedule_queued).
  vm_compute. reflexivity.
Defined.

(** ** A turn in which [malloc] fails *)

(** When [malloc] returns NULL for a line of more than one character:
    [case 'A'] aborts with "Allocate alarm"; the cases 'B' to 'E' have no
    such test and go through the null pointer; the default case prints
    "bad command" and the turn returns to the prompt. *)
Theorem main_turn_without_memory e fuel stdin buf rest st :
  malloc_result e = None →
  fgets 128 stdin = Some (buf, rest) →
  (1 < String.length (c_str buf))%nat →
  (typeFinder (c_str buf) = "A"%char →
   main_turn e fuel stdin st = Abort "Allocate alarm") ∧
  (typeFinder (c_str buf) ∈ ["B"; "C"; "D"; "E"]%char →
   main_turn e fuel stdin st = Fault) ∧
  (typeFinder (c_str buf) = "F"%char →
   main_turn e fuel stdin st
     = Ok (rest, emit Print_bad_command (emit Prompt st))).
Proof.
  intros Hm Hget Hlen. unfold main_turn. rewrite Hget, Hm.
  destruct (String.length (c_str buf) <=? 1)%nat eqn:E;
    [apply Nat.leb_le in E; lia|].
  split; [|split].
  - by intros ->.
  - rewrite !elem_of_cons, elem_of_nil. by intros [->|[->|[->|[->|[]]]]].
  - by intros ->.
Qed.

Lemma main_turn_without_memory_witness :
  (typeFinder (c_str (line_of "Cancel: Message(7)")) = "A"%char →
   main_turn out_of_memory 10
             (line_of "Cancel: Message(7)") one_schedule
     = Abort "Allocate alarm") ∧
  (typeFinder (c_str (line_of "Cancel: Message(7)")) ∈ ["B"; "C"; "D"; "E"]%char →
   main_turn out_of_memory 10
             (line_of "Cancel: Message(7)") one_schedule = Fault) ∧
  (typeFinder (c_str (line_of "Cancel: Message(7)")) = "F"%char →
   main_turn out_of_memory 10
             (line_of "Cancel: Message(7)") one_schedule
     = Ok (EmptyString, emit Print_bad_command (emit Prompt one_schedule))).
Proof.
  apply (main_turn_without_memory out_of_memory
           10 (line_of "Cancel: Message(7)") (line_of "Cancel: Message(7)")
           EmptyString one_schedule).
  - reflexivity.
  - vm_compute. reflexivity.
  - vm_compute. lia.
Defined.

(** ** seperateBySpace *)

Lemma char_at_app pre c rest :
  char_at (pre ++ String c rest) (String.length pre) = c.
Proof.
  induction pre as [|a pre IH]; [done|].
  rewrite string_app_cons. exact IH.
Qed.

Lemma string_snoc_length (s : string) c :
  String.length (s ++ String c "") = S (String.length s).
Proof. rewrite string_app_length. simpl. lia. Qed.

Lemma field_value_app a b :
  ∀ res, field_value res (a ++ b) = field_value res a ≫= λ r, field_value r b.
Proof.
  induction a as [|c a IH]; intros res; [done|].
  rewrite string_app_cons. simpl. destruct (isdigit c); [|by apply IH].
  destruct (add_digit res c); simpl; [by apply IH|done].
Qed.

(** The inner loop over [string[j .. j + count)] computes the value of
    that piece. *)
Lemma digits_loop_field mid :
  ∀ pre suf res,
    digits_loop (String.length mid) (String.length pre) (pre ++ mid ++ suf) res
      = field_value res mid.
Proof.
  induction mid as [|c mid IH]; intros pre suf res; [done|].
  rewrite string_app_cons. cbn [String.length digits_loop field_value].
  rewrite char_at_app.
  assert (∀ r, digits_loop (String.length mid) (S (String.length pre))
                 (pre ++ String c (mid ++ suf)) r = field_value r mid) as Hrec.
  { intros r. rewrite <- (string_snoc_length pre c).
    rewrite <- (IH (pre ++ String c "")%string suf r).
    by rewrite string_app_assoc. }
  destruct (isdigit c); [|by apply Hrec].
  destruct (add_digit res c); simpl; [by apply Hrec|done].
Qed.

Lemma space_loop_fields suf :
  ∀ p0 cur cur' beyond printed,
    (∀ res, field_value res cur = field_value res cur') →
    space_loop (String.length suf) (String.length p0 + String.length cur)
               (String.length p0) (p0 ++ cur ++ suf ++ beyond) printed
      = (app printed) <$> mapM (field_value 0) (ended_fields cur' suf).
Proof.
  induction suf as [|c suf IH]; intros p0 cur cur' beyond printed Hcur.
  - simpl. by rewrite app_nil_r.
  - cbn [String.length space_loop ended_fields]. rewrite string_app_cons.
    assert (char_at (p0 ++ cur ++ String c (suf ++ beyond))
                    (String.length p0 + String.length cur) = c) as ->.
    { rewrite <- string_app_length, <- string_app_assoc. apply char_at_app. }
    destruct (Ascii.eqb c " ") eqn:Hc.
    + apply Ascii.eqb_eq in Hc as ->.
      replace (String.length p0 + String.length cur - String.length p0)%nat
        with (String.length cur) by lia.
      rewrite digits_loop_field, Hcur. cbn [mapM].
      destruct (field_value 0 cur') as [v|]; [|done]. cbn [mbind option_bind].
      specialize (IH (p0 ++ cur)%string (String " " "") EmptyString beyond
                     (printed ++ [v])).
      rewrite string_app_length in IH. simpl String.length in IH.
      replace (String.length p0 + String.length cur + 1)%nat
        with (S (String.length p0 + String.length cur)) in IH by lia.
      rewrite string_app_assoc in IH. rewrite string_app_cons in IH.
      rewrite string_app_nil in IH. rewrite IH by done.
      destruct (mapM (field_value 0) (ended_fields "" suf)) as [vs|]; [|done].
      simpl. by rewrite <- app_assoc.
    + specialize (IH p0 (cur ++ String c "")%string
                     (cur' ++ String c "")%string beyond printed).
      rewrite string_snoc_length in IH.
      replace (String.length p0 + S (String.length cur))%nat
        with (S (String.length p0 + String.length cur)) in IH by lia.
      rewrite string_app_assoc in IH. rewrite string_app_cons in IH.
      rewrite string_app_nil in IH. apply IH.
      intros res. by rewrite !field_value_app, Hcur.
Qed.

(** The buffer starts with the line. *)
Lemma c_str_prefix buf : ∃ beyond, buf = (c_str buf ++ beyond)%string.
Proof.
  induction buf as [|c buf [beyond IH]]; [by exists EmptyString|].
  simpl. destruct (Ascii.eqb c NUL).
  - by exists (String c buf).
  - exists beyond. rewrite string_app_cons. by f_equal.
Qed.

Lemma space_loop_line string :
  space_loop (strlen string) 0 0 string []
    = (app []) <$> mapM (field_value 0) (ended_fields EmptyString (c_str string)).
Proof.
  destruct (c_str_prefix string) as [beyond Hb].
  pose proof (space_loop_fields (c_str string) EmptyString EmptyString
                EmptyString beyond [] (λ _, eq_refl)) as H.
  rewrite !string_app_nil, <- Hb in H. exact H.
Qed.

(** [seperateBySpace] prints one number for each space of the line (what
    precedes the first NUL of the buffer): the number that the digits
    between that space and the one before it write, the characters that
    are no digits skipped.  What follows the last space is not printed.
    The run is undefined exactly when one of these numbers cannot be
    accumulated in an [int]. *)
Theorem seperateBySpace_prints_fields string :
  seperateBySpace string
    = mapM (field_value 0) (ended_fields EmptyString (c_str string)).
Proof.
  unfold seperateBySpace. rewrite space_loop_line.
  by destruct (mapM (field_value 0) (ended_fields "" (c_str string))).
Qed.

Lemma ended_fields_app a s :
  no_space a = true →
  ∀ cur, ended_fields cur (a ++ s) = ended_fields (cur ++ a) s.
Proof.
  induction a as [|c a IH]; intros Ha cur.
  - rewrite string_app_nil. f_equal. clear. induction cur as [|c cur IH]; [done|].
    rewrite string_app_cons. by f_equal.
  - simpl in Ha. apply andb_true_iff in Ha as [Hc Ha].
    apply negb_true_iff in Hc. rewrite string_app_cons.
    cbn [ended_fields]. rewrite Hc, (IH Ha). f_equal.
    by rewrite string_app_assoc.
Qed.

Lemma ended_fields_no_space s :
  no_space s = true → ∀ cur, ended_fields cur s = [].
Proof.
  induction s as [|c s IH]; intros Hs cur; [done|].
  simpl in Hs. apply andb_true_iff in Hs as [Hc Hs].
  apply negb_true_iff in Hc. simpl. rewrite Hc. by apply IH.
Qed.

Lemma isdigit_value c : isdigit c = true → 0 ≤ digit_value c ≤ 9.
Proof.
  unfold isdigit, digit_value. intros [H1 H2]%andb_true_iff.
  apply Nat.leb_le in H1, H2. lia.
Qed.

Lemma decimal_ge d :
  all_digits d = true → ∀ acc, 0 ≤ acc → acc ≤ decimal acc d.
Proof.
  induction d as [|c d IH]; intros Hd acc Hacc; simpl; [lia|].
  simpl in Hd. apply andb_true_iff in Hd as [Hc Hd].
  apply isdigit_value in Hc. specialize (IH Hd (10 * acc + digit_value c)). lia.
Qed.

Lemma add_digit_digit res c :
  isdigit c = true → 0 ≤ res →
  add_digit res c
    = if 10 * res + digit_value c <=? INT_MAX - 48
      then Some (10 * res + digit_value c) else None.
Proof.
  intros Hc Hres. pose proof (isdigit_value c Hc) as Hv.
  unfold add_digit, in_int, digit_value, INT_MIN, INT_MAX in *.
  change (Z.of_nat (nat_of_ascii "0")) with 48.
  repeat case_match; try f_equal; lia.
Qed.

(** The digits of a numeral accumulate to the number it writes as long as
    that number is at most [INT_MAX - 48]. *)
Lemma field_value_numeral d :
  all_digits d = true →
  ∀ res, 0 ≤ res ≤ INT_MAX - 48 →
    field_value res d
      = if decimal res d <=? INT_MAX - 48 then Some (decimal res d) else None.
Proof.
  induction d as [|c d IH]; intros Hd res Hres; simpl.
  - destruct (res <=? INT_MAX - 48) eqn:E; [done|]. apply Z.leb_gt in E. lia.
  - simpl in Hd. apply andb_true_iff in Hd as [Hc Hd]. rewrite Hc.
    rewrite add_digit_digit by (done || lia).
    pose proof (isdigit_value c Hc) as Hv.
    destruct (10 * res + digit_value c <=? INT_MAX - 48) eqn:E; simpl.
    + apply Z.leb_le in E. apply IH; [done|lia].
    + apply Z.leb_gt in E.
      pose proof (decimal_ge d Hd (10 * res + digit_value c)) as Hge.
      destruct (decimal (10 * res + digit_value c) d <=? INT_MAX - 48) eqn:E';
        [|done].
      apply Z.leb_le in E'. lia.
Qed.

(** For a line that starts with a numeral followed by the only space of
    the line, [seperateBySpace] prints the number the numeral writes.  The
    character code is added before ['0'] is subtracted, so the run is
    defined only for numbers up to [INT_MAX - 48]: the numbers above it
    overflow the [int], those up to [INT_MAX] included. *)
Theorem seperateBySpace_number_bound d rest :
  all_digits d = true → no_space rest = true →
  seperateBySpace (d ++ String " " rest)
    = if decimal 0 d <=? INT_MAX - 48 then Some [decimal 0 d] else None.
Proof.
  intros Hd Hrest. unfold seperateBySpace. rewrite space_loop_line.
  assert (no_space d = true) as Hsp.
  { clear -Hd. induction d as [|c d IH]; [done|]. simpl in *.
    apply andb_true_iff in Hd as [Hc Hd]. rewrite (IH Hd), andb_true_r.
    apply negb_true_iff. by destruct c as [[] [] [] [] [] [] [] []]. }
  assert (c_str (d ++ String " " rest) = (d ++ String " " (c_str rest))%string)
    as ->.
  { clear -Hd. induction d as [|c d IH]; [done|].
    simpl in Hd. apply andb_true_iff in Hd as [Hc Hd].
    rewrite !string_app_cons. simpl.
    destruct (isdigit_plain c Hc) as (_ & _ & _ & -> & _). by rewrite IH. }
  assert (no_space (c_str rest) = true) as Hrest'.
  { clear -Hrest. induction rest as [|c rest IH]; [done|]. simpl in *.
    apply andb_true_iff in Hrest as [Hc Hrest].
    destruct (Ascii.eqb c NUL); [done|]. simpl. by rewrite Hc, IH. }
  rewrite (ended_fields_app _ _ Hsp), string_app_nil. simpl.
  rewrite (ended_fields_no_space _ Hrest'). simpl.
  rewrite field_value_numeral by (done || (unfold INT_MAX; lia)).
  by destruct (decimal 0 d <=? INT_MAX - 48).
Qed.

Lemma seperateBySpace_number_bound_witness :
  seperateBySpace ("2147483647" ++ String " " "Message(1,2)")
    = (if decimal 0 "2147483647" <=? INT_MAX - 48
       then Some [decimal 0 "2147483647"] else None) ∧
  seperateBySpace ("2147483647" ++ String " " "Message(1,2)") = None ∧
  seperateBySpace ("2147483599" ++ String " " "Message(1,2)")
    = Some [2147483599].
Proof.
  split; [|split; vm_compute; reflexivity].
  apply (seperateBySpace_number_bound "2147483647" "Message(1,2)");
    reflexivity.
Defined.

(** ** The draft's alarm thread *)

(** In the draft, a request the alarm thread took off the list and did not
    wait out (the timed wait ended with no timeout, [current_alarm] being
    no longer its [time]) is always back in the list after the turn, in
    time order: the list [l1 ++ l2] the thread woke to becomes
    [l1 ++ alarm :: l2], every entry of [l1] being strictly earlier than
    the request and the head of [l2] not earlier, with no [time] changed.
    The request is neither printed nor freed. *)
Theorem draft_thread_requeues now fuel alarm al wakes wakes1 st st_w ls :
  heap st !! alarm = Some al →
  now < time al →
  timed_wait alarm wakes (with_current_alarm (time al) st)
    = Ok (false, wakes1, st_w) →
  is_list (heap st_w) (alarm_list st_w) ls →
  alarm ∉ ls →
  (length ls ≤ fuel)%nat →
  ∃ st' l1 l2,
    Draft.serve_alarm now fuel 0 alarm wakes st = Ok (false, wakes1, st') ∧
    ls = l1 ++ l2 ∧
    is_list (heap st') (alarm_list st') (l1 ++ alarm :: l2) ∧
    (∀ q, q ∈ l1 → time_of (heap st_w) q < time_of (heap st_w) alarm) ∧
    (∀ q, head l2 = Some q →
          time_of (heap st_w) alarm ≤ time_of (heap st_w) q) ∧
    times (heap st') (l1 ++ alarm :: l2)
      = times (heap st_w) (l1 ++ alarm :: l2) ∧
    is_Some (heap st' !! alarm) ∧
    fired_lines (out st') = fired_lines (out st_w).
Proof.
  intros Hal Hnow Hwait Hls Hoff Hfuel.
  destruct (timed_wait_inv _ _ _ _ _ _ Hwait) as (_ & _ & _ & al_w & Hal_w & _).
  destruct (draft_alarm_insert_spec fuel alarm al_w st_w ls)
    as (st1 & Hrun & Hlist & _ & Hdata & _ & Hout); try done.
  destruct (insert_in_order_split (heap st_w) alarm al_w ls)
    as (l1 & l2 & Hsplit & Hins & Hl1 & Hl2);
    [done|eauto using is_list_allocated|].
  rewrite Hins in Hlist. rewrite <- (time_of_lookup _ _ _ Hal_w) in Hl1, Hl2.
  destruct (same_data_lookup _ _ _ _ Hdata Hal_w) as (al1 & Hal1 & _).
  pose proof (times_same_data _ _ (l1 ++ alarm :: l2) Hdata) as Htimes.
  eexists _, l1, l2. split; [|split; [done|]].
  - unfold Draft.serve_alarm. rewrite (load_Some _ _ _ Hal). st_simpl.
    apply Z.ltb_lt in Hnow. rewrite Hnow, Hwait. st_simpl.
    rewrite Hrun. reflexivity.
  - destruct (wake_needed al_w st_w); st_simpl; rewrite ?Hout;
      repeat split; eauto.
    rewrite fired_lines_app. simpl. lia.
Qed.

Lemma draft_thread_requeues_witness :
  ∃ st' l1 l2,
    Draft.serve_alarm 0 1 0 1%positive [(0, same_number_arrived)] holding_x
      = Ok (false, [], st') ∧
    [2%positive] = l1 ++ l2 ∧
    is_list (heap st') (alarm_list st') (l1 ++ 1%positive :: l2) ∧
    (∀ q, q ∈ l1 → time_of (heap same_number_arrived) q
                   < time_of (heap same_number_arrived) 1%positive) ∧
    (∀ q, head l2 = Some q →
          time_of (heap same_number_arrived) 1%positive
          ≤ time_of (heap same_number_arrived) q) ∧
    times (heap st') (l1 ++ 1%positive :: l2)
      = times (heap same_number_arrived) (l1 ++ 1%positive :: l2) ∧
    is_Some (heap st' !! 1%positive) ∧
    fired_lines (out st') = fired_lines (out same_number_arrived).
Proof.
  apply (draft_thread_requeues 0 1 1%positive
           (mk_alarm NULL "A" 100 1 1 100 "x")
           [(0, same_number_arrived)] [] holding_x same_number_arrived
           [2%positive]).
  - vm_compute. reflexivity.
  - reflexivity.
  - vm_compute. reflexivity.
  - apply (walk_is_list 1). vm_compute. reflexivity.
  - rewrite not_elem_of_cons. split; [discriminate|apply not_elem_of_nil].
  - simpl. lia.
Defined.

(** ** The line [alarm_insert] prints *)

Lemma insert_cases h now alarm al ls :
  h !! alarm = Some al →
  (∀ q, q ∈ ls → is_Some (h !! q)) →
  (insert_print h now alarm ls = [] ∧
   insert_list h alarm ls = ls ++ [alarm]) ∨
  (insert_print h now alarm ls
     = [Print_inserted (messageNumber al) now (type al)] ∧
   ∃ l1 n l2, ls = l1 ++ n :: l2 ∧
              insert_list h alarm ls = l1 ++ alarm :: n :: l2) ∨
  (insert_print h now alarm ls
     = [Print_replacement (messageNumber al) now (type al)] ∧
   insert_list h alarm ls = ls).
Proof.
  intros Hal. induction ls as [|n ls IH]; intros Hall; simpl; [by left|].
  destruct (Hall n) as [nx Hnx]; [apply elem_of_cons; by left|].
  rewrite Hnx, Hal.
  destruct (is_A (type nx) && (messageNumber nx =? messageNumber al));
    [by right; right|].
  destruct (time al <=? time nx).
  { right; left. split; [done|]. by exists [], n, ls. }
  destruct IH as [[-> ->]|[(-> & l1 & m & l2 & -> & ->)|[-> ->]]].
  - intros q Hq. apply Hall, elem_of_cons. by right.
  - by left.
  - right; left. split; [done|]. by exists (n :: l1), m, l2.
  - by right; right.
Qed.

(** The loop goes past the entries it passes over. *)
Lemma insert_passed_over h now alarm al l1 l2 :
  h !! alarm = Some al →
  (∀ q, q ∈ l1 → is_Some (h !! q)) →
  passed_over h al l1 →
  insert_list h alarm (l1 ++ l2) = l1 ++ insert_list h alarm l2 ∧
  insert_print h now alarm (l1 ++ l2) = insert_print h now alarm l2.
Proof.
  intros Hal. induction l1 as [|n l1 IH]; intros Hall Hpass; [done|].
  destruct (Hall n) as [nx Hnx]; [apply elem_of_cons; by left|].
  destruct (Hpass n nx) as [Hnum Htime]; [apply elem_of_cons; by left|done|].
  destruct IH as [IH1 IH2].
  { intros q Hq. apply Hall, elem_of_cons. by right. }
  { intros q qx Hq. apply Hpass, elem_of_cons. by right. }
  simpl. rewrite Hnx, Hal, Hnum.
  destruct (time al <=? time nx) eqn:E; [apply Z.leb_le in E; lia|].
  by rewrite IH1, IH2.
Qed.

(** What [alarm_insert] prints goes with what it does to the list, and
    the first entry the loop does not pass over decides both.  The loop
    passes over an entry that is strictly earlier than the request and is
    no type 'A' entry with its message number.  When the first entry not
    passed over is a type 'A' entry with the request's number, the line is
    "... Replacement ..." and the request is not linked in; when it is
    another entry (so one that is not earlier), the line is "... Inserted
    Into Alarm List ..." and the request is linked in before it; when
    every entry is passed over (the empty list included), the request is
    linked in at the end and no line is printed.  One of the three always
    happens.  The signal of the wake decision, if any, follows the
    line. *)
Theorem alarm_insert_printed_line fuel now alarm al st ls :
  is_list (heap st) (alarm_list st) ls →
  heap st !! alarm = Some al →
  alarm ∉ ls →
  (length ls ≤ fuel)%nat →
  ∃ st' prints ls',
    alarm_insert fuel now 0 alarm st = Ok st' ∧
    is_list (heap st') (alarm_list st') ls' ∧
    out st' = out st ++ prints
                ++ (if wake_needed al st then [Cond_signal] else []) ∧
    (∀ l1 n nx l2,
       ls = l1 ++ n :: l2 → passed_over (heap st) al l1 →
       heap st !! n = Some nx →
       is_A (type nx) && (messageNumber nx =? messageNumber al) = true →
       prints = [Print_replacement (messageNumber al) now (type al)] ∧
       ls' = ls) ∧
    (∀ l1 n nx l2,
       ls = l1 ++ n :: l2 → passed_over (heap st) al l1 →
       heap st !! n = Some nx →
       is_A (type nx) && (messageNumber nx =? messageNumber al) = false →
       time al ≤ time nx →
       prints = [Print_inserted (messageNumber al) now (type al)] ∧
       ls' = l1 ++ alarm :: n :: l2) ∧
    (passed_over (heap st) al ls →
     prints = [] ∧ ls' = ls ++ [alarm]) ∧
    ((prints = [] ∧ ls' = ls ++ [alarm]) ∨
     (prints = [Print_inserted (messageNumber al) now (type al)] ∧
      ∃ l1 n l2, ls = l1 ++ n :: l2 ∧ ls' = l1 ++ alarm :: n :: l2) ∨
     (prints = [Print_replacement (messageNumber al) now (type al)] ∧
      ls' = ls)).
Proof.
  intros Hls Hal Hfresh Hfuel.
  destruct (alarm_insert_spec fuel now alarm al st ls)
    as (st1 & _ & Hrun & Hlist & _ & _ & _ & Hout); try done.
  assert (∀ q, q ∈ ls → is_Some (heap st !! q)) as Hall
    by eauto using is_list_allocated.
  eexists _, (insert_print (heap st) now alarm ls),
          (insert_list (heap st) alarm ls).
  split; [exact Hrun|]. split; [by destruct (wake_needed al st)|]. split.
  { destruct (wake_needed al st); st_simpl; rewrite Hout.
    - by rewrite <- app_assoc.
    - by rewrite app_nil_r. }
  split; [|split; [|split]].
  - intros l1 n nx l2 -> Hpass Hnx Hnum.
    destruct (insert_passed_over (heap st) now alarm al l1 (n :: l2))
      as [-> ->]; try done.
    { intros q Hq. apply Hall, elem_of_app. by left. }
    simpl. by rewrite Hnx, Hal, Hnum.
  - intros l1 n nx l2 -> Hpass Hnx Hnum Htime.
    destruct (insert_passed_over (heap st) now alarm al l1 (n :: l2))
      as [-> ->]; try done.
    { intros q Hq. apply Hall, elem_of_app. by left. }
    simpl. rewrite Hnx, Hal, Hnum. apply Z.leb_le in Htime.
    by rewrite Htime.
  - intros Hpass.
    destruct (insert_passed_over (heap st) now alarm al ls []) as [H1 H2];
      try done.
    rewrite app_nil_r in H1, H2. by rewrite H1, H2.
  - by apply insert_cases.
Qed.

Lemma alarm_insert_printed_line_witness :
  passed_over (heap queue_old) (mk_alarm NULL "A" 20 1 1 20 "new") [] ∧
  ∃ st' prints ls',
    alarm_insert 1 0 0 2%positive queue_old = Ok st' ∧
    is_list (heap st') (alarm_list st') ls' ∧
    out st' = out queue_old ++ prints ++ [] ∧
    (∀ l1 n nx l2,
       [1%positive] = l1 ++ n :: l2 →
       passed_over (heap queue_old) (mk_alarm NULL "A" 20 1 1 20 "new") l1 →
       heap queue_old !! n = Some nx →
       is_A (type nx) && (messageNumber nx =? 1) = true →
       prints = [Print_replacement 1 0 "A"] ∧ ls' = [1%positive]) ∧
    (∀ l1 n nx l2,
       [1%positive] = l1 ++ n :: l2 →
       passed_over (heap queue_old) (mk_alarm NULL "A" 20 1 1 20 "new") l1 →
       heap queue_old !! n = Some nx →
       is_A (type nx) && (messageNumber nx =? 1) = false →
       20 ≤ time nx →
       prints = [Print_inserted 1 0 "A"] ∧
       ls' = l1 ++ 2%positive :: n :: l2) ∧
    (passed_over (heap queue_old) (mk_alarm NULL "A" 20 1 1 20 "new")
                 [1%positive] →
     prints = [] ∧ ls' = [1%positive] ++ [2%positive]) ∧
    ((prints = [] ∧ ls' = [1%positive] ++ [2%positive]) ∨
     (prints = [Print_inserted 1 0 "A"] ∧
      ∃ l1 n l2, [1%positive] = l1 ++ n :: l2 ∧
                 ls' = l1 ++ 2%positive :: n :: l2) ∨
     (prints = [Print_replacement 1 0 "A"] ∧ ls' = [1%positive])).
Proof.
  split.
  { intros q qx Hq. by apply elem_of_nil in Hq. }
  apply (alarm_insert_printed_line 1 0 2%positive
           (mk_alarm NULL "A" 20 1 1 20 "new") queue_old [1%positive]).
  - apply (walk_is_list 1). vm_compute. reflexivity.
  - vm_compute. reflexivity.
  - rewrite !not_elem_of_cons. repeat split; try discriminate.
    apply not_elem_of_nil.
  - simpl. lia.
Defined.
